(** * The USD-to-Arnold scene reader: a shallow embedding of
      translator/reader/reader.h and translator/reader/utils.cpp.

    The reader walks a USD stage, creates Arnold nodes through registered
    primitive readers, stacks the connections between nodes and resolves them
    once the traversal is over (a strict pass, then a "dangling" pass that
    forces the export of the missing targets).

    Conventions of the model:
    - Arnold and USD are libraries the reader calls; the part of their state
      the reader touches is modelled by explicit records ([Arnold],
      [UsdStage]).  The USD queries the code makes on a prim are fields of
      [UsdPrim].
    - a [float] or a [double] is its value, a rational.  The times at which
      the keys of a matrix are taken and the entries of an Arnold matrix are
      rounded as the two formats round them (see [to_float]); elsewhere a
      value is stored as it is given.
    - worker threads are run one after the other, in thread order; a
      WorkDispatcher job is run when it is submitted.
    - what the reader gets from files that are not at hand (the TimeSettings
      accessors, the reader registry, the Arnold node-type masks, the layer
      and stage-cache lookups) is gathered in the class [Env]. *)

From Stdlib Require Import ZArith QArith Lia Ascii String Sorted.
From Stdlib Require Import Floats.SpecFloat.
From stdpp Require Import base gmap list strings pretty.

Local Open Scope string_scope.
Local Open Scope list_scope.
Set Warnings "-register-all".

(** ** Arnold: nodes, arrays, parameters *)

Abbreviation AtNode := nat (only parsing).
Abbreviation AtCritSec := nat (only parsing).
Abbreviation AtUniverse := nat (only parsing).

(** ** [float] and [double]

    A value of one of the two formats is a rational, and an operation of the
    program on floats is the operation on rationals followed by the rounding
    of the format: to the nearest value of the format, a tie going to the
    even mantissa.  The rounding is the division of the Standard Library's
    [SpecFloat], run on the numerator and the denominator: 24 bits and
    exponents below 128 for a [float], 53 bits and exponents below 1024 for
    a [double]. *)
Definition Z2SF (z : Z) : spec_float :=
  match z with
  | Z0 => S754_zero false
  | Zpos p => S754_finite false p 0
  | Zneg p => S754_finite true p 0
  end.

Definition SF2Q (f : spec_float) : option Q :=
  match f with
  | S754_zero _ => Some 0%Q
  | S754_finite s m e =>
      let n := if s then Zneg m else Zpos m in
      Some (Qred match e with
                 | Z0 => n # 1
                 | Zpos k => (n * 2 ^ Zpos k) # 1
                 | Zneg k => n # 2 ^ k
                 end)
  | _ => None
  end.

(** The value of the format nearest to [q], none when it is an infinity. *)
Definition round_to (prec emax : Z) (q : Q) : option Q :=
  SF2Q (SFdiv prec emax (Z2SF (Qnum q)) (S754_finite false (Qden q) 0)).

Definition float_finite (q : Q) : bool :=
  match round_to 24 128 q with Some _ => true | None => false end.
Definition double_finite (q : Q) : bool :=
  match round_to 53 1024 q with Some _ => true | None => false end.

(** A conversion to [float] or to [double], and the rounding that ends an
    operation of the format.  Beyond the largest value of the format the
    program has an infinity, which is no rational: the model is of finite
    values, [q] is then left as it is, and a statement on rounded values
    takes them finite ([float_finite]). *)
Definition to_float (q : Q) : Q := default q (round_to 24 128 q).
Definition to_double (q : Q) : Q := default q (round_to 53 1024 q).

(** A conversion to [int], of 32 bits. *)
Definition to_int (z : Z) : Z := ((z + 2 ^ 31) mod 2 ^ 32 - 2 ^ 31)%Z.

(** Matrices are 4x4, row-major. *)
Abbreviation GfMatrix4d := (list Q) (only parsing).
Abbreviation AtMatrix := (list Q) (only parsing).

Definition mat_at (m : GfMatrix4d) (i j : nat) : Q := nth (4 * i + j) m 0%Q.

Definition mat_mul (a b : GfMatrix4d) : GfMatrix4d :=
  flat_map (fun i =>
    map (fun j =>
      fold_right Qplus 0%Q
        (map (fun k => (mat_at a i k * mat_at b k j)%Q) (seq 0 4)))
      (seq 0 4))
    (seq 0 4).

Inductive AtArrayData :=
| DataNode (elems : list AtNode)
| DataMatrix (keys : list AtMatrix)
| DataString (elems : list string)
| DataByte (elems : list Z).

Record AtArray := {
  nelements : nat;
  nkeys : nat;
  adata : AtArrayData
}.

Definition AiArrayGetNumKeys (a : AtArray) : nat := nkeys a.

(** [AiArrayConvert(n, 1, AI_TYPE_NODE, &v[0])] *)
Definition AiArrayConvert_NODE (v : list AtNode) : AtArray :=
  {| nelements := length v; nkeys := 1; adata := DataNode v |}.

(** [AiArrayConvert(1, 1, AI_TYPE_MATRIX, &m)] *)
Definition AiArrayConvert_MATRIX (m : AtMatrix) : AtArray :=
  {| nelements := 1; nkeys := 1; adata := DataMatrix [m] |}.

(** [AiArrayAllocate(1, numKeys, AI_TYPE_MATRIX)].  The number of keys is a
    [uint8_t nkeys] of [AiArrayAllocate]: the [size_t] the reader passes is
    narrowed to it, modulo 256. *)
Definition AiArrayAllocate_MATRIX (numKeys : nat) : AtArray :=
  let nkeys := numKeys mod 256 in
  {| nelements := 1; nkeys := nkeys;
     adata := DataMatrix (replicate nkeys []) |}.

Definition AiArraySetMtx (a : AtArray) (i : nat) (m : AtMatrix) : AtArray :=
  match adata a with
  | DataMatrix keys =>
      {| nelements := nelements a; nkeys := nkeys a;
         adata := DataMatrix (<[i := m]> keys) |}
  | _ => a
  end.

Definition AiArrayCopy (a : AtArray) : AtArray := a.

Inductive AtParamValue :=
| ParamPtr (p : option AtNode)
| ParamArray (a : AtArray)
| ParamFlt (q : Q)
| ParamStr (s : string)
| ParamByte (z : Z)
| ParamUInt (z : Z)
| ParamBool (b : bool)
| ParamRGB (r g b : Q).

(** What an input attribute is linked to: the whole output of a node, or one
    component of it. *)
Inductive AtLink :=
| LinkNode (target : AtNode)
| LinkOutput (target : AtNode) (output : string).

Record AtNodeData := {
  n_universe : option AtUniverse;
  n_type : string;
  n_name : string;
  n_parent : option AtNode;
  n_params : gmap string AtParamValue;
  n_links : gmap string AtLink
}.

Definition node_with_param (attr : string) (v : AtParamValue) (d : AtNodeData)
  : AtNodeData :=
  {| n_universe := n_universe d; n_type := n_type d; n_name := n_name d;
     n_parent := n_parent d; n_params := <[attr := v]> (n_params d);
     n_links := n_links d |}.

Definition node_with_link (attr : string) (l : option AtLink) (d : AtNodeData)
  : AtNodeData :=
  {| n_universe := n_universe d; n_type := n_type d; n_name := n_name d;
     n_parent := n_parent d; n_params := n_params d;
     n_links := match l with
                | Some l => <[attr := l]> (n_links d)
                | None => delete attr (n_links d)
                end |}.

(** What the reader makes observable besides the node store: the critical
    sections it enters and leaves, and the messages it prints. *)
Inductive Event :=
| EvCritSecEnter (cs : AtCritSec)
| EvCritSecLeave (cs : AtCritSec)
| EvMsgError (msg : string)
| EvMsgWarning (msg : string)
| EvMsgInfo (msg : string).

(** The node store: the live nodes in creation order, the next free handle,
    the next free critical section, and the log. *)
Record Arnold := {
  a_nodes : list (AtNode * AtNodeData);
  a_nextNode : AtNode;
  a_nextCritSec : AtCritSec;
  a_log : list Event
}.

Definition arnold_with_nodes (l : list (AtNode * AtNodeData)) (a : Arnold) : Arnold :=
  {| a_nodes := l; a_nextNode := a_nextNode a;
     a_nextCritSec := a_nextCritSec a; a_log := a_log a |}.

Definition arnold_emit (e : Event) (a : Arnold) : Arnold :=
  {| a_nodes := a_nodes a; a_nextNode := a_nextNode a;
     a_nextCritSec := a_nextCritSec a; a_log := a_log a ++ [e] |}.

Definition node_data (a : Arnold) (n : AtNode) : option AtNodeData :=
  snd <$> find (fun e => Nat.eqb (fst e) n) (a_nodes a).

Definition update_node (f : AtNodeData -> AtNodeData) (n : AtNode) (a : Arnold)
  : Arnold :=
  arnold_with_nodes
    (map (fun e => if Nat.eqb (fst e) n then (fst e, f (snd e)) else e) (a_nodes a))
    a.

(** [AiNode(universe, type, name, parent)] *)
Definition AiNode (u : option AtUniverse) (type name : string)
    (parent : option AtNode) (a : Arnold) : AtNode * Arnold :=
  let n := a_nextNode a in
  (n, {| a_nodes := a_nodes a ++
                    [(n, {| n_universe := u; n_type := type; n_name := name;
                            n_parent := parent; n_params := ∅; n_links := ∅ |})];
         a_nextNode := S n;
         a_nextCritSec := a_nextCritSec a;
         a_log := a_log a |}).

Definition AiNodeDestroy (n : AtNode) (a : Arnold) : Arnold :=
  arnold_with_nodes (filter (fun e => fst e ≠ n) (a_nodes a)) a.

(** [AiNodeLookUpByName(universe, name, parent)]: the first live node of the
    universe that bears the name. *)
Definition AiNodeLookUpByName (u : option AtUniverse) (name : string)
    (parent : option AtNode) (a : Arnold) : option AtNode :=
  fst <$> find (fun e => bool_decide (n_universe (snd e) = u /\ n_name (snd e) = name))
               (a_nodes a).

Definition AiNodeGetParent (n : AtNode) (a : Arnold) : option AtNode :=
  d ← node_data a n; n_parent d.

Definition AiNodeGetName (n : AtNode) (a : Arnold) : string :=
  default "" (n_name <$> node_data a n).

Definition AiNodeSet (n : AtNode) (attr : string) (v : AtParamValue) (a : Arnold)
  : Arnold := update_node (node_with_param attr v) n a.

Definition AiNodeSetArray (n : AtNode) (attr : string) (arr : AtArray) :=
  AiNodeSet n attr (ParamArray arr).
Definition AiNodeSetPtr (n : AtNode) (attr : string) (p : option AtNode) :=
  AiNodeSet n attr (ParamPtr p).
Definition AiNodeSetFlt (n : AtNode) (attr : string) (q : Q) :=
  AiNodeSet n attr (ParamFlt q).
Definition AiNodeSetStr (n : AtNode) (attr : string) (s : string) :=
  AiNodeSet n attr (ParamStr s).
Definition AiNodeSetByte (n : AtNode) (attr : string) (z : Z) :=
  AiNodeSet n attr (ParamByte z).
Definition AiNodeSetUInt (n : AtNode) (attr : string) (z : Z) :=
  AiNodeSet n attr (ParamUInt z).
Definition AiNodeSetBool (n : AtNode) (attr : string) (b : bool) :=
  AiNodeSet n attr (ParamBool b).

(** [AiNodeLink(src, input, target)]: the whole output of [src] feeds
    [target.input]. *)
Definition AiNodeLink (src : AtNode) (input : string) (target : AtNode) (a : Arnold)
  : Arnold := update_node (node_with_link input (Some (LinkNode src))) target a.

(** [AiNodeLinkOutput(src, src_output, target, input)]: one component of the
    output of [src] feeds [target.input]. *)
Definition AiNodeLinkOutput (src : AtNode) (src_output : string)
    (target : AtNode) (input : string) (a : Arnold) : Arnold :=
  update_node (node_with_link input (Some (LinkOutput src src_output))) target a.

Definition AiNodeUnlink (target : AtNode) (input : string) (a : Arnold) : Arnold :=
  update_node (node_with_link input None) target a.

Definition AiCritSecInit (a : Arnold) : AtCritSec * Arnold :=
  (a_nextCritSec a,
   {| a_nodes := a_nodes a; a_nextNode := a_nextNode a;
      a_nextCritSec := S (a_nextCritSec a); a_log := a_log a |}).

Definition AiCritSecEnter (cs : AtCritSec) := arnold_emit (EvCritSecEnter cs).
Definition AiCritSecLeave (cs : AtCritSec) := arnold_emit (EvCritSecLeave cs).
Definition AiMsgError (msg : string) := arnold_emit (EvMsgError msg).
Definition AiMsgWarning (msg : string) := arnold_emit (EvMsgWarning msg).
Definition AiMsgInfo (msg : string) := arnold_emit (EvMsgInfo msg).

Definition param_of (a : Arnold) (n : AtNode) (attr : string) : option AtParamValue :=
  d ← node_data a n; n_params d !! attr.

Definition link_of (a : Arnold) (n : AtNode) (attr : string) : option AtLink :=
  d ← node_data a n; n_links d !! attr.

(** ** USD: prims and stages *)

Abbreviation TfToken := string (only parsing).
(** A primvar: its name and its value. *)
Abbreviation UsdGeomPrimvar := (string * string)%type (only parsing).

Inductive VtValue :=
| VtString (s : string)
| VtFloat (q : Q).

(** A prim with the answers to the queries the reader makes on it.  The
    visibility and purpose fields hold the value [attr.Get] yields at the read
    frame when the attribute exists and is authored, [None] otherwise. *)
Record UsdPrim := {
  p_path : string;
  p_typeName : string;
  p_active : bool;
  p_instanceable : bool;
  p_prototype : option string;          (* path of GetPrototype() *)
  p_isPrototype : bool;
  p_isImageable : bool;                 (* IsA<UsdGeomImageable>() *)
  p_isXformable : bool;                 (* IsA<UsdGeomXformable>() *)
  p_isCamera : bool;                    (* UsdGeomCamera(prim) is valid *)
  p_visibility : option TfToken;
  p_purpose : option TfToken;
  p_computedVisibility : TfToken;       (* ComputeVisibility(frame) *)
  p_primvars : list UsdGeomPrimvar;     (* inheritable primvars authored here *)
  p_timeVarying : bool;                 (* TransformMightBeTimeVarying() *)
  p_timeSamples : list Q;               (* authored transform time samples *)
  p_localToWorld : Q -> GfMatrix4d;     (* GetLocalToWorldTransform at a time *)
  p_localTransformation : Q -> option GfMatrix4d;
  p_attributes : list (string * VtValue)
}.

Inductive PrimTree := PrimNode (prim : UsdPrim) (children : list PrimTree).

Definition tree_prim (t : PrimTree) : UsdPrim := let 'PrimNode p _ := t in p.
Definition tree_children (t : PrimTree) : list PrimTree := let 'PrimNode _ c := t in c.

(** Induction on a tree, with the property at hand for every child. *)
Fixpoint PrimTree_nested_ind (P : PrimTree -> Prop)
    (step : forall p children, Forall P children -> P (PrimNode p children))
    (t : PrimTree) : P t :=
  match t return P t with
  | PrimNode p children =>
      step p children
        ((fix all (l : list PrimTree) : Forall P l :=
            match l return Forall P l with
            | [] => @List.Forall_nil _ P
            | c :: l' =>
                @List.Forall_cons _ P c l' (PrimTree_nested_ind P step c) (all l')
            end) children)
  end.

Record UsdStage := {
  s_pseudoRoot : PrimTree;
  s_prototypes : list PrimTree
}.

(** The path from a tree's root down to the prim at [path]: the prim's
    subtree first, then its ancestors, nearest first. *)
Fixpoint tree_find (path : string) (t : PrimTree) : option (list PrimTree) :=
  let 'PrimNode p children := t in
  if String.eqb (p_path p) path then Some [t]
  else
    (fix find_in (l : list PrimTree) : option (list PrimTree) :=
       match l with
       | [] => None
       | c :: l' =>
           match tree_find path c with
           | Some chain => Some (chain ++ [t])
           | None => find_in l'
           end
       end) children.

Fixpoint trees_find (path : string) (l : list PrimTree) : option (list PrimTree) :=
  match l with
  | [] => None
  | t :: l' =>
      match tree_find path t with
      | Some chain => Some chain
      | None => trees_find path l'
      end
  end.

Definition stage_find (stage : UsdStage) (path : string) : option (list PrimTree) :=
  trees_find path (s_pseudoRoot stage :: s_prototypes stage).

(** [stage->GetPrimAtPath(SdfPath(path))]; an invalid prim is [None]. *)
Definition GetPrimAtPath (stage : UsdStage) (path : string) : option PrimTree :=
  chain ← stage_find stage path; head chain.

(** The chain of [prim.GetParent()], nearest first. *)
Definition prim_ancestors (stage : UsdStage) (p : UsdPrim) : list UsdPrim :=
  match stage_find stage (p_path p) with
  | Some (_ :: ancestors) => map tree_prim ancestors
  | _ => []
  end.

Definition GetAttribute (p : UsdPrim) (name : string) : option VtValue :=
  snd <$> find (fun e => String.eqb (fst e) name) (p_attributes p).

Definition HasAttribute (p : UsdPrim) (name : string) : bool :=
  bool_decide (is_Some (GetAttribute p name)).

Definition VtValueGetFloat (v : VtValue) : Q :=
  match v with VtFloat q => q | VtString _ => 0%Q end.

(** Primvars are keyed by name; a primvar authored lower in the hierarchy
    replaces the inherited one of the same name. *)
Definition primvars_merge (inherited authored : list UsdGeomPrimvar)
  : list UsdGeomPrimvar :=
  filter (fun pv => fst pv ∉ map fst authored) inherited ++ authored.

(** [UsdGeomPrimvarsAPI(prim).FindIncrementallyInheritablePrimvars(inherited)]:
    empty when the prim authors nothing, which stands for "same as the
    parent". *)
Definition FindIncrementallyInheritablePrimvars (p : UsdPrim)
    (inherited : list UsdGeomPrimvar) : list UsdGeomPrimvar :=
  match p_primvars p with
  | [] => []
  | authored => primvars_merge inherited authored
  end.

(** [UsdGeomPrimvarsAPI(prim).FindPrimvarsWithInheritance()] *)
Definition FindPrimvarsWithInheritance (stage : UsdStage) (p : UsdPrim)
  : list UsdGeomPrimvar :=
  fold_right (fun q acc => primvars_merge acc (p_primvars q)) []
             (p :: prim_ancestors stage p).

(** *** The pre- and post-order prim range *)

(** One stop of a [UsdPrimRange::PreAndPostVisit] iterator. *)
Record Visit := { v_prim : UsdPrim; v_isPostVisit : bool }.

(** The stops of the range rooted at a tree: the root, then the active
    children with their own subtrees, then the root again. *)
Fixpoint PreAndPostVisit (t : PrimTree) : list Visit :=
  let 'PrimNode p children := t in
  {| v_prim := p; v_isPostVisit := false |} ::
  flat_map (fun c => if p_active (tree_prim c) then PreAndPostVisit c else []) children
  ++ [{| v_prim := p; v_isPostVisit := true |}].

(** An iterator is what is left of the range, the current stop first; the
    end of the range is the empty list. *)
Abbreviation iterator := (list Visit) (only parsing).

(** Moving an iterator whose children were pruned: from a pre-visit stop to
    the post-visit stop of the same prim. [d] counts the prims entered since. *)
Fixpoint skip_children (d : nat) (rest : list Visit) : iterator :=
  match rest with
  | [] => []
  | v :: rest' =>
      if v_isPostVisit v then
        match d with
        | O => rest
        | S d' => skip_children d' rest'
        end
      else skip_children (S d) rest'
  end.

(** [++iter], with the flag [iter.PruneChildren()] sets. *)
Definition iter_increment (pruneChildren : bool) (it : iterator) : iterator :=
  match it with
  | [] => []
  | v :: rest =>
      if pruneChildren && negb (v_isPostVisit v) then skip_children 0 rest
      else rest
  end.

(** ** The reader's data *)

(** TimeSettings (translator/reader/utils.h): the fields the code reads. *)
Record TimeSettings := {
  frame : Q;
  motionBlur : bool;
  motionStart : Q;
  motionEnd : Q
}.

Inductive ReadStep :=
| READ_NOT_STARTED
| READ_TRAVERSE
| READ_PROCESS_CONNECTIONS
| READ_DANGLING_CONNECTIONS
| READ_FINISHED.

(** The value of the enumerator. *)
Definition ReadStep_value (s : ReadStep) : Z :=
  match s with
  | READ_NOT_STARTED => 0
  | READ_TRAVERSE => 1
  | READ_PROCESS_CONNECTIONS => 2
  | READ_DANGLING_CONNECTIONS => 3
  | READ_FINISHED => 4
  end.

Inductive ConnectionType :=
| CONNECTION_LINK
| CONNECTION_PTR
| CONNECTION_ARRAY.

#[global] Instance ReadStep_eq_dec : EqDecision ReadStep.
Proof. solve_decision. Defined.
#[global] Instance ConnectionType_eq_dec : EqDecision ConnectionType.
Proof. solve_decision. Defined.

Record Connection := {
  sourceNode : AtNode;
  sourceAttr : string;
  target : string;
  type : ConnectionType;
  outputElement : string
}.

Inductive WorkDispatcher := NewWorkDispatcher.
Abbreviation UsdArnoldReaderRegistry := nat (only parsing).

(** class UsdArnoldReader *)
Record UsdArnoldReader := {
  _procParent : option AtNode;
  _universe : option AtUniverse;
  _registry : option UsdArnoldReaderRegistry;
  _time : TimeSettings;
  _convert : bool;
  _debug : bool;
  _threadCount : nat;
  _mask : Z;
  _stage : option UsdStage;
  _nodes : list AtNode;
  _nodeNames : gmap string AtNode;
  _defaultShader : option AtNode;
  _filename : string;
  _overrides : option (list string);
  _cacheId : Z;
  _readerLock : option AtCritSec;
  _readStep : ReadStep;
  _purpose : TfToken;
  _dispatcher : option WorkDispatcher;
  _id : Z
}.

Definition set_procParent (v : option AtNode) (r : UsdArnoldReader) : UsdArnoldReader :=
  {| _procParent := v; _universe := _universe r; _registry := _registry r;
     _time := _time r; _convert := _convert r; _debug := _debug r;
     _threadCount := _threadCount r; _mask := _mask r; _stage := _stage r;
     _nodes := _nodes r; _nodeNames := _nodeNames r;
     _defaultShader := _defaultShader r; _filename := _filename r;
     _overrides := _overrides r; _cacheId := _cacheId r; _readerLock := _readerLock r;
     _readStep := _readStep r; _purpose := _purpose r; _dispatcher := _dispatcher r;
     _id := _id r |}.

Definition set_universe (v : option AtUniverse) (r : UsdArnoldReader) : UsdArnoldReader :=
  {| _procParent := _procParent r; _universe := v; _registry := _registry r;
     _time := _time r; _convert := _convert r; _debug := _debug r;
     _threadCount := _threadCount r; _mask := _mask r; _stage := _stage r;
     _nodes := _nodes r; _nodeNames := _nodeNames r;
     _defaultShader := _defaultShader r; _filename := _filename r;
     _overrides := _overrides r; _cacheId := _cacheId r; _readerLock := _readerLock r;
     _readStep := _readStep r; _purpose := _purpose r; _dispatcher := _dispatcher r;
     _id := _id r |}.

Definition set_registry (v : option UsdArnoldReaderRegistry) (r : UsdArnoldReader) : UsdArnoldReader :=
  {| _procParent := _procParent r; _universe := _universe r; _registry := v;
     _time := _time r; _convert := _convert r; _debug := _debug r;
     _threadCount := _threadCount r; _mask := _mask r; _stage := _stage r;
     _nodes := _nodes r; _nodeNames := _nodeNames r;
     _defaultShader := _defaultShader r; _filename := _filename r;
     _overrides := _overrides r; _cacheId := _cacheId r; _readerLock := _readerLock r;
     _readStep := _readStep r; _purpose := _purpose r; _dispatcher := _dispatcher r;
     _id := _id r |}.

Definition set_time (v : TimeSettings) (r : UsdArnoldReader) : UsdArnoldReader :=
  {| _procParent := _procParent r; _universe := _universe r; _registry := _registry r;
     _time := v; _convert := _convert r; _debug := _debug r;
     _threadCount := _threadCount r; _mask := _mask r; _stage := _stage r;
     _nodes := _nodes r; _nodeNames := _nodeNames r;
     _defaultShader := _defaultShader r; _filename := _filename r;
     _overrides := _overrides r; _cacheId := _cacheId r; _readerLock := _readerLock r;
     _readStep := _readStep r; _purpose := _purpose r; _dispatcher := _dispatcher r;
     _id := _id r |}.

Definition set_convert (v : bool) (r : UsdArnoldReader) : UsdArnoldReader :=
  {| _procParent := _procParent r; _universe := _universe r; _registry := _registry r;
     _time := _time r; _convert := v; _debug := _debug r;
     _threadCount := _threadCount r; _mask := _mask r; _stage := _stage r;
     _nodes := _nodes r; _nodeNames := _nodeNames r;
     _defaultShader := _defaultShader r; _filename := _filename r;
     _overrides := _overrides r; _cacheId := _cacheId r; _readerLock := _readerLock r;
     _readStep := _readStep r; _purpose := _purpose r; _dispatcher := _dispatcher r;
     _id := _id r |}.

Definition set_debug (v : bool) (r : UsdArnoldReader) : UsdArnoldReader :=
  {| _procParent := _procParent r; _universe := _universe r; _registry := _registry r;
     _time := _time r; _convert := _convert r; _debug := v;
     _threadCount := _threadCount r; _mask := _mask r; _stage := _stage r;
     _nodes := _nodes r; _nodeNames := _nodeNames r;
     _defaultShader := _defaultShader r; _filename := _filename r;
     _overrides := _overrides r; _cacheId := _cacheId r; _readerLock := _readerLock r;
     _readStep := _readStep r; _purpose := _purpose r; _dispatcher := _dispatcher r;
     _id := _id r |}.

Definition set_threadCount (v : nat) (r : UsdArnoldReader) : UsdArnoldReader :=
  {| _procParent := _procParent r; _universe := _universe r; _registry := _registry r;
     _time := _time r; _convert := _convert r; _debug := _debug r; _threadCount := v;
     _mask := _mask r; _stage := _stage r; _nodes := _nodes r;
     _nodeNames := _nodeNames r; _defaultShader := _defaultShader r;
     _filename := _filename r; _overrides := _overrides r; _cacheId := _cacheId r;
     _readerLock := _readerLock r; _readStep := _readStep r; _purpose := _purpose r;
     _dispatcher := _dispatcher r; _id := _id r |}.

Definition set_mask (v : Z) (r : UsdArnoldReader) : UsdArnoldReader :=
  {| _procParent := _procParent r; _universe := _universe r; _registry := _registry r;
     _time := _time r; _convert := _convert r; _debug := _debug r;
     _threadCount := _threadCount r; _mask := v; _stage := _stage r;
     _nodes := _nodes r; _nodeNames := _nodeNames r;
     _defaultShader := _defaultShader r; _filename := _filename r;
     _overrides := _overrides r; _cacheId := _cacheId r; _readerLock := _readerLock r;
     _readStep := _readStep r; _purpose := _purpose r; _dispatcher := _dispatcher r;
     _id := _id r |}.

Definition set_stage (v : option UsdStage) (r : UsdArnoldReader) : UsdArnoldReader :=
  {| _procParent := _procParent r; _universe := _universe r; _registry := _registry r;
     _time := _time r; _convert := _convert r; _debug := _debug r;
     _threadCount := _threadCount r; _mask := _mask r; _stage := v; _nodes := _nodes r;
     _nodeNames := _nodeNames r; _defaultShader := _defaultShader r;
     _filename := _filename r; _overrides := _overrides r; _cacheId := _cacheId r;
     _readerLock := _readerLock r; _readStep := _readStep r; _purpose := _purpose r;
     _dispatcher := _dispatcher r; _id := _id r |}.

Definition set_nodes (v : list AtNode) (r : UsdArnoldReader) : UsdArnoldReader :=
  {| _procParent := _procParent r; _universe := _universe r; _registry := _registry r;
     _time := _time r; _convert := _convert r; _debug := _debug r;
     _threadCount := _threadCount r; _mask := _mask r; _stage := _stage r; _nodes := v;
     _nodeNames := _nodeNames r; _defaultShader := _defaultShader r;
     _filename := _filename r; _overrides := _overrides r; _cacheId := _cacheId r;
     _readerLock := _readerLock r; _readStep := _readStep r; _purpose := _purpose r;
     _dispatcher := _dispatcher r; _id := _id r |}.

Definition set_nodeNames (v : gmap string AtNode) (r : UsdArnoldReader) : UsdArnoldReader :=
  {| _procParent := _procParent r; _universe := _universe r; _registry := _registry r;
     _time := _time r; _convert := _convert r; _debug := _debug r;
     _threadCount := _threadCount r; _mask := _mask r; _stage := _stage r;
     _nodes := _nodes r; _nodeNames := v; _defaultShader := _defaultShader r;
     _filename := _filename r; _overrides := _overrides r; _cacheId := _cacheId r;
     _readerLock := _readerLock r; _readStep := _readStep r; _purpose := _purpose r;
     _dispatcher := _dispatcher r; _id := _id r |}.

Definition set_defaultShader (v : option AtNode) (r : UsdArnoldReader) : UsdArnoldReader :=
  {| _procParent := _procParent r; _universe := _universe r; _registry := _registry r;
     _time := _time r; _convert := _convert r; _debug := _debug r;
     _threadCount := _threadCount r; _mask := _mask r; _stage := _stage r;
     _nodes := _nodes r; _nodeNames := _nodeNames r; _defaultShader := v;
     _filename := _filename r; _overrides := _overrides r; _cacheId := _cacheId r;
     _readerLock := _readerLock r; _readStep := _readStep r; _purpose := _purpose r;
     _dispatcher := _dispatcher r; _id := _id r |}.

Definition set_filename (v : string) (r : UsdArnoldReader) : UsdArnoldReader :=
  {| _procParent := _procParent r; _universe := _universe r; _registry := _registry r;
     _time := _time r; _convert := _convert r; _debug := _debug r;
     _threadCount := _threadCount r; _mask := _mask r; _stage := _stage r;
     _nodes := _nodes r; _nodeNames := _nodeNames r;
     _defaultShader := _defaultShader r; _filename := v; _overrides := _overrides r;
     _cacheId := _cacheId r; _readerLock := _readerLock r; _readStep := _readStep r;
     _purpose := _purpose r; _dispatcher := _dispatcher r; _id := _id r |}.

Definition set_overrides (v : option (list string)) (r : UsdArnoldReader) : UsdArnoldReader :=
  {| _procParent := _procParent r; _universe := _universe r; _registry := _registry r;
     _time := _time r; _convert := _convert r; _debug := _debug r;
     _threadCount := _threadCount r; _mask := _mask r; _stage := _stage r;
     _nodes := _nodes r; _nodeNames := _nodeNames r;
     _defaultShader := _defaultShader r; _filename := _filename r; _overrides := v;
     _cacheId := _cacheId r; _readerLock := _readerLock r; _readStep := _readStep r;
     _purpose := _purpose r; _dispatcher := _dispatcher r; _id := _id r |}.

Definition set_cacheId (v : Z) (r : UsdArnoldReader) : UsdArnoldReader :=
  {| _procParent := _procParent r; _universe := _universe r; _registry := _registry r;
     _time := _time r; _convert := _convert r; _debug := _debug r;
     _threadCount := _threadCount r; _mask := _mask r; _stage := _stage r;
     _nodes := _nodes r; _nodeNames := _nodeNames r;
     _defaultShader := _defaultShader r; _filename := _filename r;
     _overrides := _overrides r; _cacheId := v; _readerLock := _readerLock r;
     _readStep := _readStep r; _purpose := _purpose r; _dispatcher := _dispatcher r;
     _id := _id r |}.

Definition set_readerLock (v : option AtCritSec) (r : UsdArnoldReader) : UsdArnoldReader :=
  {| _procParent := _procParent r; _universe := _universe r; _registry := _registry r;
     _time := _time r; _convert := _convert r; _debug := _debug r;
     _threadCount := _threadCount r; _mask := _mask r; _stage := _stage r;
     _nodes := _nodes r; _nodeNames := _nodeNames r;
     _defaultShader := _defaultShader r; _filename := _filename r;
     _overrides := _overrides r; _cacheId := _cacheId r; _readerLock := v;
     _readStep := _readStep r; _purpose := _purpose r; _dispatcher := _dispatcher r;
     _id := _id r |}.

Definition set_readStep (v : ReadStep) (r : UsdArnoldReader) : UsdArnoldReader :=
  {| _procParent := _procParent r; _universe := _universe r; _registry := _registry r;
     _time := _time r; _convert := _convert r; _debug := _debug r;
     _threadCount := _threadCount r; _mask := _mask r; _stage := _stage r;
     _nodes := _nodes r; _nodeNames := _nodeNames r;
     _defaultShader := _defaultShader r; _filename := _filename r;
     _overrides := _overrides r; _cacheId := _cacheId r; _readerLock := _readerLock r;
     _readStep := v; _purpose := _purpose r; _dispatcher := _dispatcher r;
     _id := _id r |}.

Definition set_dispatcher (v : option WorkDispatcher) (r : UsdArnoldReader) : UsdArnoldReader :=
  {| _procParent := _procParent r; _universe := _universe r; _registry := _registry r;
     _time := _time r; _convert := _convert r; _debug := _debug r;
     _threadCount := _threadCount r; _mask := _mask r; _stage := _stage r;
     _nodes := _nodes r; _nodeNames := _nodeNames r;
     _defaultShader := _defaultShader r; _filename := _filename r;
     _overrides := _overrides r; _cacheId := _cacheId r; _readerLock := _readerLock r;
     _readStep := _readStep r; _purpose := _purpose r; _dispatcher := v;
     _id := _id r |}.


(** class UsdArnoldReaderThreadContext.  The fields bear the names of the
    class with [tc] for the leading underscore; [_reader] is the reader of the
    state the context is run in.  A UsdGeomXformCache is known by its time. *)
Record UsdArnoldReaderThreadContext := {
  tc_connections : list Connection;
  tc_nodes : list AtNode;
  tc_nodeNames : gmap string AtNode;
  tc_xformCache : option Q;
  tc_xformCacheMap : list Q;
  tc_primvarsStack : list (list UsdGeomPrimvar);
  tc_dispatcher : option WorkDispatcher;
  tc_createNodeLock : option AtCritSec;
  tc_addConnectionLock : option AtCritSec;
  tc_addNodeNameLock : option AtCritSec
}.

Definition set_tc_connections (v : list Connection) (r : UsdArnoldReaderThreadContext) : UsdArnoldReaderThreadContext :=
  {| tc_connections := v; tc_nodes := tc_nodes r; tc_nodeNames := tc_nodeNames r;
     tc_xformCache := tc_xformCache r; tc_xformCacheMap := tc_xformCacheMap r;
     tc_primvarsStack := tc_primvarsStack r; tc_dispatcher := tc_dispatcher r;
     tc_createNodeLock := tc_createNodeLock r;
     tc_addConnectionLock := tc_addConnectionLock r;
     tc_addNodeNameLock := tc_addNodeNameLock r |}.

Definition set_tc_nodes (v : list AtNode) (r : UsdArnoldReaderThreadContext) : UsdArnoldReaderThreadContext :=
  {| tc_connections := tc_connections r; tc_nodes := v; tc_nodeNames := tc_nodeNames r;
     tc_xformCache := tc_xformCache r; tc_xformCacheMap := tc_xformCacheMap r;
     tc_primvarsStack := tc_primvarsStack r; tc_dispatcher := tc_dispatcher r;
     tc_createNodeLock := tc_createNodeLock r;
     tc_addConnectionLock := tc_addConnectionLock r;
     tc_addNodeNameLock := tc_addNodeNameLock r |}.

Definition set_tc_nodeNames (v : gmap string AtNode) (r : UsdArnoldReaderThreadContext) : UsdArnoldReaderThreadContext :=
  {| tc_connections := tc_connections r; tc_nodes := tc_nodes r; tc_nodeNames := v;
     tc_xformCache := tc_xformCache r; tc_xformCacheMap := tc_xformCacheMap r;
     tc_primvarsStack := tc_primvarsStack r; tc_dispatcher := tc_dispatcher r;
     tc_createNodeLock := tc_createNodeLock r;
     tc_addConnectionLock := tc_addConnectionLock r;
     tc_addNodeNameLock := tc_addNodeNameLock r |}.

Definition set_tc_xformCache (v : option Q) (r : UsdArnoldReaderThreadContext) : UsdArnoldReaderThreadContext :=
  {| tc_connections := tc_connections r; tc_nodes := tc_nodes r;
     tc_nodeNames := tc_nodeNames r; tc_xformCache := v;
     tc_xformCacheMap := tc_xformCacheMap r; tc_primvarsStack := tc_primvarsStack r;
     tc_dispatcher := tc_dispatcher r; tc_createNodeLock := tc_createNodeLock r;
     tc_addConnectionLock := tc_addConnectionLock r;
     tc_addNodeNameLock := tc_addNodeNameLock r |}.

Definition set_tc_xformCacheMap (v : list Q) (r : UsdArnoldReaderThreadContext) : UsdArnoldReaderThreadContext :=
  {| tc_connections := tc_connections r; tc_nodes := tc_nodes r;
     tc_nodeNames := tc_nodeNames r; tc_xformCache := tc_xformCache r;
     tc_xformCacheMap := v; tc_primvarsStack := tc_primvarsStack r;
     tc_dispatcher := tc_dispatcher r; tc_createNodeLock := tc_createNodeLock r;
     tc_addConnectionLock := tc_addConnectionLock r;
     tc_addNodeNameLock := tc_addNodeNameLock r |}.

Definition set_tc_primvarsStack (v : list (list UsdGeomPrimvar)) (r : UsdArnoldReaderThreadContext) : UsdArnoldReaderThreadContext :=
  {| tc_connections := tc_connections r; tc_nodes := tc_nodes r;
     tc_nodeNames := tc_nodeNames r; tc_xformCache := tc_xformCache r;
     tc_xformCacheMap := tc_xformCacheMap r; tc_primvarsStack := v;
     tc_dispatcher := tc_dispatcher r; tc_createNodeLock := tc_createNodeLock r;
     tc_addConnectionLock := tc_addConnectionLock r;
     tc_addNodeNameLock := tc_addNodeNameLock r |}.

Definition set_tc_dispatcher (v : option WorkDispatcher) (r : UsdArnoldReaderThreadContext) : UsdArnoldReaderThreadContext :=
  {| tc_connections := tc_connections r; tc_nodes := tc_nodes r;
     tc_nodeNames := tc_nodeNames r; tc_xformCache := tc_xformCache r;
     tc_xformCacheMap := tc_xformCacheMap r; tc_primvarsStack := tc_primvarsStack r;
     tc_dispatcher := v; tc_createNodeLock := tc_createNodeLock r;
     tc_addConnectionLock := tc_addConnectionLock r;
     tc_addNodeNameLock := tc_addNodeNameLock r |}.

Definition set_tc_createNodeLock (v : option AtCritSec) (r : UsdArnoldReaderThreadContext) : UsdArnoldReaderThreadContext :=
  {| tc_connections := tc_connections r; tc_nodes := tc_nodes r;
     tc_nodeNames := tc_nodeNames r; tc_xformCache := tc_xformCache r;
     tc_xformCacheMap := tc_xformCacheMap r; tc_primvarsStack := tc_primvarsStack r;
     tc_dispatcher := tc_dispatcher r; tc_createNodeLock := v;
     tc_addConnectionLock := tc_addConnectionLock r;
     tc_addNodeNameLock := tc_addNodeNameLock r |}.

Definition set_tc_addConnectionLock (v : option AtCritSec) (r : UsdArnoldReaderThreadContext) : UsdArnoldReaderThreadContext :=
  {| tc_connections := tc_connections r; tc_nodes := tc_nodes r;
     tc_nodeNames := tc_nodeNames r; tc_xformCache := tc_xformCache r;
     tc_xformCacheMap := tc_xformCacheMap r; tc_primvarsStack := tc_primvarsStack r;
     tc_dispatcher := tc_dispatcher r; tc_createNodeLock := tc_createNodeLock r;
     tc_addConnectionLock := v; tc_addNodeNameLock := tc_addNodeNameLock r |}.

Definition set_tc_addNodeNameLock (v : option AtCritSec) (r : UsdArnoldReaderThreadContext) : UsdArnoldReaderThreadContext :=
  {| tc_connections := tc_connections r; tc_nodes := tc_nodes r;
     tc_nodeNames := tc_nodeNames r; tc_xformCache := tc_xformCache r;
     tc_xformCacheMap := tc_xformCacheMap r; tc_primvarsStack := tc_primvarsStack r;
     tc_dispatcher := tc_dispatcher r; tc_createNodeLock := tc_createNodeLock r;
     tc_addConnectionLock := tc_addConnectionLock r; tc_addNodeNameLock := v |}.

(** class UsdArnoldReaderContext: the thread context is the one of the state
    the context is used in. *)
Record UsdArnoldReaderContext := {
  c_matrix : option AtArray;
  c_primvars : list UsdGeomPrimvar
}.

Definition NewReaderContext : UsdArnoldReaderContext :=
  {| c_matrix := None; c_primvars := [] |}.

(** The statics of reader.cpp. *)
Record Globals := {
  s_readerRegistry : option UsdArnoldReaderRegistry;
  s_anonymousOverrideCounter : Z;
  s_globalReaderMutex : AtCritSec
}.

(** What a call on the reader runs in: Arnold, the statics, the reader
    object, and the history of the values assigned to [_readStep]. *)
Record World := {
  arnold : Arnold;
  globals : Globals;
  reader : UsdArnoldReader;
  readStepWrites : list ReadStep
}.

(** What a call on a thread context runs in. *)
Record TState := {
  world : World;
  tctx : UsdArnoldReaderThreadContext
}.

Definition on_arnold (f : Arnold -> Arnold) (w : World) : World :=
  {| arnold := f (arnold w); globals := globals w; reader := reader w;
     readStepWrites := readStepWrites w |}.

Definition on_reader (f : UsdArnoldReader -> UsdArnoldReader) (w : World) : World :=
  {| arnold := arnold w; globals := globals w; reader := f (reader w);
     readStepWrites := readStepWrites w |}.

Definition on_globals (f : Globals -> Globals) (w : World) : World :=
  {| arnold := arnold w; globals := f (globals w); reader := reader w;
     readStepWrites := readStepWrites w |}.

(** [_readStep = s;] *)
Definition assign_readStep (s : ReadStep) (w : World) : World :=
  {| arnold := arnold w; globals := globals w;
     reader := set_readStep s (reader w);
     readStepWrites := readStepWrites w ++ [s] |}.

Definition on_world (f : World -> World) (st : TState) : TState :=
  {| world := f (world st); tctx := tctx st |}.

Definition on_tctx (f : UsdArnoldReaderThreadContext -> UsdArnoldReaderThreadContext)
    (st : TState) : TState :=
  {| world := world st; tctx := f (tctx st) |}.

Definition t_arnold (f : Arnold -> Arnold) : TState -> TState :=
  on_world (on_arnold f).

Definition t_reader (st : TState) : UsdArnoldReader := reader (world st).

(** class UsdArnoldPrimReader *)
Record UsdArnoldPrimReader := {
  GetType : Z;
  Read : UsdPrim -> UsdArnoldReaderContext -> TState -> TState
}.

(** What the reader takes from its surroundings. *)
Class Env := {
  (* TimeSettings::start() and TimeSettings::end() *)
  TimeSettings_start : TimeSettings -> Q;
  TimeSettings_end : TimeSettings -> Q;
  (* TimeSettings() *)
  TimeSettings_new : TimeSettings;
  (* ai_node_entry.h *)
  AI_NODE_ALL : Z;
  AI_NODE_CAMERA : Z;
  AI_NODE_LIGHT : Z;
  AI_NODE_SHAPE : Z;
  AI_NODE_SHADER : Z;
  AI_NODE_OPERATOR : Z;
  (* AiNodeEntryGetType(AiNodeGetNodeEntry(node)), from the node's type *)
  AiNodeEntryGetType : string -> Z;
  (* ai_ray.h *)
  AI_RAY_ALL : Z;
  (* registry->GetPrimReader(objType), once the readers are registered *)
  GetPrimReader : UsdArnoldReaderRegistry -> string -> option UsdArnoldPrimReader;
  (* the registry [new UsdArnoldReaderRegistry()] yields *)
  NewReaderRegistry : UsdArnoldReaderRegistry;
  (* SdfLayer::FindOrOpen: the layer's identifier *)
  SdfLayer_FindOrOpen : string -> option string;
  (* layer->ImportFromString *)
  SdfLayer_ImportFromString : string -> bool;
  (* UsdStage::Open on a root layer and on the sublayers of an override layer *)
  UsdStage_Open : option string -> option (list string) -> option UsdStage;
  (* id.IsValid() ? stageCache.Find(id) : nullptr *)
  UsdStageCache_Find : Z -> option UsdStage
}.

Definition UsdGeomTokens_invisible : TfToken := "invisible".
Definition UsdGeomTokens_default_ : TfToken := "default".
Definition UsdGeomTokens_render : TfToken := "render".

(** The reader the constructor builds. *)
Definition NewUsdArnoldReader `{Env} : UsdArnoldReader :=
  {| _procParent := None; _universe := None; _registry := None;
     _time := TimeSettings_new;
     _convert := true; _debug := false; _threadCount := 1; _mask := AI_NODE_ALL;
     _stage := None; _nodes := []; _nodeNames := ∅; _defaultShader := None;
     _filename := ""; _overrides := None; _cacheId := 0; _readerLock := None;
     _readStep := READ_NOT_STARTED; _purpose := UsdGeomTokens_render;
     _dispatcher := None; _id := 0 |}.

Definition NewThreadContext : UsdArnoldReaderThreadContext :=
  {| tc_connections := []; tc_nodes := []; tc_nodeNames := ∅;
     tc_xformCache := None; tc_xformCacheMap := []; tc_primvarsStack := [];
     tc_dispatcher := None; tc_createNodeLock := None;
     tc_addConnectionLock := None; tc_addNodeNameLock := None |}.

(** [std::vector::back], [pop_back], and assignment to [back()]. *)
Definition vec_back {A} (v : list A) (dflt : A) : A := List.last v dflt.
Definition vec_pop_back {A} (v : list A) : list A := removelast v.
Definition vec_set_back {A} (x : A) (v : list A) : list A :=
  match v with
  | [] => []
  | _ => removelast v ++ [x]
  end.

(** ** The reader's operations *)

Section Reader.
Context `{Env}.

(** [UsdArnoldReader::LookupNode] *)
Definition LookupNode (name : string) (checkParent : bool) (w : World)
  : option AtNode :=
  let r := reader w in
  match _nodeNames r !! name with
  | Some node => Some node
  | None =>
      match AiNodeLookUpByName (_universe r) name (_procParent r) (arnold w) with
      | Some node =>
          if checkParent then
            match AiNodeGetParent node (arnold w) with
            | Some parent =>
                if bool_decide (Some parent ≠ _procParent r) then None
                else Some node
            | None => Some node
            end
          else Some node
      | None => None
      end
  end.

(** [UsdArnoldReader::LockReader] and [UnlockReader] *)
Definition LockReader (w : World) : World :=
  match _readerLock (reader w) with
  | Some l => if bool_decide (_threadCount (reader w) ≠ 1)
              then on_arnold (AiCritSecEnter l) w else w
  | None => w
  end.

Definition UnlockReader (w : World) : World :=
  match _readerLock (reader w) with
  | Some l => if bool_decide (_threadCount (reader w) ≠ 1)
              then on_arnold (AiCritSecLeave l) w else w
  | None => w
  end.

Definition with_lock (l : option AtCritSec) (body : TState -> TState)
    (st : TState) : TState :=
  match l with
  | Some cs => t_arnold (AiCritSecLeave cs) (body (t_arnold (AiCritSecEnter cs) st))
  | None => body st
  end.

(** [UsdArnoldReaderThreadContext::SetReader], for a reader that is not null *)
Definition SetReader (st : TState) : TState :=
  match tc_xformCache (tctx st) with
  | None => on_tctx (set_tc_xformCache (Some (frame (_time (t_reader st))))) st
  | Some _ => st
  end.

(** [UsdArnoldReaderThreadContext::AddNodeName] *)
Definition AddNodeName (name : string) (node : AtNode) (st : TState) : TState :=
  with_lock (tc_addNodeNameLock (tctx st))
    (on_tctx (fun t => set_tc_nodeNames (<[name := node]> (tc_nodeNames t)) t))
    st.

Definition init_lock (get : UsdArnoldReaderThreadContext -> option AtCritSec)
    (set : option AtCritSec -> UsdArnoldReaderThreadContext -> UsdArnoldReaderThreadContext)
    (st : TState) : TState :=
  match get (tctx st) with
  | Some _ => st
  | None =>
      let '(cs, a) := AiCritSecInit (arnold (world st)) in
      on_tctx (set (Some cs)) (t_arnold (fun _ => a) st)
  end.

(** [UsdArnoldReaderThreadContext::SetDispatcher] *)
Definition SetDispatcher (dispatcher : option WorkDispatcher) (st : TState) : TState :=
  let st := on_tctx (set_tc_dispatcher dispatcher) st in
  match dispatcher with
  | Some _ =>
      let st := init_lock tc_createNodeLock set_tc_createNodeLock st in
      let st := init_lock tc_addConnectionLock set_tc_addConnectionLock st in
      init_lock tc_addNodeNameLock set_tc_addNodeNameLock st
  | None => st
  end.

(** [UsdArnoldReaderThreadContext::CreateArnoldNode] *)
Definition CreateArnoldNode (type name : string) (st : TState) : AtNode * TState :=
  let r := t_reader st in
  let '(node, a) := AiNode (_universe r) type name (_procParent r) (arnold (world st)) in
  let st := t_arnold (fun _ => a) st in
  let st :=
    if bool_decide (is_Some (_procParent r)) && (AiNodeEntryGetType type =? AI_NODE_SHAPE)%Z
    then t_arnold (AiNodeSetUInt node "id" (_id r)) st
    else st in
  (node,
   with_lock (tc_createNodeLock (tctx st))
     (on_tctx (fun t => set_tc_nodes (tc_nodes t ++ [node]) t))
     st).

(** [UsdArnoldReaderThreadContext::GetXformCache]: the time of the cache
    that is returned. *)
Definition GetXformCache (frame_ : Q) (st : TState) : Q * TState :=
  let time := _time (t_reader st) in
  let slow :=
    if existsb (Qeq_bool frame_) (tc_xformCacheMap (tctx st)) then (frame_, st)
    else (frame_, on_tctx (fun t => set_tc_xformCacheMap (tc_xformCacheMap t ++ [frame_]) t) st) in
  if negb (motionBlur time) || Qeq_bool frame_ (frame time) then
    match tc_xformCache (tctx st) with
    | Some c => (c, st)
    | None => slow
    end
  else slow.

Definition identity_matrix : GfMatrix4d :=
  [1; 0; 0; 0;  0; 1; 0; 0;  0; 0; 1; 0;  0; 0; 0; 1]%Q.

Definition stage_ancestors (st : TState) (prim : UsdPrim) : list UsdPrim :=
  match _stage (t_reader st) with
  | Some stage => prim_ancestors stage prim
  | None => []
  end.

(** [getMatrix] (utils.cpp).  [frame] is a [float]; the entries of the
    [GfMatrix4d], doubles, are stored in the floats of an [AtMatrix]. *)
Definition getMatrix (prim : UsdPrim) (frame_ : Q) (isXformable : bool)
    (st : TState) : AtMatrix * TState :=
  let '(cacheTime, st) := GetXformCache frame_ st in
  let xform :=
    if isXformable then p_localToWorld prim cacheTime
    else
      let parentXform :=
        match stage_ancestors st prim with
        | parent :: _ => p_localToWorld parent cacheTime
        | [] => identity_matrix
        end in
      match p_localTransformation prim frame_ with
      | Some localTransform => mat_mul parentXform localTransform
      | None => parentXform
      end in
  (map to_float xform, st).

(** The loop that fills the keys of an animated matrix:
    [for (size_t i = 0; i < numKeys; i++, timeVal += timeStep)], on the
    indices that are left.  [timeVal] and [timeStep] are floats, and so is
    their sum. *)
Fixpoint ReadMatrix_keys (prim : UsdPrim) (isXformable : bool) (timeStep : Q)
    (indices : list nat) (timeVal : Q) (array : AtArray) (st : TState)
  : AtArray * TState :=
  match indices with
  | [] => (array, st)
  | i :: rest =>
      let '(matrix, st) := getMatrix prim timeVal isXformable st in
      ReadMatrix_keys prim isXformable timeStep rest (to_float (timeVal + timeStep))
                      (AiArraySetMtx array i matrix) st
  end.

(** [GfInterval(min, max, false, false)] and
    [xformable.GetTimeSamplesInInterval] *)
Definition GetTimeSamplesInInterval (prim : UsdPrim) (min max : Q) : list Q :=
  List.filter (fun t => negb (Qle_bool t min) && negb (Qle_bool max t))
              (p_timeSamples prim).

(** [AtArray *ReadMatrix(prim, time, context, isXformable)].  The bounds of
    the interval are doubles, [numKeys] is a [size_t]; the length of the
    interval is taken in doubles, converted to [float] and divided, in
    floats, by [int(numKeys - 1)], which is not 0 for a list of samples
    of less than [2 ^ 32 - 1] elements; [timeVal] starts at the first
    bound, converted to [float]. *)
Definition ReadMatrix_array (prim : UsdPrim) (time : TimeSettings)
    (isXformable : bool) (st : TState) : AtArray * TState :=
  let animated := p_timeVarying prim in
  let animated :=
    if motionBlur time && negb animated
    then existsb (fun parent => p_isXformable parent && p_timeVarying parent)
                 (stage_ancestors st prim)
    else animated in
  if motionBlur time && animated then
    let min := TimeSettings_start time in
    let max := TimeSettings_end time in
    let timeSamples := GetTimeSamplesInInterval prim min max in
    let numKeys := length timeSamples + 2 in
    let array := AiArrayAllocate_MATRIX numKeys in
    let timeStep :=
      to_float (to_float (to_double (max - min))
                / to_float (inject_Z (to_int (Z.of_nat (numKeys - 1))))) in
    let timeVal := to_float min in
    ReadMatrix_keys prim isXformable timeStep (seq 0 numKeys) timeVal array st
  else
    let '(matrix, st) := getMatrix prim (frame time) isXformable st in
    (AiArrayConvert_MATRIX matrix, st).

(** [void ReadMatrix(prim, node, time, context, isXformable)] *)
Definition ReadMatrix (prim : UsdPrim) (node : AtNode) (time : TimeSettings)
    (context : UsdArnoldReaderContext) (isXformable : bool) (st : TState) : TState :=
  let '(matrices, st) :=
    match c_matrix context with
    | Some matrices =>
        (matrices, t_arnold (AiNodeSetArray node "matrix" (AiArrayCopy matrices)) st)
    | None =>
        let '(matrices, st) := ReadMatrix_array prim time isXformable st in
        (matrices, t_arnold (AiNodeSetArray node "matrix" matrices) st)
    end in
  if (1 <? AiArrayGetNumKeys matrices)%nat then
    let st := t_arnold (AiNodeSetFlt node "motion_start" (motionStart time)) st in
    t_arnold (AiNodeSetFlt node "motion_end" (motionEnd time)) st
  else st.

Definition AiArray_STRING (l : list string) : AtArray :=
  {| nelements := length l; nkeys := 1; adata := DataString l |}.

(** The part of [UsdArnoldReader::ReadPrimitive] that follows the instance
    case; it is what [ReadPrimitive(prim, context)] runs, [isInstance] being
    false by default. *)
Definition ReadPrimitive_prim (prim : UsdPrim) (context : UsdArnoldReaderContext)
    (st : TState) : TState :=
  let r := t_reader st in
  let objName := p_path prim in
  let objType := p_typeName prim in
  match r0 ← _registry r; GetPrimReader r0 objType with
  | Some primReader =>
      if negb (Z.land (_mask r) (GetType primReader) =? 0)%Z then
        let st :=
          if _debug r
          then t_arnold (AiMsgInfo ("Object " ++ objName ++ " (type: " ++ objType ++ ")")) st
          else st in
        match _dispatcher r with
        | Some _ =>
            let '(matrix, st) :=
              ReadMatrix_array prim (_time r) (p_isXformable prim) st in
            let jobContext :=
              {| c_matrix := Some matrix;
                 c_primvars := vec_back (tc_primvarsStack (tctx st)) [] |} in
            Read primReader prim jobContext st
        | None => Read primReader prim context st
        end
      else st
  | None => st
  end.

(** [std::getline(ss, token, ' ')], called until it fails: the tokens of
    [s], [token] being what is read of the current one. *)
Fixpoint getline_tokens (s : string) (token : string) : list string :=
  match s with
  | EmptyString => if String.eqb token "" then [] else [token]
  | String c s' =>
      if Ascii.eqb c " "%char then token :: getline_tokens s' ""
      else getline_tokens s' (token ++ String c "")
  end.

Definition supportedElems : string := "xyzrgba".

(** [elem.back()] *)
Definition string_back (elem : string) : ascii :=
  default Ascii.zero (String.get (String.length elem - 1) elem).

(** [elem.length() > 1 && elem[elem.length() - 2] == ':' &&
     supportedElems.find(elem.back()) != std::string::npos] *)
Definition isOutputComponent (elem : string) : bool :=
  (1 <? String.length elem)%nat &&
  bool_decide (String.get (String.length elem - 2) elem = Some ":"%char) &&
  bool_decide (is_Some (String.index 0 (String (string_back elem) "") supportedElems)).

(** The forced export of a missing target in the dangling step: the prim at
    the path, if there is one, is read with its full list of primvars. *)
Definition force_export (prim : UsdPrim) (st : TState) : TState :=
  let primvars :=
    match _stage (t_reader st) with
    | Some stage => FindPrimvarsWithInheritance stage prim
    | None => p_primvars prim
    end in
  let st :=
    on_tctx (fun t => set_tc_primvarsStack (vec_set_back primvars (tc_primvarsStack t)) t) st in
  ReadPrimitive_prim prim NewReaderContext st.

Definition stage_prim (st : TState) (path : string) : option UsdPrim :=
  stage ← _stage (t_reader st); tree_prim <$> GetPrimAtPath stage path.

(** The [while (std::getline(ss, token, ' '))] loop of the array case:
    [None] stands for the [return false] in the loop. *)
Fixpoint ProcessConnection_array (step : ReadStep) (tokens : list string)
    (vecNodes : list AtNode) (st : TState) : option (list AtNode) * TState :=
  match tokens with
  | [] => (Some vecNodes, st)
  | token :: rest =>
      match LookupNode token true (world st) with
      | Some target => ProcessConnection_array step rest (vecNodes ++ [target]) st
      | None =>
          let '(target, st) :=
            if bool_decide (step = READ_DANGLING_CONNECTIONS) then
              match stage_prim st token with
              | Some prim =>
                  let st := force_export prim st in
                  (LookupNode token true (world st), st)
              | None => (None, st)
              end
            else (None, st) in
          match target with
          | None => (None, st)
          | Some target => ProcessConnection_array step rest (vecNodes ++ [target]) st
          end
      end
  end.

(** The nested usd procedural that stands for a prototype. *)
Definition create_prototype_procedural (connection : Connection) (st : TState)
  : AtNode * TState :=
  let '(node, st) := CreateArnoldNode "usd" (target connection) st in
  let r := t_reader st in
  let time := _time r in
  let st := t_arnold (AiNodeSetStr node "filename" (_filename r)) st in
  let st := t_arnold (AiNodeSetStr node "object_path" (target connection)) st in
  let st := t_arnold (AiNodeSetFlt node "frame" (frame time)) st in
  let st := t_arnold (AiNodeSetFlt node "motion_start" (motionStart time)) st in
  let st := t_arnold (AiNodeSetFlt node "motion_end" (motionEnd time)) st in
  let st :=
    match _overrides r with
    | Some overrides =>
        t_arnold (AiNodeSetArray node "overrides" (AiArrayCopy (AiArray_STRING overrides))) st
    | None => st
    end in
  (node, t_arnold (AiNodeSetByte node "visibility" 0) st).

(** [UsdArnoldReaderThreadContext::ProcessConnection].  In the link case
    the target is known to be found, past the [return false] of a missing
    node: the branch that unlinks on a null target is never taken. *)
Definition ProcessConnection (connection : Connection) (st : TState) : bool * TState :=
  let step := _readStep (t_reader st) in
  if bool_decide (type connection = CONNECTION_ARRAY) then
    match ProcessConnection_array step (getline_tokens (target connection) "") [] st with
    | (None, st) => (false, st)
    | (Some vecNodes, st) =>
        (true,
         t_arnold (AiNodeSetArray (sourceNode connection) (sourceAttr connection)
                                  (AiArrayConvert_NODE vecNodes)) st)
    end
  else
    let '(found, st) :=
      match LookupNode (target connection) true (world st) with
      | Some node => (Some node, st)
      | None =>
          if bool_decide (step = READ_DANGLING_CONNECTIONS) then
            match stage_prim st (target connection) with
            | Some prim =>
                let st := force_export prim st in
                match LookupNode (target connection) true (world st) with
                | Some node => (Some node, st)
                | None =>
                    if bool_decide (type connection = CONNECTION_PTR) && p_isPrototype prim
                    then let '(node, st) := create_prototype_procedural connection st in
                         (Some node, st)
                    else (None, st)
                end
            | None => (None, st)
            end
          else (None, st)
      end in
    match found with
    | None => (false, st)
    | Some node =>
        match type connection with
        | CONNECTION_PTR =>
            (true, t_arnold (AiNodeSetPtr (sourceNode connection) (sourceAttr connection)
                                          found) st)
        | CONNECTION_LINK =>
            let elem := outputElement connection in
            if isOutputComponent elem then
              (true, t_arnold (AiNodeLinkOutput node (String (string_back elem) "")
                                 (sourceNode connection) (sourceAttr connection)) st)
            else
              (true, t_arnold (AiNodeLink node (sourceAttr connection)
                                          (sourceNode connection)) st)
        | CONNECTION_ARRAY => (true, st)
        end
    end.

(** [UsdArnoldReaderThreadContext::AddConnection] *)
Definition AddConnection (source : AtNode) (attr target_ : string)
    (type_ : ConnectionType) (outputElement_ : string) (st : TState) : TState :=
  let conn :=
    {| sourceNode := source; sourceAttr := attr; target := target_;
       type := type_; outputElement := outputElement_ |} in
  if bool_decide (_readStep (t_reader st) = READ_TRAVERSE) then
    with_lock (tc_addConnectionLock (tctx st))
      (on_tctx (fun t => set_tc_connections (tc_connections t ++ [conn]) t))
      st
  else if bool_decide (_readStep (t_reader st) = READ_DANGLING_CONNECTIONS) then
    snd (ProcessConnection conn st)
  else st.

(** The loop of [ProcessConnections]: the connections that could not be
    processed are collected. *)
Fixpoint ProcessConnections_loop (connections danglingConnections : list Connection)
    (st : TState) : list Connection * TState :=
  match connections with
  | [] => (danglingConnections, st)
  | c :: rest =>
      let '(ok, st) := ProcessConnection c st in
      ProcessConnections_loop rest
        (if ok then danglingConnections else danglingConnections ++ [c]) st
  end.

(** [UsdArnoldReaderThreadContext::ProcessConnections] *)
Definition ProcessConnections (st : TState) : TState :=
  let st := on_tctx (set_tc_primvarsStack [[]]) st in
  let '(danglingConnections, st) :=
    ProcessConnections_loop (tc_connections (tctx st)) [] st in
  on_tctx (set_tc_connections danglingConnections) st.

(** [UsdArnoldReader::ReadPrimitive] *)
Definition ReadPrimitive (prim : UsdPrim) (context : UsdArnoldReaderContext)
    (isInstance : bool) (st : TState) : TState :=
  if isInstance then
    match p_prototype prim with
    | None => st
    | Some proto =>
        let time := _time (t_reader st) in
        let '(ginstance, st) := CreateArnoldNode "ginstance" (p_path prim) st in
        let st :=
          if p_isXformable prim then ReadMatrix prim ginstance time context true st
          else st in
        let st := t_arnold (AiNodeSetFlt ginstance "motion_start" (motionStart time)) st in
        let st := t_arnold (AiNodeSetFlt ginstance "motion_end" (motionEnd time)) st in
        let st := t_arnold (AiNodeSetByte ginstance "visibility" AI_RAY_ALL) st in
        let st := t_arnold (AiNodeSetBool ginstance "inherit_xform" false) st in
        AddConnection ginstance "node" proto CONNECTION_PTR "" st
    end
  else ReadPrimitive_prim prim context st.

(** [UsdArnoldReader::GetDefaultShader] *)
Definition GetDefaultShader (w : World) : AtNode * World :=
  let w := LockReader w in
  let w :=
    match _defaultShader (reader w) with
    | Some _ => w
    | None =>
        let r := reader w in
        let '(defaultShader, a) :=
          AiNode (_universe r) "standard_surface" "_default_arnold_shader"
                 (_procParent r) (arnold w) in
        let '(userData, a) :=
          AiNode (_universe r) "user_data_rgb" "_default_arnold_shader_color"
                 (_procParent r) a in
        let a := AiNodeSetStr userData "attribute" "displayColor" a in
        let a := AiNodeSet userData "default" (ParamRGB 1 1 1) a in
        let a := AiNodeLink userData "base_color" defaultShader a in
        on_reader (fun r => set_nodes (_nodes r ++ [defaultShader; userData])
                              (set_defaultShader (Some defaultShader) r))
                  (on_arnold (fun _ => a) w)
    end in
  let w := UnlockReader w in
  (default 0 (_defaultShader (reader w)), w).

(** [UsdArnoldReaderContext::GetPrimvars] *)
Definition GetPrimvars (context : UsdArnoldReaderContext) (st : TState)
  : list UsdGeomPrimvar :=
  match tc_dispatcher (tctx st) with
  | None => vec_back (tc_primvarsStack (tctx st)) []
  | Some _ => c_primvars context
  end.

(** [UsdArnoldReaderContext::GetPrimVisibility] *)
Definition GetPrimVisibility (prim : UsdPrim) (st : TState) : bool :=
  if bool_decide (_readStep (t_reader st) = READ_DANGLING_CONNECTIONS)
     && p_isImageable prim
  then negb (String.eqb (p_computedVisibility prim) UsdGeomTokens_invisible)
  else true.

(** *** The traversal *)

(** struct UsdThreadData; its thread context is the one of the state the
    thread runs in. *)
Record UsdThreadData := {
  threadId : nat;
  threadCount : nat;
  rootPrim : option PrimTree;
  context : UsdArnoldReaderContext
}.

(** The visibility and purpose test of the traversal. *)
Definition pruneChildren (purpose_ : TfToken) (prim : UsdPrim) : bool :=
  if p_isImageable prim || String.eqb (substring 0 6 (p_typeName prim)) "Arnold" then
    match p_visibility prim with
    | Some visibility => String.eqb visibility UsdGeomTokens_invisible
    | None => false
    end
    ||
    match p_purpose prim with
    | Some purpose =>
        negb (String.eqb purpose UsdGeomTokens_default_)
        && negb (String.eqb purpose purpose_)
    | None => false
    end
  else false.

(** One turn of the [for] loop of [ReaderThread], with the increment that
    ends it: the iterator and the prim counter the next turn starts from. *)
Definition ReaderThread_body (td : UsdThreadData) (iter : iterator) (index : nat)
    (st : TState) : iterator * nat * TState :=
  match iter with
  | [] => ([], index, st)
  | v :: _ =>
      let prim := v_prim v in
      let isInstanceable := p_instanceable prim in
      let objType := p_typeName prim in
      let multithread := (1 <? threadCount td)%nat in
      if String.eqb objType "" && negb isInstanceable then
        (iter_increment false iter, index, st)
      else if v_isPostVisit v then
        (iter_increment false iter, index,
         on_tctx (fun t => set_tc_primvarsStack (vec_pop_back (tc_primvarsStack t)) t) st)
      else
        let primvarsStack := tc_primvarsStack (tctx st) in
        let primvars :=
          FindIncrementallyInheritablePrimvars prim (vec_back primvarsStack []) in
        let pushed :=
          match primvars with
          | [] => vec_back primvarsStack []
          | _ => primvars
          end in
        let st := on_tctx (set_tc_primvarsStack (primvarsStack ++ [pushed])) st in
        if pruneChildren (_purpose (t_reader st)) prim then
          (* iter.PruneChildren(); iter++; continue; *)
          (iter_increment false (iter_increment true iter), index, st)
        else if multithread && negb (((index + threadId td) mod threadCount td) =? 0)%nat then
          (iter_increment false iter, S index, st)
        else
          (iter_increment false iter,
           if multithread then S index else index,
           ReadPrimitive prim (context td) isInstanceable st)
  end.

(** The iterator, the prim counter and the state after [n] turns of the
    loop, or at the end of the range if it is reached before. *)
Fixpoint ReaderThread_turns (n : nat) (td : UsdThreadData) (iter : iterator)
    (index : nat) (st : TState) : iterator * nat * TState :=
  match n, iter with
  | _, [] => (iter, index, st)
  | O, _ => (iter, index, st)
  | S n', _ =>
      let '(iter', index', st') := ReaderThread_body td iter index st in
      ReaderThread_turns n' td iter' index' st'
  end.

(** The loop runs until the iterator reaches the end of the range; every turn
    moves the iterator, so [fuel] turns are enough for a range of [fuel]
    stops. *)
Definition ReaderThread_loop (fuel : nat) (td : UsdThreadData) (iter : iterator)
    (index : nat) (st : TState) : TState :=
  snd (ReaderThread_turns fuel td iter index st).

(** The range a thread traverses: the one rooted at its root prim, or the
    whole stage. *)
Definition ReaderThread_range (td : UsdThreadData) (st : TState) : list Visit :=
  match rootPrim td with
  | Some root => PreAndPostVisit root
  | None =>
      match _stage (t_reader st) with
      | Some stage => PreAndPostVisit (s_pseudoRoot stage)
      | None => []
      end
  end.

(** [UsdArnoldReader::ReaderThread] *)
Definition ReaderThread (td : UsdThreadData) (st : TState) : TState :=
  let st := on_tctx (set_tc_primvarsStack [[]]) st in
  let range := ReaderThread_range td st in
  ReaderThread_loop (length range) td range 0 st.

(** [UsdArnoldReader::ProcessConnectionsThread] *)
Definition ProcessConnectionsThread (st : TState) : TState := ProcessConnections st.

(** *** Reading a stage *)

(** The first loop of the traversal step: the thread data of worker [i] is
    set up and the worker is run. *)
Definition new_thread_context (w : World) : TState :=
  let st := {| world := w; tctx := NewThreadContext |} in
  let st := SetReader st in
  SetDispatcher (_dispatcher (reader w)) st.

Definition start_reader_thread (i threadCount_ : nat) (rootPrimPtr : option PrimTree)
    (w : World) : UsdArnoldReaderThreadContext * World :=
  let st := new_thread_context w in
  let td := {| threadId := i; threadCount := threadCount_;
               rootPrim := rootPrimPtr; context := NewReaderContext |} in
  let st := ReaderThread td st in
  (tctx st, world st).

Fixpoint run_reader_threads (ids : list nat) (threadCount_ : nat)
    (rootPrimPtr : option PrimTree) (w : World)
  : list UsdArnoldReaderThreadContext * World :=
  match ids with
  | [] => ([], w)
  | i :: rest =>
      let '(t, w) := start_reader_thread i threadCount_ rootPrimPtr w in
      let '(ts, w) := run_reader_threads rest threadCount_ rootPrimPtr w in
      (t :: ts, w)
  end.

(** The nodes and the names of a thread context are moved to the reader:
    [insert] keeps the names the reader already has. *)
Definition merge_nodes (t : UsdArnoldReaderThreadContext) (w : World)
  : UsdArnoldReaderThreadContext * World :=
  (set_tc_nodeNames ∅ (set_tc_nodes [] t),
   on_reader (fun r => set_nodeNames (_nodeNames r ∪ tc_nodeNames t)
                         (set_nodes (_nodes r ++ tc_nodes t) r)) w).

Fixpoint merge_threads (ts : list UsdArnoldReaderThreadContext) (w : World)
  : list UsdArnoldReaderThreadContext * World :=
  match ts with
  | [] => ([], w)
  | t :: rest =>
      let '(t, w) := merge_nodes t w in
      let '(rest, w) := merge_threads rest w in
      (t :: rest, w)
  end.

Fixpoint run_connection_threads (ts : list UsdArnoldReaderThreadContext) (w : World)
  : list UsdArnoldReaderThreadContext * World :=
  match ts with
  | [] => ([], w)
  | t :: rest =>
      let st := ProcessConnectionsThread {| world := w; tctx := t |} in
      let '(rest, w) := run_connection_threads rest (world st) in
      (tctx st :: rest, w)
  end.

(** The connections the threads could not process, in thread order; the
    lists of the threads are cleared. *)
Definition collect_dangling (ts : list UsdArnoldReaderThreadContext)
  : list Connection * list UsdArnoldReaderThreadContext :=
  (concat (map tc_connections ts), map (set_tc_connections []) ts).

(** The loop over the dangling connections, on the first thread context. *)
Fixpoint dangling_loop (danglingConnections : list Connection) (st : TState) : TState :=
  match danglingConnections with
  | [] => st
  | conn :: rest =>
      let name := target conn in
      let st :=
        match LookupNode name true (world st) with
        | Some _ => st
        | None =>
            match stage_prim st name with
            | Some prim => ReadPrimitive prim NewReaderContext false st
            | None => st
            end
        end in
      dangling_loop rest (snd (ProcessConnection conn st))
  end.

(** The shutter of the render camera named by the options, when the stage
    is not read through a procedural. *)
Definition read_camera_shutter (stage : UsdStage) (w : World) : World :=
  match _procParent (reader w) with
  | Some _ => w
  | None =>
      let time := _time (reader w) in
      let options := tree_prim <$> GetPrimAtPath stage "/options" in
      let hasCameraToken :=
        match options with Some o => HasAttribute o "arnold:camera" | None => false end in
      let hasOldCameraToken :=
        negb hasCameraToken &&
        match options with Some o => HasAttribute o "camera" | None => false end in
      match options with
      | Some o =>
          if hasCameraToken || hasOldCameraToken then
            match GetAttribute o (if hasCameraToken then "arnold:camera" else "camera") with
            | Some (VtString cameraName) =>
                if String.eqb cameraName "" then w
                else
                  match tree_prim <$> GetPrimAtPath stage cameraName with
                  | Some cameraPrim =>
                      let shutter name :=
                        if p_isCamera cameraPrim then
                          match GetAttribute cameraPrim name with
                          | Some v => VtValueGetFloat v
                          | None => 0%Q
                          end
                        else 0%Q in
                      let shutterStart := shutter "shutter:open" in
                      let shutterEnd := shutter "shutter:close" in
                      on_reader
                        (set_time {| frame := frame time;
                                     motionBlur := negb (Qle_bool shutterEnd shutterStart);
                                     motionStart := shutterStart;
                                     motionEnd := shutterEnd |}) w
                  | None => w
                  end
            | _ => w
            end
          else w
      | None => w
      end
  end.

(** The registry the reader uses: the global one, made on first use, when
    none was set. *)
Definition select_registry (w : World) : World :=
  match _registry (reader w) with
  | None =>
      let mutex := s_globalReaderMutex (globals w) in
      let w := on_arnold (AiCritSecEnter mutex) w in
      let w :=
        match s_readerRegistry (globals w) with
        | None =>
            on_globals (fun g =>
              {| s_readerRegistry := Some NewReaderRegistry;
                 s_anonymousOverrideCounter := s_anonymousOverrideCounter g;
                 s_globalReaderMutex := s_globalReaderMutex g |}) w
        | Some _ => w
        end in
      let w := on_arnold (AiCritSecLeave mutex) w in
      on_reader (set_registry (s_readerRegistry (globals w))) w
  | Some _ => w
  end.

Definition procName (w : World) : string :=
  match _procParent (reader w) with
  | Some p => AiNodeGetName p (arnold w)
  | None => ""
  end.

(** With a thread count of 0 a single thread traverses the stage, and a
    WorkDispatcher runs a job for every primitive it finds. *)
Definition start_dispatcher (w : World) : nat * World :=
  let threadCount_ := _threadCount (reader w) in
  if (threadCount_ =? 0)%nat
  then (1, on_reader (set_dispatcher (Some NewWorkDispatcher)) w)
  else (threadCount_, w).

(** The three steps of [ReadStage], from the traversal on.  The skinning
    that is baked before them changes point data only. *)
Definition ReadStage_steps (rootPrimPtr : option PrimTree) (w : World) : World :=
  let '(threadCount_, w) := start_dispatcher w in
  (* First step, we traverse the stage in order to create all nodes *)
  let w := assign_readStep READ_TRAVERSE w in
  let '(threadData, w) := run_reader_threads (seq 0 threadCount_) threadCount_ rootPrimPtr w in
  let '(threadData, w) := merge_threads threadData w in
  let w := on_reader (set_dispatcher None) w in
  (* second step: each thread goes through the connections it stacked *)
  let w := assign_readStep READ_PROCESS_CONNECTIONS w in
  let '(threadData, w) := run_connection_threads threadData w in
  let '(danglingConnections, threadData) := collect_dangling threadData in
  (* 3rd step, in case some links were pointing to nodes that didn't exist *)
  let w := assign_readStep READ_DANGLING_CONNECTIONS w in
  let w :=
    match danglingConnections with
    | [] => w
    | _ =>
        let st := {| world := w; tctx := default NewThreadContext (head threadData) |} in
        let st := dangling_loop danglingConnections st in
        snd (merge_nodes (tctx st) (world st))
    end in
  let w := on_reader (set_stage None) w in
  assign_readStep READ_FINISHED w.

(** [UsdArnoldReader::ReadStage] *)
Definition ReadStage (stage : option UsdStage) (path : string) (w : World) : World :=
  let w := on_reader (set_stage stage) w in
  match stage with
  | None =>
      on_arnold (AiMsgError ("[usd] Unable to create USD stage from "
                             ++ _filename (reader w))) w
  | Some stg =>
      let w :=
        if _debug (reader w) then
          on_arnold (AiMsgWarning
            ("==== Initializing Usd Reader " ++
             match _procParent (reader w) with
             | Some _ => " for procedural " ++ procName w
             | None => ""
             end)) w
        else w in
      let procMask :=
        match _procParent (reader w) with
        | Some _ =>
            Z.lor (Z.lor (Z.lor (Z.lor AI_NODE_CAMERA AI_NODE_LIGHT) AI_NODE_SHAPE)
                         AI_NODE_SHADER) AI_NODE_OPERATOR
        | None => AI_NODE_ALL
        end in
      let w := on_reader (fun r => set_mask (Z.land (_mask r) procMask) r) w in
      let w := select_registry w in
      let continue_ (rootPrimPtr : option PrimTree) : World :=
        ReadStage_steps rootPrimPtr (read_camera_shutter stg w) in
      if String.eqb path "" then continue_ None
      else
        match GetPrimAtPath stg path with
        | None =>
            on_arnold (AiMsgError ("[usd] " ++ procName w ++ " : Object Path "
                                   ++ path ++ " is not valid")) w
        | Some rootPrim_ =>
            if negb (p_active (tree_prim rootPrim_)) then
              on_arnold (AiMsgWarning ("[usd] " ++ procName w
                                       ++ " : Object Path primitive " ++ path
                                       ++ " is not active")) w
            else continue_ (Some rootPrim_)
        end
  end.

(** *** The reader's entry points *)

(** [getLayerName] of [Read]: the counter of anonymous layers is taken under
    the global mutex. *)
Definition getLayerName (w : World) : World :=
  let mutex := s_globalReaderMutex (globals w) in
  let w := on_arnold (AiCritSecEnter mutex) w in
  let w :=
    on_globals (fun g =>
      {| s_readerRegistry := s_readerRegistry g;
         s_anonymousOverrideCounter := (s_anonymousOverrideCounter g + 1)%Z;
         s_globalReaderMutex := s_globalReaderMutex g |}) w in
  on_arnold (AiCritSecLeave mutex) w.

(** [UsdArnoldReader::Read(filename, overrides, path)] *)
Definition Read_file (filename : string) (overrides : option (list string))
    (path : string) (w : World) : World :=
  match _nodes (reader w) with
  | _ :: _ => w
  | [] =>
      let rootLayer := SdfLayer_FindOrOpen filename in
      let w := on_reader (fun r => set_overrides overrides (set_filename filename r)) w in
      let finish (w : World) : World :=
        on_reader (fun r => set_overrides None (set_filename "" r)) w in
      match overrides with
      | None | Some [] =>
          match rootLayer with
          | None =>
              on_arnold (AiMsgError ("[usd] Failed to open file (" ++ filename ++ ")")) w
          | Some layer =>
              finish (ReadStage (UsdStage_Open (Some layer) None) path w)
          end
      | Some texts =>
          let w := Nat.iter (1 + length texts) getLayerName w in
          let layers := List.filter SdfLayer_ImportFromString texts in
          finish (ReadStage (UsdStage_Open rootLayer (Some layers)) path w)
      end
  end.

(** [UsdArnoldReader::Read(cacheId, path)] *)
Definition Read_cache (cacheId : Z) (path : string) (w : World) : World :=
  match _nodes (reader w) with
  | _ :: _ => w
  | [] =>
      let w := on_reader (set_cacheId cacheId) w in
      match UsdStageCache_Find cacheId with
      | None =>
          on_arnold (AiMsgError ("[usd] Cache ID not valid "
                                 ++ pretty cacheId)) w
      | Some stage => ReadStage (Some stage) path w
      end
  end.

(** [UsdArnoldReader::ClearNodes] *)
Definition ClearNodes (w : World) : World :=
  let w :=
    match _procParent (reader w) with
    | None =>
        on_arnold (fun a => fold_left (fun a n => AiNodeDestroy n a) (_nodes (reader w)) a) w
    | Some _ => w
    end in
  on_reader (fun r => set_defaultShader None (set_nodes [] r)) w.

(** [UsdArnoldReader::SetFrame] *)
Definition SetFrame (frame_ : Q) (w : World) : World :=
  let w := ClearNodes w in
  on_reader (fun r =>
    set_time {| frame := frame_; motionBlur := motionBlur (_time r);
                motionStart := motionStart (_time r);
                motionEnd := motionEnd (_time r) |} r) w.

(** [UsdArnoldReader::SetMotionBlur] *)
Definition SetMotionBlur (motionBlur_ : bool) (motionStart_ motionEnd_ : Q)
    (w : World) : World :=
  let w := ClearNodes w in
  on_reader (fun r =>
    set_time {| frame := frame (_time r); motionBlur := motionBlur_;
                motionStart := motionStart_; motionEnd := motionEnd_ |} r) w.

(** [UsdArnoldReader::SetDebug] *)
Definition SetDebug (b : bool) (w : World) : World :=
  on_reader (set_debug b) (ClearNodes w).

(** [UsdArnoldReader::SetConvertPrimitives] *)
Definition SetConvertPrimitives (b : bool) (w : World) : World :=
  on_reader (set_convert b) (ClearNodes w).

(** [UsdArnoldReader::SetThreadCount] *)
Definition SetThreadCount (t : nat) (w : World) : World :=
  let w := on_reader (set_threadCount t) w in
  match _readerLock (reader w) with
  | None =>
      if bool_decide (t ≠ 1) then
        let '(cs, a) := AiCritSecInit (arnold w) in
        on_reader (set_readerLock (Some cs)) (on_arnold (fun _ => a) w)
      else w
  | Some _ => w
  end.

(** [UsdArnoldReader::SetProceduralParent] *)
Definition SetProceduralParent (node : option AtNode) (w : World) : World :=
  let w := ClearNodes w in
  on_reader (fun r =>
    set_universe (n ← node; d ← node_data (arnold w) n; n_universe d)
                 (set_procParent node r)) w.

(** [UsdArnoldReader::SetRegistry] *)
Definition SetRegistry (registry : option UsdArnoldReaderRegistry) (w : World) : World :=
  on_reader (set_registry registry) w.

(** [UsdArnoldReader::SetUniverse] *)
Definition SetUniverse (universe : option AtUniverse) (w : World) : World :=
  match _procParent (reader w) with
  | Some _ =>
      if bool_decide (universe ≠ _universe (reader w)) then
        on_arnold (AiMsgError ("UsdArnoldReader: we cannot set a universe that is different "
                               ++ "from the procedural parent")) w
      else w
  | None => on_reader (set_universe universe) (ClearNodes w)
  end.

End Reader.

(** ** Material bindings and string arrays (utils.cpp) *)

(** A bound material: the paths of the shaders its outputs come from, in the
    arnold render context and in the universal one; an invalid shader is
    [None]. *)
Record UsdShadeMaterial := {
  ComputeSurfaceSource_arnold : option string;
  ComputeSurfaceSource : option string;
  ComputeVolumeSource_arnold : option string;
  ComputeVolumeSource : option string;
  ComputeDisplacementSource_arnold : option string;
  ComputeDisplacementSource : option string
}.

(** A geometry subset: its prim, and the value of its indices at a frame. *)
Record UsdGeomSubset := {
  subset_GetPrim : UsdPrim;
  subset_GetIndices : Q -> list Z
}.

(** What [attr.Get] yields for the three array types [ReadStringArray]
    tries; an asset path is given by its resolved path. *)
Inductive UsdArrayValue :=
| ArrayOfString (elems : list string)
| ArrayOfToken (elems : list string)
| ArrayOfAssetPath (resolved : list string)
| NoStringArray.

(** [AiNodeIs(node, type)] *)
Definition AiNodeIs (node : AtNode) (type_ : string) (a : Arnold) : bool :=
  match node_data a node with
  | Some d => String.eqb (n_type d) type_
  | None => false
  end.

(** [AiNodeResetParameter(node, attr)]: the parameter is no longer set. *)
Definition AiNodeResetParameter (node : AtNode) (attr : string) (a : Arnold) : Arnold :=
  update_node (fun d =>
    {| n_universe := n_universe d; n_type := n_type d; n_name := n_name d;
       n_parent := n_parent d; n_params := delete attr (n_params d);
       n_links := n_links d |}) node a.

(** Conversions of C: an [int] to [unsigned char] and to [unsigned int]. *)
Definition to_uchar (z : Z) : Z := (z mod 256)%Z.
Definition to_uint (z : Z) : Z := (z mod 2 ^ 32)%Z.

Section Materials.
Context `{Env}.

(** [UsdShadeMaterialBindingAPI(prim).ComputeBoundMaterial()]; a prim
    without bound material yields [None]. *)
Variable ComputeBoundMaterial : UsdPrim -> option UsdShadeMaterial.

(** [x = f(arnold); if (!x) x = f();] *)
Definition or_global {A} (scoped global : option A) : option A :=
  match scoped with
  | Some x => Some x
  | None => global
  end.

(** [getMaterialTargets]: the strings on return, [dispStr] being [None] for
    a null pointer. *)
Definition getMaterialTargets (prim : UsdPrim) (shaderStr : string)
    (dispStr : option string) : string * option string :=
  match ComputeBoundMaterial prim with
  | None => (shaderStr, dispStr)
  | Some mat =>
      let surface := or_global (ComputeSurfaceSource_arnold mat) (ComputeSurfaceSource mat) in
      let shaderStr :=
        match surface with
        | Some path => path
        | None =>
            let volume :=
              or_global (ComputeVolumeSource_arnold mat) (ComputeVolumeSource mat) in
            match volume with
            | Some path => path
            | None => shaderStr
            end
        end in
      let dispStr :=
        match dispStr with
        | Some old =>
            let displacement :=
              or_global (ComputeDisplacementSource_arnold mat)
                        (ComputeDisplacementSource mat) in
            match displacement with
            | Some path => Some path
            | None => Some old
            end
        | None => None
        end in
      (shaderStr, dispStr)
  end.

(** [context.GetReader()->GetDefaultShader()] *)
Definition context_GetDefaultShader (st : TState) : AtNode * TState :=
  let '(shader, w) := GetDefaultShader (world st) in
  (shader, {| world := w; tctx := tctx st |}).

(** [ReadMaterialBinding] *)
Definition ReadMaterialBinding (prim : UsdPrim) (node : AtNode)
    (context : UsdArnoldReaderContext) (assignDefault : bool) (st : TState) : TState :=
  let isPolymesh := AiNodeIs node "polymesh" (arnold (world st)) in
  let '(shaderStr, dispPtr) :=
    getMaterialTargets prim "" (if isPolymesh then Some "" else None) in
  let dispStr := default "" dispPtr in
  let st :=
    if negb (String.eqb shaderStr "") then
      AddConnection node "shader" shaderStr CONNECTION_PTR "" st
    else if assignDefault then
      let '(shader, st) := context_GetDefaultShader st in
      t_arnold (AiNodeSetPtr node "shader" (Some shader)) st
    else st in
  if isPolymesh && negb (String.eqb dispStr "") then
    AddConnection node "disp_map" dispStr CONNECTION_PTR "" st
  else st.

(** The locals of [ReadSubsetsMaterialBinding] that its loops update. *)
Record SubsetsLocals := {
  shadersArrayStr : string;
  dispArrayStr : string;
  hasDisplacement : bool;
  shidxs : list Z;
  shidx : Z
}.

(** The lines that find the names of a prim for the two arrays; they are
    written twice, for a subset and for the prim itself: the strings are
    cleared, the targets of the material are looked for, the shader is the
    default one or NULL when there is none. *)
Definition array_targets (prim : UsdPrim) (isPolymesh assignDefault : bool)
    (st : TState) : string * string * TState :=
  let '(shaderStr, dispPtr) :=
    getMaterialTargets prim "" (if isPolymesh then Some "" else None) in
  let dispStr := default "" dispPtr in
  let '(shaderStr, st) :=
    if String.eqb shaderStr "" && assignDefault then
      let '(shader, st) := context_GetDefaultShader st in
      (AiNodeGetName shader (arnold (world st)), st)
    else (shaderStr, st) in
  let shaderStr := if String.eqb shaderStr "" then "NULL" else shaderStr in
  (shaderStr, dispStr, st).

(** The names are appended to the arrays, after a space when [separate]. *)
Definition append_targets (separate isPolymesh : bool) (shaderStr dispStr : string)
    (l : SubsetsLocals) : SubsetsLocals :=
  let sep (s : string) := if separate then (s ++ " ")%string else s in
  {| shadersArrayStr := (sep (shadersArrayStr l) ++ shaderStr)%string;
     dispArrayStr :=
       if isPolymesh
       then (sep (dispArrayStr l) ++ (if String.eqb dispStr "" then "NULL" else dispStr))%string
       else dispArrayStr l;
     hasDisplacement :=
       if isPolymesh && negb (String.eqb dispStr "") then true else hasDisplacement l;
     shidxs := shidxs l;
     shidx := shidx l |}.

(** The loop over the indices of a subset.  [idx < elementCount] compares an
    [int] with an [unsigned int], so [idx] is converted first; a negative
    [idx] that passes the test indexes out of the vector, which the source
    leaves undefined and the model leaves without effect. *)
Fixpoint set_shidxs (subsetIndices : list Z) (elementCount : nat) (shidx_ : Z)
    (v : list Z) : list Z :=
  match subsetIndices with
  | [] => v
  | idx :: rest =>
      let v :=
        if (to_uint idx <? Z.of_nat elementCount)%Z then
          if (idx <? 0)%Z then v else <[Z.to_nat idx := to_uchar shidx_]> v
        else v in
      set_shidxs rest elementCount shidx_ v
  end.

(** The loop over the subsets. *)
Fixpoint subsets_loop (subsets : list UsdGeomSubset) (isPolymesh assignDefault : bool)
    (elementCount : nat) (l : SubsetsLocals) (st : TState) : SubsetsLocals * TState :=
  match subsets with
  | [] => (l, st)
  | subset :: rest =>
      let '(shaderStr, dispStr, st) :=
        array_targets (subset_GetPrim subset) isPolymesh assignDefault st in
      let l := append_targets (0 <? shidx l)%Z isPolymesh shaderStr dispStr l in
      let subsetIndices := subset_GetIndices subset (frame (_time (t_reader st))) in
      let l :=
        {| shadersArrayStr := shadersArrayStr l; dispArrayStr := dispArrayStr l;
           hasDisplacement := hasDisplacement l;
           shidxs := set_shidxs subsetIndices elementCount (shidx l) (shidxs l);
           shidx := (shidx l + 1)%Z |} in
      subsets_loop rest isPolymesh assignDefault elementCount l st
  end.

(** [ReadSubsetsMaterialBinding] *)
Definition ReadSubsetsMaterialBinding (prim : UsdPrim) (node : AtNode)
    (context : UsdArnoldReaderContext) (subsets : list UsdGeomSubset)
    (elementCount : nat) (assignDefault : bool) (st : TState) : TState :=
  let isPolymesh := AiNodeIs node "polymesh" (arnold (world st)) in
  let unassignedIndex := to_uchar (Z.of_nat (length subsets)) in
  let l := {| shadersArrayStr := ""; dispArrayStr := ""; hasDisplacement := false;
              shidxs := replicate elementCount unassignedIndex; shidx := 0 |} in
  let '(l, st) := subsets_loop subsets isPolymesh assignDefault elementCount l st in
  let needUnassignedShader := existsb (Z.eqb unassignedIndex) (shidxs l) in
  let '(l, st) :=
    if needUnassignedShader then
      let '(shaderStr, dispStr, st) := array_targets prim isPolymesh assignDefault st in
      (append_targets true isPolymesh shaderStr dispStr l, st)
    else (l, st) in
  let st :=
    if negb (String.eqb (shadersArrayStr l) "") then
      AddConnection node "shader" (shadersArrayStr l) CONNECTION_ARRAY "" st
    else st in
  let st :=
    if hasDisplacement l then
      AddConnection node "disp_map" (dispArrayStr l) CONNECTION_ARRAY "" st
    else st in
  t_arnold (AiNodeSetArray node "shidxs"
              {| nelements := elementCount; nkeys := 1; adata := DataByte (shidxs l) |}) st.

(** [ReadStringArray]: the state, and the number of motion keys it
    returns. *)
Definition ReadStringArray (attr : UsdArrayValue) (node : AtNode) (attrName : string)
    (time : TimeSettings) (st : TState) : nat * TState :=
  let outArray :=
    match attr with
    | ArrayOfString elems | ArrayOfToken elems | ArrayOfAssetPath elems =>
        match elems with
        | [] => None
        | _ => Some (AiArray_STRING (map (fun s => if String.eqb s "" then "" else s) elems))
        end
    | NoStringArray => None
    end in
  (1,
   match outArray with
   | Some array => t_arnold (AiNodeSetArray node attrName array) st
   | None => t_arnold (AiNodeResetParameter node attrName) st
   end).

End Materials.


(** ** A small scene and two primitive readers, to run the reader on *)

(** The surroundings without any primitive reader: what a primitive reader
    itself calls the thread context with.  The interval of a time setting
    is the shutter interval moved to the frame, [motionStart + frame] to
    [motionEnd + frame], sums of floats; without motion blur it is the
    frame alone. *)
Definition plainEnv : Env :=
  {| TimeSettings_start :=
       fun t => if motionBlur t then to_float (motionStart t + frame t) else frame t;
     TimeSettings_end :=
       fun t => if motionBlur t then to_float (motionEnd t + frame t) else frame t;
     TimeSettings_new := {| frame := 0; motionBlur := false; motionStart := 0; motionEnd := 0 |};
     AI_NODE_ALL := 65535; AI_NODE_CAMERA := 2; AI_NODE_LIGHT := 4; AI_NODE_SHAPE := 8;
     AI_NODE_SHADER := 16; AI_NODE_OPERATOR := 4096;
     AiNodeEntryGetType := fun type_ => if String.eqb type_ "polymesh" then 8%Z else 16%Z;
     AI_RAY_ALL := 255;
     GetPrimReader := fun _ _ => None;
     NewReaderRegistry := 0;
     SdfLayer_FindOrOpen := fun _ => None;
     SdfLayer_ImportFromString := fun _ => true;
     UsdStage_Open := fun _ _ => None;
     UsdStageCache_Find := fun _ => None |}.

(** A shader reader: one node, named after the prim, that keeps the names of
    the primvars the prim inherits. *)
Definition shaderReader : UsdArnoldPrimReader :=
  {| GetType := 16;
     Read := fun prim context_ st =>
       let '(node, st) := CreateArnoldNode (H := plainEnv) "standard_surface" (p_path prim) st in
       t_arnold (AiNodeSetArray node "primvars"
                   (AiArray_STRING (map fst (GetPrimvars context_ st)))) st |}.

(** A mesh reader: one node, named after the prim, its matrix, and an array
    connection to the shaders the prim lists. *)
Definition meshReader : UsdArnoldPrimReader :=
  {| GetType := 8;
     Read := fun prim context_ st =>
       let '(node, st) := CreateArnoldNode (H := plainEnv) "polymesh" (p_path prim) st in
       let st := ReadMatrix (H := plainEnv) prim node (_time (t_reader st)) context_
                            (p_isXformable prim) st in
       match GetAttribute prim "shaders" with
       | Some (VtString shaders) =>
           AddConnection (H := plainEnv) node "shader" shaders CONNECTION_ARRAY "" st
       | _ => st
       end |}.

Definition sceneEnv (stage : UsdStage) : Env :=
  {| TimeSettings_start := TimeSettings_start (Env := plainEnv);
     TimeSettings_end := TimeSettings_end (Env := plainEnv);
     TimeSettings_new := TimeSettings_new (Env := plainEnv);
     AI_NODE_ALL := 65535; AI_NODE_CAMERA := 2; AI_NODE_LIGHT := 4; AI_NODE_SHAPE := 8;
     AI_NODE_SHADER := 16; AI_NODE_OPERATOR := 4096;
     AiNodeEntryGetType := AiNodeEntryGetType (Env := plainEnv);
     AI_RAY_ALL := 255;
     GetPrimReader := fun _ objType =>
       if String.eqb objType "Shader" then Some shaderReader
       else if String.eqb objType "Mesh" then Some meshReader
       else None;
     NewReaderRegistry := 0;
     SdfLayer_FindOrOpen := fun filename =>
       if String.eqb filename "scene.usda" then Some filename else None;
     SdfLayer_ImportFromString := fun _ => true;
     UsdStage_Open := fun layer _ =>
       match layer with Some _ => Some stage | None => None end;
     UsdStageCache_Find := fun id => if (id =? 7)%Z then Some stage else None |}.

Definition mkPrim (path typeName : string) (visibility : option TfToken)
    (primvars : list UsdGeomPrimvar) (attributes : list (string * VtValue)) : UsdPrim :=
  {| p_path := path; p_typeName := typeName; p_active := true;
     p_instanceable := false; p_prototype := None; p_isPrototype := false;
     p_isImageable := negb (String.eqb typeName ""); p_isXformable := negb (String.eqb typeName "");
     p_isCamera := false;
     p_visibility := visibility; p_purpose := None;
     p_computedVisibility := default "inherited" visibility;
     p_primvars := primvars;
     p_timeVarying := false; p_timeSamples := [];
     p_localToWorld := fun _ => identity_matrix;
     p_localTransformation := fun _ => None;
     p_attributes := attributes |}.

Definition emptyArnold : Arnold :=
  {| a_nodes := []; a_nextNode := 0; a_nextCritSec := 1; a_log := [] |}.

Definition startWorld `{Env} : World :=
  {| arnold := emptyArnold;
     globals := {| s_readerRegistry := None; s_anonymousOverrideCounter := 0;
                   s_globalReaderMutex := 0 |};
     reader := NewUsdArnoldReader;
     readStepWrites := [] |}.

(** Three shaders are listed by a mesh; [/b] is visible, [/a] is invisible,
    and there is no [/c]. *)
Definition arrayStage : UsdStage :=
  {| s_pseudoRoot :=
       PrimNode (mkPrim "/" "" None [] [])
         [ PrimNode (mkPrim "/mesh" "Mesh" None [] [("shaders", VtString "/a /b /c")]) [];
           PrimNode (mkPrim "/a" "Shader" (Some "invisible") [] []) [];
           PrimNode (mkPrim "/b" "Shader" None [] []) [] ];
     s_prototypes := [] |}.

(** An invisible prim that authors a primvar, followed by a sibling that
    authors none. *)
Definition prunedStage : UsdStage :=
  {| s_pseudoRoot :=
       PrimNode (mkPrim "/" "" None [] [])
         [ PrimNode (mkPrim "/root" "Shader" None [] [])
             [ PrimNode (mkPrim "/root/hidden" "Shader" (Some "invisible")
                                [("displayColor", "red")] []) [];
               PrimNode (mkPrim "/root/sibling" "Shader" None [] []) [] ] ];
     s_prototypes := [] |}.

(** The scene with the three listed shaders, read from a fresh reader. *)
Definition arrayWorld : World :=
  ReadStage (H := sceneEnv arrayStage) (Some arrayStage) ""
            (startWorld (H := sceneEnv arrayStage)).

(** The state the dangling step starts in for the three shaders: the mesh
    and [/b] have their nodes (0 and 1), [/a] has none. *)
Definition arrayDanglingState : TState :=
  let env := sceneEnv arrayStage in
  let w :=
    assign_readStep READ_DANGLING_CONNECTIONS
      (on_reader (fun r => set_registry (Some 0) (set_stage (Some arrayStage) r))
                 (startWorld (H := env))) in
  let st := {| world := w; tctx := set_tc_primvarsStack [[]] NewThreadContext |} in
  let '(_, st) := CreateArnoldNode (H := env) "polymesh" "/mesh" st in
  snd (CreateArnoldNode (H := env) "standard_surface" "/b" st).

Definition arrayConnection : Connection :=
  {| sourceNode := 0; sourceAttr := "shader"; target := "/a /b /c";
     type := CONNECTION_ARRAY; outputElement := "" |}.

(** The same nodes in the step before, the connection stacked. *)
Definition arrayStrictState : TState :=
  {| world := on_reader (set_readStep READ_PROCESS_CONNECTIONS) (world arrayDanglingState);
     tctx := set_tc_connections [arrayConnection] (tctx arrayDanglingState) |}.

(** A link from the red component of [/a] to [base_color] of [/b]. *)
Definition linkConnection : Connection :=
  {| sourceNode := 1; sourceAttr := "base_color"; target := "/a";
     type := CONNECTION_LINK; outputElement := "outputs:r" |}.

Definition linkState : TState := {| world := arrayWorld; tctx := NewThreadContext |}.

(** A prim whose transform has six time samples, doubles.  Four of them are
    strictly inside the shutter interval around frame 0, whose bounds are
    the floats nearest to -0.1 and 0.1: the double nearest to 0.1 is below
    the float. *)
Definition spinningPrim : UsdPrim :=
  {| p_path := "/spinner"; p_typeName := "Mesh"; p_active := true;
     p_instanceable := false; p_prototype := None; p_isPrototype := false;
     p_isImageable := true; p_isXformable := true; p_isCamera := false;
     p_visibility := None; p_purpose := None; p_computedVisibility := "inherited";
     p_primvars := [];
     p_timeVarying := true;
     p_timeSamples := map to_double [-2 # 10; -5 # 100; 0; 5 # 100; 1 # 10; 3 # 10]%Q;
     p_localToWorld := fun _ => identity_matrix;
     p_localTransformation := fun _ => None;
     p_attributes := [] |}.

Definition shutterTime : TimeSettings :=
  {| frame := 0; motionBlur := true;
     motionStart := to_float (-1 # 10); motionEnd := to_float (1 # 10) |}.

Definition spinningState : TState :=
  snd (CreateArnoldNode (H := plainEnv) "polymesh" "/spinner"
         {| world := on_reader (set_time shutterTime) (startWorld (H := plainEnv));
            tctx := NewThreadContext |}).

(** A prim with 254 time samples, all of them strictly inside the shutter
    interval around frame 0. *)
Definition crowdedPrim : UsdPrim :=
  {| p_path := "/spinner"; p_typeName := "Mesh"; p_active := true;
     p_instanceable := false; p_prototype := None; p_isPrototype := false;
     p_isImageable := true; p_isXformable := true; p_isCamera := false;
     p_visibility := None; p_purpose := None; p_computedVisibility := "inherited";
     p_primvars := [];
     p_timeVarying := true;
     p_timeSamples := map (fun k => to_double (Z.of_nat k # 10000)) (seq 1 254);
     p_localToWorld := fun _ => identity_matrix;
     p_localTransformation := fun _ => None;
     p_attributes := [] |}.

(** The same shutter at frame 1, and the state of a reader at that frame. *)
Definition laterTime : TimeSettings :=
  {| frame := 1; motionBlur := true;
     motionStart := to_float (-1 # 10); motionEnd := to_float (1 # 10) |}.

Definition laterState : TState :=
  snd (CreateArnoldNode (H := plainEnv) "polymesh" "/spinner"
         {| world := on_reader (set_time laterTime) (startWorld (H := plainEnv));
            tctx := NewThreadContext |}).

(** The stage of [prunedStage] with the hidden prim made visible. *)
Definition visibleStage : UsdStage :=
  {| s_pseudoRoot :=
       PrimNode (mkPrim "/" "" None [] [])
         [ PrimNode (mkPrim "/root" "Shader" None [] [])
             [ PrimNode (mkPrim "/root/hidden" "Shader" None
                                [("displayColor", "red")] []) [];
               PrimNode (mkPrim "/root/sibling" "Shader" None [] []) [] ] ];
     s_prototypes := [] |}.

(** The single worker of a read of the whole stage: its thread data, the
    state it starts in, the state it ends in, and where it is after [n]
    turns of its loop. *)
Definition wholeStage : UsdThreadData :=
  {| threadId := 0; threadCount := 1; rootPrim := None; context := NewReaderContext |}.

Definition traversal_start (stage : UsdStage) : TState :=
  let env := sceneEnv stage in
  new_thread_context
    (assign_readStep READ_TRAVERSE
       (select_registry (H := env)
          (on_reader (set_stage (Some stage)) (startWorld (H := env))))).

Definition traverse_stage (stage : UsdStage) : TState :=
  ReaderThread (H := sceneEnv stage) wholeStage (traversal_start stage).

Definition traverse_turns (stage : UsdStage) (n : nat) : list Visit * nat * TState :=
  ReaderThread_turns (H := sceneEnv stage) n wholeStage
    (PreAndPostVisit (s_pseudoRoot stage)) 0
    (on_tctx (set_tc_primvarsStack [[]]) (traversal_start stage)).

(** The stops an iterator has left, by path. *)
Definition stops (iter : list Visit) : list (string * bool) :=
  map (fun v => (p_path (v_prim v), v_isPostVisit v)) iter.

(** * Properties *)

(** ** Lookups in the node store *)

Lemma node_data_None a n :
  node_data a n = None <-> Forall (fun e => fst e ≠ n) (a_nodes a).
Proof.
  unfold node_data. induction (a_nodes a) as [|e l IH]; cbn.
  - split; [constructor | reflexivity].
  - destruct (Nat.eqb_spec (fst e) n) as [Heq|Hne]; cbn.
    + split; [intros Hs; inversion Hs | intros Hall; inversion Hall; contradiction].
    + rewrite IH. split; [intros; constructor; assumption | intros Hall; inversion Hall; assumption].
Qed.

Lemma node_data_destroy_same a n : node_data (AiNodeDestroy n a) n = None.
Proof.
  apply node_data_None. unfold AiNodeDestroy; simpl.
  apply Forall_forall. intros e He.
  apply list_elem_of_filter in He. tauto.
Qed.

Lemma node_data_destroy_other a n m :
  m ≠ n -> node_data (AiNodeDestroy n a) m = node_data a m.
Proof.
  intros Hne. unfold node_data, AiNodeDestroy; simpl.
  induction (a_nodes a) as [|e l IH]; [reflexivity|].
  rewrite filter_cons. destruct (decide (fst e ≠ n)) as [Hk|Hk]; simpl.
  - destruct (fst e =? m)%nat; [reflexivity | exact IH].
  - destruct (Nat.eqb_spec (fst e) m) as [Heq|_]; [|exact IH].
    exfalso. apply Hk. congruence.
Qed.

Lemma node_data_destroy_None a n m :
  node_data a m = None -> node_data (AiNodeDestroy n a) m = None.
Proof.
  intros Hm. destruct (decide (m = n)) as [->|Hne].
  - apply node_data_destroy_same.
  - rewrite node_data_destroy_other; assumption.
Qed.

Lemma destroy_all_None l : forall a m,
  node_data a m = None ->
  node_data (fold_left (fun a n => AiNodeDestroy n a) l a) m = None.
Proof.
  induction l as [|n l IH]; intros a m Hm; simpl; [assumption|].
  apply IH, node_data_destroy_None, Hm.
Qed.

Lemma destroy_all_member l : forall a n,
  n ∈ l -> node_data (fold_left (fun a n => AiNodeDestroy n a) l a) n = None.
Proof.
  induction l as [|m l IH]; intros a n Hin; simpl.
  - inversion Hin.
  - destruct (decide (n = m)) as [->|Hne].
    + apply destroy_all_None, node_data_destroy_same.
    + apply IH. inversion Hin; subst; [contradiction | assumption].
Qed.

Lemma destroy_all_other l : forall a n,
  n ∉ l -> node_data (fold_left (fun a n => AiNodeDestroy n a) l a) n = node_data a n.
Proof.
  induction l as [|m l IH]; intros a n Hin; simpl; [reflexivity|].
  rewrite IH.
  - apply node_data_destroy_other. intros ->. apply Hin. left.
  - intros Hl. apply Hin. right. exact Hl.
Qed.

(** A node update that keeps what a lookup reads: the universe, the name
    and the parent of the node. *)
Definition keeps_identity (f : AtNodeData -> AtNodeData) : Prop :=
  forall d, n_universe (f d) = n_universe d /\ n_name (f d) = n_name d /\
            n_parent (f d) = n_parent d.

Lemma node_with_param_keeps attr v : keeps_identity (node_with_param attr v).
Proof. intros d. repeat split. Qed.

Lemma node_with_link_keeps attr l : keeps_identity (node_with_link attr l).
Proof. intros d. repeat split. Qed.

Lemma node_data_update_node f n a m :
  node_data (update_node f n a) m =
  if decide (m = n) then f <$> node_data a m else node_data a m.
Proof.
  unfold node_data, update_node; simpl.
  induction (a_nodes a) as [|e l IH]; cbn.
  - destruct (decide (m = n)); reflexivity.
  - destruct (Nat.eqb_spec (fst e) n) as [Hen|Hen]; cbn.
    + destruct (Nat.eqb_spec (fst e) m) as [Hem|Hem]; cbn.
      * rewrite decide_True by congruence. reflexivity.
      * exact IH.
    + destruct (Nat.eqb_spec (fst e) m) as [Hem|Hem]; cbn.
      * rewrite decide_False by congruence. reflexivity.
      * exact IH.
Qed.

Lemma lookup_by_name_update_node f n a u name parent :
  keeps_identity f ->
  AiNodeLookUpByName u name parent (update_node f n a) = AiNodeLookUpByName u name parent a.
Proof.
  intros Hf. unfold AiNodeLookUpByName, update_node; simpl.
  induction (a_nodes a) as [|e l IH]; cbn; [reflexivity|].
  destruct (Nat.eqb_spec (fst e) n) as [Hen|Hen]; cbn.
  - destruct (Hf (snd e)) as (-> & -> & _).
    destruct (bool_decide _); cbn; [reflexivity | exact IH].
  - destruct (bool_decide _); cbn; [reflexivity | exact IH].
Qed.

Lemma get_parent_update_node f n a m :
  keeps_identity f ->
  AiNodeGetParent m (update_node f n a) = AiNodeGetParent m a.
Proof.
  intros Hf. unfold AiNodeGetParent. rewrite node_data_update_node.
  destruct (decide (m = n)); [|reflexivity].
  destruct (node_data a m) as [d|]; cbn; [|reflexivity].
  apply (Hf d).
Qed.

Lemma param_of_set n attr v a d :
  node_data a n = Some d -> param_of (AiNodeSet n attr v a) n attr = Some v.
Proof.
  intros Hd. unfold param_of, AiNodeSet. rewrite node_data_update_node.
  rewrite decide_True by reflexivity. rewrite Hd. cbn.
  apply lookup_insert_eq.
Qed.

Lemma param_of_set_other n attr attr' v a m :
  attr ≠ attr' -> param_of (AiNodeSet n attr v a) m attr' = param_of a m attr'.
Proof.
  intros Hne. unfold param_of, AiNodeSet. rewrite node_data_update_node.
  destruct (decide (m = n)); [|reflexivity].
  destruct (node_data a m) as [d|]; cbn; [|reflexivity].
  apply lookup_insert_ne, Hne.
Qed.

Lemma node_data_set n attr v a m :
  is_Some (node_data (AiNodeSet n attr v a) m) <-> is_Some (node_data a m).
Proof.
  unfold AiNodeSet. rewrite node_data_update_node.
  destruct (decide (m = n)); [|reflexivity].
  rewrite fmap_is_Some. reflexivity.
Qed.

Lemma link_of_update n attr l a d :
  node_data a n = Some d ->
  link_of (update_node (node_with_link attr (Some l)) n a) n attr = Some l.
Proof.
  intros Hd. unfold link_of. rewrite node_data_update_node.
  rewrite decide_True by reflexivity. rewrite Hd. cbn.
  apply lookup_insert_eq.
Qed.

Section Properties.
Context `{Env}.

(** ** Read on a reader that already has nodes *)

(** C5. When the node list of the reader is not empty, both overloads of
    Read return at once: Arnold, the statics and every field of the reader
    are as they were. *)
Theorem Read_with_nodes_is_noop (w : World) :
  _nodes (reader w) ≠ [] ->
  forall (filename : string) (overrides : option (list string)) (path : string)
         (cacheId : Z),
    Read_file filename overrides path w = w /\ Read_cache cacheId path w = w.
Proof.
  intros Hnodes filename overrides path cacheId.
  unfold Read_file, Read_cache.
  destruct (_nodes (reader w)) as [|n l]; [contradiction|].
  split; reflexivity.
Qed.

(** ** The setters that invalidate the nodes *)

(** What ClearNodes leaves of a world [w]: no node in the list, no default
    shader; the listed nodes destroyed and the others kept when there is no
    procedural parent, Arnold untouched when there is one. *)
Definition nodes_cleared (w w' : World) : Prop :=
  _nodes (reader w') = [] /\
  _defaultShader (reader w') = None /\
  match _procParent (reader w) with
  | None =>
      (forall n, n ∈ _nodes (reader w) -> node_data (arnold w') n = None) /\
      (forall n, n ∉ _nodes (reader w) -> node_data (arnold w') n = node_data (arnold w) n)
  | Some _ => arnold w' = arnold w
  end.

Lemma ClearNodes_cleared (w : World) : nodes_cleared w (ClearNodes w).
Proof.
  unfold nodes_cleared, ClearNodes.
  destruct (_procParent (reader w)) eqn:Hp; simpl.
  - repeat split.
  - repeat split.
    + intros n Hn. apply destroy_all_member, Hn.
    + intros n Hn. apply destroy_all_other, Hn.
Qed.

Lemma nodes_cleared_on_reader (f : UsdArnoldReader -> UsdArnoldReader) (w w' : World) :
  (forall r, _nodes (f r) = _nodes r) ->
  (forall r, _defaultShader (f r) = _defaultShader r) ->
  nodes_cleared w w' -> nodes_cleared w (on_reader f w').
Proof.
  intros Hn Hd (H1 & H2 & H3). unfold nodes_cleared; simpl.
  rewrite Hn, Hd. repeat split; assumption.
Qed.

(** C6. SetFrame, SetMotionBlur, SetDebug and SetConvertPrimitives each
    leave the reader with an empty node list and no default shader, the
    nodes of the former list destroyed when there is no procedural parent,
    and with the new setting stored. *)
Theorem setters_clear_nodes (w : World) :
  (forall f,
      nodes_cleared w (SetFrame f w) /\
      frame (_time (reader (SetFrame f w))) = f) /\
  (forall mb ms me,
      nodes_cleared w (SetMotionBlur mb ms me w) /\
      motionBlur (_time (reader (SetMotionBlur mb ms me w))) = mb /\
      motionStart (_time (reader (SetMotionBlur mb ms me w))) = ms /\
      motionEnd (_time (reader (SetMotionBlur mb ms me w))) = me) /\
  (forall b,
      nodes_cleared w (SetDebug b w) /\ _debug (reader (SetDebug b w)) = b) /\
  (forall b,
      nodes_cleared w (SetConvertPrimitives b w) /\
      _convert (reader (SetConvertPrimitives b w)) = b).
Proof.
  pose proof (ClearNodes_cleared w) as Hc.
  repeat split; try reflexivity;
    unfold SetFrame, SetMotionBlur, SetDebug, SetConvertPrimitives;
    apply nodes_cleared_on_reader; auto.
Qed.

(** ** Connections added outside the traversal and the dangling step *)

(** C10. A connection added while the read step is neither READ_TRAVERSE nor
    READ_DANGLING_CONNECTIONS is dropped: the state is unchanged. *)
Theorem AddConnection_dropped_in_other_steps
    (source : AtNode) (attr target_ : string) (type_ : ConnectionType)
    (outputElement_ : string) (st : TState) :
  _readStep (t_reader st) ≠ READ_TRAVERSE ->
  _readStep (t_reader st) ≠ READ_DANGLING_CONNECTIONS ->
  AddConnection source attr target_ type_ outputElement_ st = st.
Proof.
  intros Ht Hd. unfold AddConnection.
  rewrite !bool_decide_eq_false_2 by assumption. reflexivity.
Qed.

(** ** Links to an output component *)

(** The output element [elem] names the component [c]: it is longer than one
    character, ends with a colon followed by [c], and [c] is one of x, y, z,
    r, g, b, a. *)
Definition names_component (elem : string) (c : ascii) : Prop :=
  1 < String.length elem /\
  String.get (String.length elem - 2) elem = Some ":"%char /\
  String.get (String.length elem - 1) elem = Some c /\
  c ∈ ["x"; "y"; "z"; "r"; "g"; "b"; "a"]%char.

Lemma string_get_lt (s : string) : forall n,
  n < String.length s -> exists c, String.get n s = Some c.
Proof.
  induction s as [|a s IH]; intros n Hn; simpl in *; [lia|].
  destruct n as [|n]; [eauto|]. apply IH. lia.
Qed.

Lemma supportedElems_find (c : ascii) :
  bool_decide (is_Some (String.index 0 (String c "") supportedElems)) =
  bool_decide (c ∈ ["x"; "y"; "z"; "r"; "g"; "b"; "a"]%char).
Proof.
  destruct c as [[] [] [] [] [] [] [] []]; vm_compute; reflexivity.
Qed.

Lemma isOutputComponent_spec (elem : string) :
  isOutputComponent elem = true <-> names_component elem (string_back elem).
Proof.
  unfold isOutputComponent, names_component.
  rewrite !andb_true_iff, Nat.ltb_lt, supportedElems_find, !bool_decide_eq_true.
  split.
  - intros [[Hlen Hcolon] Hc]. repeat split; try assumption.
    unfold string_back.
    destruct (string_get_lt elem (String.length elem - 1)) as [c' ->]; [lia|].
    reflexivity.
  - intros (Hlen & Hcolon & _ & Hc). repeat split; assumption.
Qed.

Lemma names_component_back (elem : string) (c : ascii) :
  names_component elem c -> string_back elem = c.
Proof. intros (_ & _ & Hget & _). unfold string_back. rewrite Hget. reflexivity. Qed.

(** C7. For a Link connection whose target node exists: when the output
    element names a component, the component alone is linked to the source
    attribute (AiNodeLinkOutput); for any other output element the whole
    output of the target is linked (AiNodeLink).  On a live source node the
    attribute is then linked accordingly. *)
Theorem Link_binds_component_or_whole (connection : Connection) (st : TState)
    (node : AtNode) :
  type connection = CONNECTION_LINK ->
  LookupNode (target connection) true (world st) = Some node ->
  let src := sourceNode connection in
  let attr := sourceAttr connection in
  let elem := outputElement connection in
  (forall c, names_component elem c ->
     ProcessConnection connection st =
       (true, t_arnold (AiNodeLinkOutput node (String c "") src attr) st) /\
     (is_Some (node_data (arnold (world st)) src) ->
      link_of (arnold (world (snd (ProcessConnection connection st)))) src attr
        = Some (LinkOutput node (String c "")))) /\
  ((forall c, ~ names_component elem c) ->
     ProcessConnection connection st =
       (true, t_arnold (AiNodeLink node attr src) st) /\
     (is_Some (node_data (arnold (world st)) src) ->
      link_of (arnold (world (snd (ProcessConnection connection st)))) src attr
        = Some (LinkNode node))).
Proof.
  intros Hty Hlook src attr elem.
  assert (Hpc : ProcessConnection connection st =
                if isOutputComponent elem
                then (true, t_arnold (AiNodeLinkOutput node (String (string_back elem) "")
                                        src attr) st)
                else (true, t_arnold (AiNodeLink node attr src) st)).
  { unfold ProcessConnection. rewrite Hty, Hlook.
    rewrite bool_decide_eq_false_2 by discriminate. reflexivity. }
  split.
  - intros c Hc.
    assert (Hb : string_back elem = c) by (apply names_component_back, Hc).
    assert (Ho : isOutputComponent elem = true).
    { apply isOutputComponent_spec. rewrite Hb. exact Hc. }
    rewrite Hpc, Ho, Hb. split; [reflexivity|].
    intros [d Hd]. simpl. unfold AiNodeLinkOutput. eapply link_of_update, Hd.
  - intros Hnone.
    assert (Ho : isOutputComponent elem = false).
    { destruct (isOutputComponent elem) eqn:E; [|reflexivity].
      apply isOutputComponent_spec in E. destruct (Hnone _ E). }
    rewrite Hpc, Ho. split; [reflexivity|].
    intros [d Hd]. simpl. unfold AiNodeLink. eapply link_of_update, Hd.
Qed.

(** ** The strict pass over array connections *)

Lemma LookupNode_update_node f n (w : World) name checkParent :
  keeps_identity f ->
  LookupNode name checkParent (on_arnold (update_node f n) w) =
  LookupNode name checkParent w.
Proof.
  intros Hf. unfold LookupNode; simpl.
  destruct (_nodeNames (reader w) !! name); [reflexivity|].
  rewrite lookup_by_name_update_node by assumption.
  destruct (AiNodeLookUpByName _ _ _ _); [|reflexivity].
  rewrite get_parent_update_node by assumption. reflexivity.
Qed.

(** Every name of the list resolves to a node. *)
Definition all_resolve (tokens : list string) (w : World) : Prop :=
  Forall (fun token => is_Some (LookupNode token true w)) tokens.

Lemma ProcessConnection_array_strict (step : ReadStep) (st : TState) :
  step ≠ READ_DANGLING_CONNECTIONS ->
  forall tokens vecNodes,
    (all_resolve tokens (world st) /\
     exists nodes, ProcessConnection_array step tokens vecNodes st = (Some nodes, st))
    \/
    (~ all_resolve tokens (world st) /\
     ProcessConnection_array step tokens vecNodes st = (None, st)).
Proof.
  intros Hstep tokens. unfold all_resolve.
  induction tokens as [|token rest IH]; intros vecNodes; simpl.
  - left. split; [constructor | eauto].
  - destruct (LookupNode token true (world st)) as [node|] eqn:Hl.
    + destruct (IH (vecNodes ++ [node])) as [[Hall Hex]|[Hnot Heq]].
      * left. split; [|exact Hex]. constructor; [rewrite Hl; eauto | exact Hall].
      * right. split; [|exact Heq]. intros Hall. inversion Hall; subst. tauto.
    + right. rewrite bool_decide_eq_false_2 by assumption.
      split; [|reflexivity].
      intros Hall. inversion Hall as [|? ? Hs _]; subst.
      rewrite Hl in Hs. destruct Hs as [? Hs]. discriminate Hs.
Qed.

(** Outside the dangling step, processing a connection only sets a
    parameter or a link: the reader, the thread context and every lookup are
    as before. *)
Lemma ProcessConnection_strict_frame (connection : Connection) (st : TState) :
  _readStep (t_reader st) ≠ READ_DANGLING_CONNECTIONS ->
  let st' := snd (ProcessConnection connection st) in
  t_reader st' = t_reader st /\ tctx st' = tctx st /\
  forall name checkParent,
    LookupNode name checkParent (world st') = LookupNode name checkParent (world st).
Proof.
  intros Hstep. unfold ProcessConnection.
  destruct (bool_decide (type connection = CONNECTION_ARRAY)).
  - destruct (ProcessConnection_array_strict (_readStep (t_reader st)) st Hstep
                (getline_tokens (target connection) "") [])
      as [[_ [nodes ->]]|[_ ->]]; simpl.
    + repeat split. intros. apply LookupNode_update_node, node_with_param_keeps.
    + repeat split.
  - rewrite bool_decide_eq_false_2 by assumption.
    destruct (LookupNode (target connection) true (world st)) as [node|]; simpl.
    + destruct (type connection); simpl.
      * destruct (isOutputComponent (outputElement connection)); simpl;
          (repeat split; intros; apply LookupNode_update_node, node_with_link_keeps).
      * repeat split. intros. apply LookupNode_update_node, node_with_param_keeps.
      * repeat split.
    + repeat split.
Qed.

Lemma ProcessConnections_loop_keeps (conn : Connection) (st0 : TState) :
  _readStep (t_reader st0) = READ_PROCESS_CONNECTIONS ->
  type conn = CONNECTION_ARRAY ->
  ~ all_resolve (getline_tokens (target conn) "") (world st0) ->
  forall connections danglingConnections st,
    t_reader st = t_reader st0 ->
    (forall name, LookupNode name true (world st) = LookupNode name true (world st0)) ->
    conn ∈ danglingConnections \/ conn ∈ connections ->
    conn ∈ fst (ProcessConnections_loop connections danglingConnections st).
Proof.
  intros Hstep Hty Hmiss connections.
  induction connections as [|c rest IH]; intros dangling st Hr Hl Hin; simpl.
  - destruct Hin as [Hin|Hin]; [exact Hin | inversion Hin].
  - assert (Hs : _readStep (t_reader st) ≠ READ_DANGLING_CONNECTIONS).
    { rewrite Hr, Hstep. discriminate. }
    pose proof (ProcessConnection_strict_frame c st Hs) as (Hr' & _ & Hl').
    destruct (ProcessConnection c st) as [ok st'] eqn:Hpc; simpl in *.
    apply IH.
    + congruence.
    + intros name. rewrite Hl'. apply Hl.
    + destruct Hin as [Hin|Hin].
      * left. destruct ok; [exact Hin | apply elem_of_app; left; exact Hin].
      * apply elem_of_cons in Hin as [Heqc|Hin'].
        -- subst c. left.
           assert (Hfalse : ok = false).
           { unfold ProcessConnection in Hpc.
             rewrite Hty, bool_decide_eq_true_2 in Hpc by reflexivity.
             destruct (ProcessConnection_array_strict (_readStep (t_reader st)) st Hs
                         (getline_tokens (target conn) "") [])
               as [[Hall _]|[_ Heq]].
             - exfalso. apply Hmiss. unfold all_resolve in *.
               eapply Forall_impl; [exact Hall|]. intros token Ht.
               simpl in Ht. rewrite Hl in Ht. exact Ht.
             - rewrite Heq in Hpc. congruence. }
           rewrite Hfalse. apply elem_of_app. right. constructor.
        -- right. exact Hin'.
Qed.

(** C2. In the READ_PROCESS_CONNECTIONS step an array connection is
    processed only when every name of its target list resolves; when a name
    is missing, the state is left as it was (nothing is set on the source
    attribute) and ProcessConnections keeps the connection in the list of the
    thread context, from which the dangling connections are collected. *)
Theorem strict_array_connection_all_or_nothing (connection : Connection) (st : TState) :
  type connection = CONNECTION_ARRAY ->
  _readStep (t_reader st) = READ_PROCESS_CONNECTIONS ->
  let tokens := getline_tokens (target connection) "" in
  (fst (ProcessConnection connection st) = true <-> all_resolve tokens (world st)) /\
  (~ all_resolve tokens (world st) ->
     ProcessConnection connection st = (false, st) /\
     (connection ∈ tc_connections (tctx st) ->
      connection ∈ tc_connections (tctx (ProcessConnections st)) /\
      connection ∈ fst (collect_dangling [tctx (ProcessConnections st)]))).
Proof.
  intros Hty Hstep tokens.
  assert (Hs : _readStep (t_reader st) ≠ READ_DANGLING_CONNECTIONS)
    by (rewrite Hstep; discriminate).
  assert (Hpc : (all_resolve tokens (world st) /\
                 fst (ProcessConnection connection st) = true) \/
                (~ all_resolve tokens (world st) /\
                 ProcessConnection connection st = (false, st))).
  { unfold ProcessConnection.
    rewrite Hty, bool_decide_eq_true_2 by reflexivity.
    destruct (ProcessConnection_array_strict (_readStep (t_reader st)) st Hs tokens [])
      as [[Hall [nodes Heq]]|[Hnot Heq]]; fold tokens; rewrite Heq.
    - left. split; [exact Hall | reflexivity].
    - right. split; [exact Hnot | reflexivity]. }
  split.
  - destruct Hpc as [[Hall Ht]|[Hnot Heq]].
    + tauto.
    + rewrite Heq. simpl. split; [discriminate | tauto].
  - intros Hnot. destruct Hpc as [[Hall _]|[_ Heq]]; [tauto|].
    split; [exact Heq|]. intros Hin.
    assert (Hkept : connection ∈ tc_connections (tctx (ProcessConnections st))).
    { unfold ProcessConnections.
      pose proof (ProcessConnections_loop_keeps connection st Hstep Hty Hnot
                    (tc_connections (tctx st)) []
                    (on_tctx (set_tc_primvarsStack [[]]) st)
                    eq_refl (fun _ => eq_refl) (or_intror Hin)) as Hloop.
      simpl in *.
      destruct (ProcessConnections_loop _ _ _) as [d st']. exact Hloop. }
    split; [exact Hkept|].
    unfold collect_dangling. simpl. rewrite app_nil_r. exact Hkept.
Qed.

(** ** The locks of a thread context *)

(** The thread context ReadStage hands to a worker of the traversal. *)
Definition traversal_context (w : World) : TState :=
  new_thread_context (assign_readStep READ_TRAVERSE (snd (start_dispatcher w))).

(** C9, as the claim has it: the locks would be engaged for every thread
    count other than 1. *)
Definition locks_engaged_unless_single (w : World) : Prop :=
  let st := traversal_context w in
  (is_Some (tc_createNodeLock (tctx st)) <-> _threadCount (reader w) ≠ 1) /\
  (is_Some (tc_addConnectionLock (tctx st)) <-> _threadCount (reader w) ≠ 1) /\
  (is_Some (tc_addNodeNameLock (tctx st)) <-> _threadCount (reader w) ≠ 1).

Lemma init_lock_log get set (st : TState) :
  a_log (arnold (world (init_lock get set st))) = a_log (arnold (world st)).
Proof. unfold init_lock. destruct (get (tctx st)); reflexivity. Qed.

Lemma traversal_context_locks (w : World) :
  _dispatcher (reader w) = None ->
  let t := tctx (traversal_context w) in
  if (_threadCount (reader w) =? 0)%nat
  then is_Some (tc_createNodeLock t) /\ is_Some (tc_addConnectionLock t) /\
       is_Some (tc_addNodeNameLock t)
  else tc_createNodeLock t = None /\ tc_addConnectionLock t = None /\
       tc_addNodeNameLock t = None.
Proof.
  intros Hd. unfold traversal_context, new_thread_context, start_dispatcher.
  destruct (_threadCount (reader w) =? 0)%nat; simpl.
  - repeat split; eexists; reflexivity.
  - rewrite Hd. repeat split.
Qed.

Lemma with_lock_log l body (st : TState) :
  (forall s, a_log (arnold (world (body s))) = a_log (arnold (world s))) ->
  a_log (arnold (world (with_lock l body st))) =
  a_log (arnold (world st)) ++
  match l with
  | Some cs => [EvCritSecEnter cs; EvCritSecLeave cs]
  | None => []
  end.
Proof.
  intros Hbody. unfold with_lock. destruct l as [cs|]; simpl.
  - rewrite Hbody. simpl. rewrite <- app_assoc. reflexivity.
  - rewrite Hbody, app_nil_r. reflexivity.
Qed.

Lemma CreateArnoldNode_log type_ name (st : TState) :
  a_log (arnold (world (snd (CreateArnoldNode type_ name st)))) =
  a_log (arnold (world st)) ++
  match tc_createNodeLock (tctx st) with
  | Some cs => [EvCritSecEnter cs; EvCritSecLeave cs]
  | None => []
  end.
Proof.
  unfold CreateArnoldNode. simpl.
  destruct (_ && _); simpl; rewrite with_lock_log; reflexivity.
Qed.

Lemma AddNodeName_log name node (st : TState) :
  a_log (arnold (world (AddNodeName name node st))) =
  a_log (arnold (world st)) ++
  match tc_addNodeNameLock (tctx st) with
  | Some cs => [EvCritSecEnter cs; EvCritSecLeave cs]
  | None => []
  end.
Proof. unfold AddNodeName. rewrite with_lock_log; reflexivity. Qed.

Lemma AddConnection_traverse_log source attr target_ type_ elem (st : TState) :
  _readStep (t_reader st) = READ_TRAVERSE ->
  a_log (arnold (world (AddConnection source attr target_ type_ elem st))) =
  a_log (arnold (world st)) ++
  match tc_addConnectionLock (tctx st) with
  | Some cs => [EvCritSecEnter cs; EvCritSecLeave cs]
  | None => []
  end.
Proof.
  intros Hstep. unfold AddConnection.
  rewrite bool_decide_eq_true_2 by assumption.
  rewrite with_lock_log; reflexivity.
Qed.

Lemma traversal_context_step (w : World) :
  _readStep (t_reader (traversal_context w)) = READ_TRAVERSE.
Proof.
  unfold traversal_context, new_thread_context, start_dispatcher, SetDispatcher.
  destruct (_threadCount (reader w) =? 0)%nat; simpl;
    destruct (_dispatcher (reader w)); reflexivity.
Qed.

(** What a call adds to the log between two states. *)
Definition logged (st st' : TState) (events : list Event) : Prop :=
  a_log (arnold (world st')) = a_log (arnold (world st)) ++ events.

(** C9, as the code has it. The three locks of a thread context are made by
    SetDispatcher, for a dispatcher that is not null, and ReadStage has a
    dispatcher exactly when the thread count is 0.  On the context of a
    traversal worker, CreateArnoldNode, AddConnection and AddNodeName enter
    and leave their lock when the thread count is 0, and take no lock for
    any other thread count: neither with one thread nor with several. *)
Theorem thread_context_locks_iff_dispatcher (w : World) :
  _dispatcher (reader w) = None ->
  let st := traversal_context w in
  (is_Some (tc_createNodeLock (tctx st)) <-> _threadCount (reader w) = 0) /\
  (is_Some (tc_addConnectionLock (tctx st)) <-> _threadCount (reader w) = 0) /\
  (is_Some (tc_addNodeNameLock (tctx st)) <-> _threadCount (reader w) = 0) /\
  (_threadCount (reader w) = 0 ->
     exists create connect name_,
       tc_createNodeLock (tctx st) = Some create /\
       tc_addConnectionLock (tctx st) = Some connect /\
       tc_addNodeNameLock (tctx st) = Some name_ /\
       (forall type_ name,
          logged st (snd (CreateArnoldNode type_ name st))
                 [EvCritSecEnter create; EvCritSecLeave create]) /\
       (forall source attr target_ type_ elem,
          logged st (AddConnection source attr target_ type_ elem st)
                 [EvCritSecEnter connect; EvCritSecLeave connect]) /\
       (forall name node,
          logged st (AddNodeName name node st)
                 [EvCritSecEnter name_; EvCritSecLeave name_])) /\
  (_threadCount (reader w) ≠ 0 ->
     (forall type_ name, logged st (snd (CreateArnoldNode type_ name st)) []) /\
     (forall source attr target_ type_ elem,
        logged st (AddConnection source attr target_ type_ elem st) []) /\
     (forall name node, logged st (AddNodeName name node st) [])).
Proof.
  intros Hd st.
  pose proof (traversal_context_locks w Hd) as Hlocks.
  pose proof (traversal_context_step w) as Hstep.
  fold st in Hlocks, Hstep. simpl in Hlocks.
  unfold logged.
  destruct (Nat.eqb_spec (_threadCount (reader w)) 0) as [Hz|Hnz].
  - destruct Hlocks as ([c Hc] & [a Ha] & [n Hn]).
    rewrite Hc, Ha, Hn.
    repeat split; eauto; try contradiction.
    exists c, a, n. repeat split; intros.
    + rewrite CreateArnoldNode_log, Hc. reflexivity.
    + rewrite AddConnection_traverse_log, Ha by assumption. reflexivity.
    + rewrite AddNodeName_log, Hn. reflexivity.
  - destruct Hlocks as (Hc & Ha & Hn).
    rewrite Hc, Ha, Hn.
    repeat split; try (intros [? Hs]; discriminate Hs); try contradiction; intros.
    + rewrite CreateArnoldNode_log, Hc. reflexivity.
    + rewrite AddConnection_traverse_log, Ha by assumption. reflexivity.
    + rewrite AddNodeName_log, Hn. reflexivity.
Qed.

(** ** The traversal reaches the end of the range *)

Lemma skip_children_length rest : forall d,
  length (skip_children d rest) <= length rest.
Proof.
  induction rest as [|v rest IH]; intros d; simpl; [lia|].
  destruct (v_isPostVisit v).
  - destruct d as [|d]; simpl; [lia|]. specialize (IH d). lia.
  - specialize (IH (S d)). lia.
Qed.

Lemma iter_increment_length pruned (v : Visit) (rest : list Visit) :
  length (iter_increment pruned (v :: rest)) <= length rest.
Proof.
  unfold iter_increment. destruct (pruned && _); [apply skip_children_length | lia].
Qed.

Lemma iter_increment_le pruned (iter : list Visit) :
  length (iter_increment pruned iter) <= length iter.
Proof.
  destruct iter as [|v rest]; [simpl; lia|].
  pose proof (iter_increment_length pruned v rest).
  change (length (v :: rest)) with (S (length rest)). lia.
Qed.

(** Every turn of the loop leaves fewer stops to visit. *)
Lemma ReaderThread_body_advances td (v : Visit) (rest : list Visit) index (st : TState) :
  length (fst (fst (ReaderThread_body td (v :: rest) index st))) <= length rest.
Proof.
  unfold ReaderThread_body.
  destruct (_ && _); [apply iter_increment_length|].
  destruct (v_isPostVisit v); [apply iter_increment_length|].
  destruct (pruneChildren _ _).
  - cbn [fst]. etransitivity; [apply iter_increment_le | apply iter_increment_length].
  - destruct (_ && _); apply iter_increment_length.
Qed.

(** As many turns as the range has stops take the iterator to its end. *)
Lemma ReaderThread_turns_end td : forall n (iter : list Visit) index (st : TState),
  length iter <= n -> fst (fst (ReaderThread_turns n td iter index st)) = [].
Proof.
  induction n as [|n IH]; intros iter index st Hn.
  - destruct iter; [reflexivity | simpl in Hn; lia].
  - destruct iter as [|v rest]; [reflexivity|]. cbn [ReaderThread_turns].
    pose proof (ReaderThread_body_advances td v rest index st) as Hb.
    destruct (ReaderThread_body td (v :: rest) index st) as [[iter' index'] st'].
    cbn [fst] in Hb. apply IH. simpl in Hn. lia.
Qed.

(** Turns past the end of the range change nothing: the result of the loop
    does not depend on the fuel, once there is enough of it. *)
Lemma ReaderThread_turns_enough td : forall n m (iter : list Visit) index (st : TState),
  length iter <= n -> length iter <= m ->
  ReaderThread_turns n td iter index st = ReaderThread_turns m td iter index st.
Proof.
  induction n as [|n IH]; intros m iter index st Hn Hm.
  - destruct iter; [destruct m; reflexivity | simpl in Hn; lia].
  - destruct iter as [|v rest]; [destruct m; reflexivity|].
    destruct m as [|m]; [simpl in Hm; lia|]. cbn [ReaderThread_turns].
    pose proof (ReaderThread_body_advances td v rest index st) as Hb.
    destruct (ReaderThread_body td (v :: rest) index st) as [[iter' index'] st'].
    cbn [fst] in Hb. simpl in Hn, Hm. apply IH; lia.
Qed.


(** ** The primvars stack of a traversal that prunes nothing *)

(** What the traversal relies on from one turn to the next: the stack of
    primvars, the read step and the purpose of the reader. *)
Definition stack_info (st : TState) : list (list UsdGeomPrimvar) * ReadStep * TfToken :=
  (tc_primvarsStack (tctx st), _readStep (t_reader st), _purpose (t_reader st)).

(** During the traversal a primitive reader reads the top of the stack, and
    leaves the stack and the settings of the reader as they are. *)
Definition readers_keep_stack : Prop :=
  forall registry objType primReader,
    GetPrimReader registry objType = Some primReader ->
    forall prim context_ st,
      _readStep (t_reader st) = READ_TRAVERSE ->
      stack_info (Read primReader prim context_ st) = stack_info st.

Lemma with_lock_stack l body (st : TState) :
  (forall s, stack_info (body s) = stack_info s) ->
  stack_info (with_lock l body st) = stack_info st.
Proof.
  intros Hbody. unfold with_lock. destruct l; [|apply Hbody].
  change (stack_info (body (t_arnold (AiCritSecEnter n) st)) = stack_info st).
  rewrite Hbody. reflexivity.
Qed.

Lemma GetXformCache_stack frame_ (st : TState) :
  stack_info (snd (GetXformCache frame_ st)) = stack_info st.
Proof.
  unfold GetXformCache.
  destruct (negb _ || _); [destruct (tc_xformCache (tctx st))|];
    try reflexivity; destruct (existsb _ _); reflexivity.
Qed.

Lemma getMatrix_stack prim frame_ isXformable (st : TState) :
  stack_info (snd (getMatrix prim frame_ isXformable st)) = stack_info st.
Proof.
  unfold getMatrix. pose proof (GetXformCache_stack frame_ st) as Hc.
  destruct (GetXformCache frame_ st) as [c st1]. exact Hc.
Qed.

Lemma ReadMatrix_keys_stack prim isXformable timeStep indices :
  forall timeVal array (st : TState),
    stack_info (snd (ReadMatrix_keys prim isXformable timeStep indices timeVal array st))
    = stack_info st.
Proof.
  induction indices as [|i rest IH]; intros timeVal array st; simpl; [reflexivity|].
  pose proof (getMatrix_stack prim timeVal isXformable st) as Hm.
  destruct (getMatrix prim timeVal isXformable st) as [m st1].
  rewrite IH. exact Hm.
Qed.

Lemma ReadMatrix_array_stack prim time isXformable (st : TState) :
  stack_info (snd (ReadMatrix_array prim time isXformable st)) = stack_info st.
Proof.
  unfold ReadMatrix_array. destruct (motionBlur time && _).
  - apply ReadMatrix_keys_stack.
  - pose proof (getMatrix_stack prim (frame time) isXformable st) as Hm.
    destruct (getMatrix prim (frame time) isXformable st) as [m st1]. exact Hm.
Qed.

Lemma ReadMatrix_stack prim node time context_ isXformable (st : TState) :
  stack_info (ReadMatrix prim node time context_ isXformable st) = stack_info st.
Proof.
  unfold ReadMatrix. destruct (c_matrix context_) as [m|].
  - destruct (1 <? AiArrayGetNumKeys m)%nat; reflexivity.
  - pose proof (ReadMatrix_array_stack prim time isXformable st) as Hm.
    destruct (ReadMatrix_array prim time isXformable st) as [m st1].
    destruct (1 <? AiArrayGetNumKeys m)%nat; exact Hm.
Qed.

Lemma CreateArnoldNode_stack type_ name (st : TState) :
  stack_info (snd (CreateArnoldNode type_ name st)) = stack_info st.
Proof.
  unfold CreateArnoldNode. simpl.
  destruct (_ && _); simpl; rewrite with_lock_stack; reflexivity.
Qed.

Lemma AddConnection_traverse_stack source attr target_ type_ elem (st : TState) :
  _readStep (t_reader st) = READ_TRAVERSE ->
  stack_info (AddConnection source attr target_ type_ elem st) = stack_info st.
Proof.
  intros Hstep. unfold AddConnection.
  rewrite bool_decide_eq_true_2 by assumption.
  apply with_lock_stack. reflexivity.
Qed.

Section ReadersKeepStack.
Hypothesis Hreaders : readers_keep_stack.

Lemma ReadPrimitive_prim_stack prim context_ (st : TState) :
  _readStep (t_reader st) = READ_TRAVERSE ->
  stack_info (ReadPrimitive_prim prim context_ st) = stack_info st.
Proof.
  intros Hstep. unfold ReadPrimitive_prim.
  destruct (_registry (t_reader st)) as [registry|]; simpl; [|reflexivity].
  destruct (GetPrimReader registry (p_typeName prim)) as [primReader|] eqn:Hr;
    [|reflexivity].
  destruct (negb _); [|reflexivity].
  set (st0 := if _debug (t_reader st) then _ else st).
  assert (H0 : stack_info st0 = stack_info st)
    by (subst st0; destruct (_debug (t_reader st)); reflexivity).
  assert (Hstep0 : forall s, stack_info s = stack_info st ->
                     _readStep (t_reader s) = READ_TRAVERSE).
  { intros s Hs. unfold stack_info in Hs.
    assert (Hr' : _readStep (t_reader s) = _readStep (t_reader st)) by congruence.
    rewrite Hr'. exact Hstep. }
  destruct (_dispatcher (t_reader st)).
  - pose proof (ReadMatrix_array_stack prim (_time (t_reader st)) (p_isXformable prim) st0)
      as Hm.
    destruct (ReadMatrix_array prim (_time (t_reader st)) (p_isXformable prim) st0)
      as [m st1].
    cbn [snd] in Hm.
    rewrite (Hreaders _ _ _ Hr); [congruence|].
    apply Hstep0. congruence.
  - rewrite (Hreaders _ _ _ Hr); [exact H0 | apply Hstep0, H0].
Qed.

Lemma ReadPrimitive_traverse_stack prim context_ isInstance (st : TState) :
  _readStep (t_reader st) = READ_TRAVERSE ->
  stack_info (ReadPrimitive prim context_ isInstance st) = stack_info st.
Proof.
  intros Hstep. unfold ReadPrimitive.
  destruct isInstance; [|apply ReadPrimitive_prim_stack, Hstep].
  destruct (p_prototype prim) as [proto|]; [|reflexivity].
  pose proof (CreateArnoldNode_stack "ginstance" (p_path prim) st) as Hc.
  destruct (CreateArnoldNode "ginstance" (p_path prim) st) as [ginstance st1].
  cbn [snd] in Hc.
  match goal with
  | |- stack_info (AddConnection _ _ _ _ _ ?s) = _ => set (st2 := s)
  end.
  assert (H2 : stack_info st2 = stack_info st).
  { subst st2. destruct (p_isXformable prim).
    - change (stack_info (ReadMatrix prim ginstance (_time (t_reader st)) context_ true st1)
              = stack_info st).
      rewrite ReadMatrix_stack. exact Hc.
    - exact Hc. }
  rewrite AddConnection_traverse_stack; [exact H2|].
  unfold stack_info in H2. inversion H2 as [[Hk Hr Hp]]. rewrite Hr. exact Hstep.
Qed.

(** The stop of a prim the traversal passes over: no type and not an
    instance. *)
Definition skipped (prim : UsdPrim) : bool :=
  String.eqb (p_typeName prim) "" && negb (p_instanceable prim).

Definition pre (prim : UsdPrim) : Visit := {| v_prim := prim; v_isPostVisit := false |}.
Definition post (prim : UsdPrim) : Visit := {| v_prim := prim; v_isPostVisit := true |}.

Lemma body_skipped td prim isPost rest index (st : TState) :
  skipped prim = true ->
  ReaderThread_body td ({| v_prim := prim; v_isPostVisit := isPost |} :: rest) index st
  = (rest, index, st).
Proof.
  intros Hs. unfold ReaderThread_body, skipped in *. cbn [v_prim v_isPostVisit].
  rewrite Hs. unfold iter_increment. rewrite andb_false_l. reflexivity.
Qed.

Lemma body_post td prim rest index (st : TState) :
  skipped prim = false ->
  ReaderThread_body td (post prim :: rest) index st
  = (rest, index,
     on_tctx (fun t => set_tc_primvarsStack (vec_pop_back (tc_primvarsStack t)) t) st).
Proof.
  intros Hs. unfold ReaderThread_body, skipped, post in *. cbn [v_prim v_isPostVisit].
  rewrite Hs. reflexivity.
Qed.

(** The pre-visit of a prim that is not pruned pushes one entry. *)
Lemma body_pre td prim rest index (st : TState) :
  skipped prim = false ->
  pruneChildren (_purpose (t_reader st)) prim = false ->
  _readStep (t_reader st) = READ_TRAVERSE ->
  exists index' st' entry,
    ReaderThread_body td (pre prim :: rest) index st = (rest, index', st') /\
    stack_info st' =
      (tc_primvarsStack (tctx st) ++ [entry], READ_TRAVERSE, _purpose (t_reader st)).
Proof.
  intros Hs Hp Hstep. unfold ReaderThread_body, skipped, pre in *.
  cbn [v_prim v_isPostVisit]. rewrite Hs.
  set (entry := match FindIncrementallyInheritablePrimvars prim _ with
                | [] => _ | _ => _ end).
  set (st1 := on_tctx (set_tc_primvarsStack (tc_primvarsStack (tctx st) ++ [entry])) st).
  assert (H1 : stack_info st1 =
               (tc_primvarsStack (tctx st) ++ [entry], READ_TRAVERSE, _purpose (t_reader st))).
  { rewrite <- Hstep. reflexivity. }
  change (_purpose (t_reader st1)) with (_purpose (t_reader st)). rewrite Hp.
  destruct ((1 <? threadCount td)%nat && _).
  - exists (S index), st1, entry. split; [reflexivity | exact H1].
  - eexists _, _, entry. split; [reflexivity|].
    rewrite ReadPrimitive_traverse_stack; [exact H1|].
    subst st1. exact Hstep.
Qed.

Lemma turns_step td n v rest index (st : TState) iter' index' st' :
  ReaderThread_body td (v :: rest) index st = (iter', index', st') ->
  ReaderThread_turns (S n) td (v :: rest) index st = ReaderThread_turns n td iter' index' st'.
Proof. intros Hb. cbn [ReaderThread_turns]. rewrite Hb. reflexivity. Qed.

(** No stop of the range is pruned. *)
Definition unpruned (purpose_ : TfToken) (range : list Visit) : Prop :=
  Forall (fun v => pruneChildren purpose_ (v_prim v) = false) range.

(** The turns over the range of a tree, followed by [rest], bring the
    iterator to [rest] and the stack back to what it was. *)
Definition restores_stack (td : UsdThreadData) (range : list Visit) : Prop :=
  forall rest index (st : TState) n,
    unpruned (_purpose (t_reader st)) range ->
    _readStep (t_reader st) = READ_TRAVERSE ->
    exists index' st',
      ReaderThread_turns (length range + n) td (range ++ rest) index st
      = ReaderThread_turns n td rest index' st' /\
      stack_info st' = stack_info st.

Lemma restores_stack_nil td : restores_stack td [].
Proof. intros rest index st n _ _. exists index, st. split; reflexivity. Qed.

Lemma restores_stack_app td r1 r2 :
  restores_stack td r1 -> restores_stack td r2 -> restores_stack td (r1 ++ r2).
Proof.
  intros H1 H2 rest index st n Hu Hstep.
  apply Forall_app in Hu as [Hu1 Hu2].
  destruct (H1 (r2 ++ rest) index st (length r2 + n) Hu1 Hstep) as (i1 & st1 & Ht1 & Hs1).
  assert (Hinfo : _purpose (t_reader st1) = _purpose (t_reader st) /\
                  _readStep (t_reader st1) = READ_TRAVERSE).
  { unfold stack_info in Hs1. inversion Hs1 as [[Hk Hr Hp]]. rewrite Hr. auto. }
  destruct Hinfo as [Hp1 Hr1].
  destruct (H2 rest i1 st1 n) as (i2 & st2 & Ht2 & Hs2); [rewrite Hp1; exact Hu2 | exact Hr1 |].
  exists i2, st2. split; [|congruence].
  rewrite length_app, <- !app_assoc, <- Nat.add_assoc. rewrite Ht1. exact Ht2.
Qed.

Lemma removelast_snoc {A} (l : list A) (x : A) : removelast (l ++ [x]) = l.
Proof. apply removelast_last. Qed.

Lemma stack_info_pop (st : TState) :
  stack_info (on_tctx (fun t => set_tc_primvarsStack (vec_pop_back (tc_primvarsStack t)) t) st)
  = (vec_pop_back (tc_primvarsStack (tctx st)), _readStep (t_reader st),
     _purpose (t_reader st)).
Proof. reflexivity. Qed.

Lemma restores_stack_tree td (t : PrimTree) : restores_stack td (PreAndPostVisit t).
Proof.
  induction t as [p children IH] using PrimTree_nested_ind.
  assert (Hc : restores_stack td
                 (flat_map (fun c => if p_active (tree_prim c)
                                     then PreAndPostVisit c else []) children)).
  { induction IH as [|c cs Hc _ IHcs]; cbn [flat_map]; [apply restores_stack_nil|].
    apply restores_stack_app; [|exact IHcs].
    destruct (p_active (tree_prim c)); [exact Hc | apply restores_stack_nil]. }
  cbn [PreAndPostVisit]. fold (pre p). fold (post p).
  set (inner := flat_map _ children) in *.
  intros rest index st n Hu Hstep.
  inversion Hu as [|v l Hpre Hu']; subst.
  apply Forall_app in Hu' as [Hinner _].
  replace (length (pre p :: inner ++ [post p]) + n)
    with (S (length inner + (1 + n))) by (simpl; rewrite length_app; simpl; lia).
  replace ((pre p :: inner ++ [post p]) ++ rest)
    with (pre p :: inner ++ (post p :: rest))
    by (simpl; rewrite <- app_assoc; reflexivity).
  destruct (skipped p) eqn:Hs.
  - rewrite (turns_step td _ _ _ _ _ _ _ _ (body_skipped td p false _ index st Hs)).
    destruct (Hc (post p :: rest) index st (1 + n) Hinner Hstep) as (i1 & st1 & Ht1 & Hs1).
    rewrite Ht1.
    rewrite (turns_step td _ _ _ _ _ _ _ _ (body_skipped td p true _ i1 st1 Hs)).
    exists i1, st1. split; [reflexivity | exact Hs1].
  - destruct (body_pre td p (inner ++ post p :: rest) index st Hs Hpre Hstep)
      as (i0 & st0 & entry & Hb0 & Hs0).
    rewrite (turns_step td _ _ _ _ _ _ _ _ Hb0).
    assert (Hinfo : _purpose (t_reader st0) = _purpose (t_reader st) /\
                    _readStep (t_reader st0) = READ_TRAVERSE /\
                    tc_primvarsStack (tctx st0) = tc_primvarsStack (tctx st) ++ [entry]).
    { unfold stack_info in Hs0. inversion Hs0 as [[Hk Hr Hp]]. auto. }
    destruct Hinfo as (Hp0 & Hr0 & Hk0).
    destruct (Hc (post p :: rest) i0 st0 (1 + n)) as (i1 & st1 & Ht1 & Hs1);
      [rewrite Hp0; exact Hinner | exact Hr0 |].
    rewrite Ht1.
    rewrite (turns_step td _ _ _ _ _ _ _ _ (body_post td p _ i1 st1 Hs)).
    eexists _, _. split; [reflexivity|].
    rewrite stack_info_pop.
    unfold stack_info in *. inversion Hs1 as [[Hk1 Hr1 Hp1]].
    rewrite Hk1, Hk0, Hr1, Hp1, Hr0, Hp0, Hstep.
    unfold vec_pop_back. rewrite removelast_snoc. reflexivity.
Qed.

(** A traversal that prunes no prim ends with the stack it began with: the
    first, empty entry alone. *)
Lemma unpruned_traversal_restores_stack td (st : TState) :
  _readStep (t_reader st) = READ_TRAVERSE ->
  unpruned (_purpose (t_reader st)) (ReaderThread_range td st) ->
  tc_primvarsStack (tctx (ReaderThread td st)) = [[]].
Proof.
  intros Hstep Hu. unfold ReaderThread, ReaderThread_loop.
  set (st0 := on_tctx (set_tc_primvarsStack [[]]) st).
  change (ReaderThread_range td st0) with (ReaderThread_range td st).
  assert (Hr : restores_stack td (ReaderThread_range td st)).
  { unfold ReaderThread_range.
    destruct (rootPrim td); [apply restores_stack_tree|].
    destruct (_stage (t_reader st)); [apply restores_stack_tree | apply restores_stack_nil]. }
  destruct (Hr [] 0 st0 0 Hu Hstep) as (i1 & st1 & Ht & Hs).
  rewrite Nat.add_0_r, app_nil_r in Ht. rewrite Ht. cbn.
  unfold stack_info in Hs.
  assert (Hk : tc_primvarsStack (tctx st1) = tc_primvarsStack (tctx st0)) by congruence.
  exact Hk.
Qed.

End ReadersKeepStack.


(** ** The read step *)

(** What is known of the read step in a world: the assignments made so far
    and the current value. *)
Definition step_info (w : World) : list ReadStep * ReadStep :=
  (readStepWrites w, _readStep (reader w)).

Definition t_step_info (st : TState) : list ReadStep * ReadStep :=
  step_info (world st).

(** A primitive reader reaches the reader through its public interface, which
    has no way to set the read step. *)
Definition readers_keep_readStep : Prop :=
  forall registry objType primReader,
    GetPrimReader registry objType = Some primReader ->
    forall prim context_ st,
      t_step_info (Read primReader prim context_ st) = t_step_info st.

Lemma with_lock_step l body (st : TState) :
  (forall s, t_step_info (body s) = t_step_info s) ->
  t_step_info (with_lock l body st) = t_step_info st.
Proof.
  intros Hbody. unfold with_lock. destruct l; [|apply Hbody].
  change (t_step_info (body (t_arnold (AiCritSecEnter n) st)) = t_step_info st).
  rewrite Hbody. reflexivity.
Qed.

Lemma GetXformCache_step frame_ (st : TState) :
  t_step_info (snd (GetXformCache frame_ st)) = t_step_info st.
Proof.
  unfold GetXformCache.
  destruct (negb _ || _); [destruct (tc_xformCache (tctx st))|];
    try reflexivity; destruct (existsb _ _); reflexivity.
Qed.

Lemma getMatrix_step prim frame_ isXformable (st : TState) :
  t_step_info (snd (getMatrix prim frame_ isXformable st)) = t_step_info st.
Proof.
  unfold getMatrix. pose proof (GetXformCache_step frame_ st) as Hc.
  destruct (GetXformCache frame_ st) as [c st1]. exact Hc.
Qed.

Lemma ReadMatrix_keys_step prim isXformable timeStep indices :
  forall timeVal array (st : TState),
    t_step_info (snd (ReadMatrix_keys prim isXformable timeStep indices timeVal array st))
    = t_step_info st.
Proof.
  induction indices as [|i rest IH]; intros timeVal array st; simpl; [reflexivity|].
  pose proof (getMatrix_step prim timeVal isXformable st) as Hm.
  destruct (getMatrix prim timeVal isXformable st) as [m st1].
  rewrite IH. exact Hm.
Qed.

Lemma ReadMatrix_array_step prim time isXformable (st : TState) :
  t_step_info (snd (ReadMatrix_array prim time isXformable st)) = t_step_info st.
Proof.
  unfold ReadMatrix_array. destruct (motionBlur time && _).
  - apply ReadMatrix_keys_step.
  - pose proof (getMatrix_step prim (frame time) isXformable st) as Hm.
    destruct (getMatrix prim (frame time) isXformable st) as [m st1]. exact Hm.
Qed.

Lemma ReadMatrix_step prim node time context_ isXformable (st : TState) :
  t_step_info (ReadMatrix prim node time context_ isXformable st) = t_step_info st.
Proof.
  unfold ReadMatrix. destruct (c_matrix context_) as [m|].
  - destruct (1 <? AiArrayGetNumKeys m)%nat; reflexivity.
  - pose proof (ReadMatrix_array_step prim time isXformable st) as Hm.
    destruct (ReadMatrix_array prim time isXformable st) as [m st1].
    destruct (1 <? AiArrayGetNumKeys m)%nat; exact Hm.
Qed.

Lemma CreateArnoldNode_step type_ name (st : TState) :
  t_step_info (snd (CreateArnoldNode type_ name st)) = t_step_info st.
Proof.
  unfold CreateArnoldNode. simpl.
  destruct (_ && _); simpl; rewrite with_lock_step; reflexivity.
Qed.

Lemma AddNodeName_step name node (st : TState) :
  t_step_info (AddNodeName name node st) = t_step_info st.
Proof. unfold AddNodeName. apply with_lock_step. reflexivity. Qed.

Section ReadersKeepStep.
Hypothesis Hreaders : readers_keep_readStep.

Lemma ReadPrimitive_prim_step prim context_ (st : TState) :
  t_step_info (ReadPrimitive_prim prim context_ st) = t_step_info st.
Proof.
  unfold ReadPrimitive_prim.
  destruct (_registry (t_reader st)) as [registry|]; simpl; [|reflexivity].
  destruct (GetPrimReader registry (p_typeName prim)) as [primReader|] eqn:Hr;
    [|reflexivity].
  destruct (negb _); [|reflexivity].
  destruct (_dispatcher (t_reader st)).
  - match goal with
    | |- context [ReadMatrix_array ?p ?t ?x ?s] =>
        pose proof (ReadMatrix_array_step p t x s) as Hm;
        destruct (ReadMatrix_array p t x s) as [m st1]
    end.
    simpl in Hm. rewrite (Hreaders _ _ _ Hr), Hm.
    destruct (_debug (t_reader st)); reflexivity.
  - rewrite (Hreaders _ _ _ Hr). destruct (_debug (t_reader st)); reflexivity.
Qed.

Lemma force_export_step prim (st : TState) :
  t_step_info (force_export prim st) = t_step_info st.
Proof. unfold force_export. rewrite ReadPrimitive_prim_step. reflexivity. Qed.

Lemma ProcessConnection_array_step step tokens :
  forall vecNodes (st : TState),
    t_step_info (snd (ProcessConnection_array step tokens vecNodes st)) = t_step_info st.
Proof.
  induction tokens as [|token rest IH]; intros vecNodes st; simpl; [reflexivity|].
  destruct (LookupNode token true (world st)); [apply IH|].
  destruct (bool_decide (step = READ_DANGLING_CONNECTIONS)); [|reflexivity].
  destruct (stage_prim st token) as [prim|]; [|reflexivity].
  destruct (LookupNode token true (world (force_export prim st))); simpl.
  - rewrite IH. apply force_export_step.
  - apply force_export_step.
Qed.

Lemma create_prototype_procedural_step connection (st : TState) :
  t_step_info (snd (create_prototype_procedural connection st)) = t_step_info st.
Proof.
  unfold create_prototype_procedural.
  pose proof (CreateArnoldNode_step "usd" (target connection) st) as Hc.
  destruct (CreateArnoldNode "usd" (target connection) st) as [node st1].
  destruct (_overrides (t_reader st1)); exact Hc.
Qed.

Lemma ProcessConnection_step connection (st : TState) :
  t_step_info (snd (ProcessConnection connection st)) = t_step_info st.
Proof.
  unfold ProcessConnection.
  destruct (bool_decide (type connection = CONNECTION_ARRAY)).
  - match goal with
    | |- context [ProcessConnection_array ?s ?t ?v ?x] =>
        pose proof (ProcessConnection_array_step s t v x) as Ha;
        destruct (ProcessConnection_array s t v x) as [[nodes|] st1]
    end; exact Ha.
  - set (found := match LookupNode (target connection) true (world st) with
                  | Some node => _ | None => _ end).
    assert (Hf : t_step_info (snd found) = t_step_info st).
    { subst found. destruct (LookupNode (target connection) true (world st));
        [reflexivity|].
      destruct (bool_decide _); [|reflexivity].
      destruct (stage_prim st (target connection)) as [prim|]; [|reflexivity].
      destruct (LookupNode _ _ (world (force_export prim st))); cbn [snd].
      - apply force_export_step.
      - destruct (_ && _); cbn [snd]; [|apply force_export_step].
        pose proof (create_prototype_procedural_step connection (force_export prim st)) as Hp.
        destruct (create_prototype_procedural connection (force_export prim st)).
        cbn [snd] in *. rewrite Hp. apply force_export_step. }
    destruct found as [[node|] st1]; cbn [snd] in *; [|exact Hf].
    destruct (type connection); [destruct (isOutputComponent _)| |]; exact Hf.
Qed.

Lemma AddConnection_step source attr target_ type_ elem (st : TState) :
  t_step_info (AddConnection source attr target_ type_ elem st) = t_step_info st.
Proof.
  unfold AddConnection. destruct (bool_decide _).
  - apply with_lock_step. reflexivity.
  - destruct (bool_decide _); [apply ProcessConnection_step | reflexivity].
Qed.

Lemma ProcessConnections_loop_step connections :
  forall danglingConnections (st : TState),
    t_step_info (snd (ProcessConnections_loop connections danglingConnections st))
    = t_step_info st.
Proof.
  induction connections as [|c rest IH]; intros dangling st; simpl; [reflexivity|].
  pose proof (ProcessConnection_step c st) as Hc.
  destruct (ProcessConnection c st) as [ok st1]. rewrite IH. exact Hc.
Qed.

Lemma ProcessConnections_step (st : TState) :
  t_step_info (ProcessConnections st) = t_step_info st.
Proof.
  unfold ProcessConnections.
  match goal with
  | |- context [ProcessConnections_loop ?c ?d ?s] =>
      pose proof (ProcessConnections_loop_step c d s) as Hl;
      destruct (ProcessConnections_loop c d s) as [dangling st1]
  end.
  exact Hl.
Qed.

Lemma ReadPrimitive_step prim context_ isInstance (st : TState) :
  t_step_info (ReadPrimitive prim context_ isInstance st) = t_step_info st.
Proof.
  unfold ReadPrimitive. destruct isInstance; [|apply ReadPrimitive_prim_step].
  destruct (p_prototype prim) as [proto|]; [|reflexivity].
  pose proof (CreateArnoldNode_step "ginstance" (p_path prim) st) as Hc.
  destruct (CreateArnoldNode "ginstance" (p_path prim) st) as [ginstance st1].
  rewrite AddConnection_step.
  destruct (p_isXformable prim); [|exact Hc].
  change (t_step_info (ReadMatrix prim ginstance (_time (t_reader st)) context_ true st1)
          = t_step_info st).
  rewrite ReadMatrix_step. exact Hc.
Qed.

Lemma ReaderThread_body_step td iter index (st : TState) :
  t_step_info (snd (ReaderThread_body td iter index st)) = t_step_info st.
Proof.
  unfold ReaderThread_body. destruct iter as [|v rest]; [reflexivity|].
  destruct (_ && _); [reflexivity|].
  destruct (v_isPostVisit v); [reflexivity|].
  destruct (pruneChildren _ _); [reflexivity|].
  destruct (_ && _); [reflexivity|].
  cbn [snd]. rewrite ReadPrimitive_step. reflexivity.
Qed.

Lemma ReaderThread_loop_step fuel td :
  forall iter index (st : TState),
    t_step_info (ReaderThread_loop fuel td iter index st) = t_step_info st.
Proof.
  unfold ReaderThread_loop.
  induction fuel as [|fuel IH]; intros iter index st; simpl.
  - destruct iter; reflexivity.
  - destruct iter as [|v rest]; [reflexivity|].
    pose proof (ReaderThread_body_step td (v :: rest) index st) as Hb.
    destruct (ReaderThread_body td (v :: rest) index st) as [[iter' index'] st'].
    rewrite IH. exact Hb.
Qed.

Lemma ReaderThread_step td (st : TState) :
  t_step_info (ReaderThread td st) = t_step_info st.
Proof. unfold ReaderThread. rewrite ReaderThread_loop_step. reflexivity. Qed.

Lemma init_lock_step get set (st : TState) :
  t_step_info (init_lock get set st) = t_step_info st.
Proof. unfold init_lock. destruct (get (tctx st)); reflexivity. Qed.

Lemma new_thread_context_step (w : World) :
  t_step_info (new_thread_context w) = step_info w.
Proof.
  unfold new_thread_context, SetDispatcher, SetReader.
  destruct (_dispatcher (reader w)); [|reflexivity].
  rewrite !init_lock_step. reflexivity.
Qed.

Lemma start_reader_thread_step i threadCount_ rootPrimPtr (w : World) :
  step_info (snd (start_reader_thread i threadCount_ rootPrimPtr w)) = step_info w.
Proof.
  unfold start_reader_thread. cbn [snd].
  change (t_step_info (ReaderThread
            {| threadId := i; threadCount := threadCount_; rootPrim := rootPrimPtr;
               context := NewReaderContext |} (new_thread_context w)) = step_info w).
  rewrite ReaderThread_step. apply new_thread_context_step.
Qed.

Lemma run_reader_threads_step ids threadCount_ rootPrimPtr :
  forall w : World,
    step_info (snd (run_reader_threads ids threadCount_ rootPrimPtr w)) = step_info w.
Proof.
  induction ids as [|i rest IH]; intros w; cbn [run_reader_threads]; [reflexivity|].
  pose proof (start_reader_thread_step i threadCount_ rootPrimPtr w) as Hs.
  destruct (start_reader_thread i threadCount_ rootPrimPtr w) as [t w1].
  pose proof (IH w1) as Hr.
  destruct (run_reader_threads rest threadCount_ rootPrimPtr w1) as [ts w2].
  cbn [snd] in *. congruence.
Qed.

Lemma merge_threads_step ts :
  forall w : World, step_info (snd (merge_threads ts w)) = step_info w.
Proof.
  induction ts as [|t rest IH]; intros w; simpl; [reflexivity|].
  match goal with
  | |- context [merge_threads rest ?w1] =>
      pose proof (IH w1) as Hr; destruct (merge_threads rest w1) as [ts' w2]
  end.
  exact Hr.
Qed.

Lemma run_connection_threads_step ts :
  forall w : World, step_info (snd (run_connection_threads ts w)) = step_info w.
Proof.
  induction ts as [|t rest IH]; intros w; simpl; [reflexivity|].
  match goal with
  | |- context [run_connection_threads rest ?w1] =>
      pose proof (IH w1) as Hr; destruct (run_connection_threads rest w1) as [ts' w2]
  end.
  cbn [snd] in *. rewrite Hr.
  apply (ProcessConnections_step {| world := w; tctx := t |}).
Qed.

Lemma dangling_loop_step danglingConnections :
  forall st : TState,
    t_step_info (dangling_loop danglingConnections st) = t_step_info st.
Proof.
  induction danglingConnections as [|conn rest IH]; intros st; simpl; [reflexivity|].
  rewrite IH, ProcessConnection_step.
  destruct (LookupNode (target conn) true (world st)); [reflexivity|].
  destruct (stage_prim st (target conn)); [|reflexivity].
  apply ReadPrimitive_prim_step.
Qed.

Lemma read_camera_shutter_step stage (w : World) :
  step_info (read_camera_shutter stage w) = step_info w.
Proof.
  unfold read_camera_shutter.
  repeat match goal with
         | |- context [match ?x with _ => _ end] => destruct x
         end; reflexivity.
Qed.

Lemma select_registry_step (w : World) :
  step_info (select_registry w) = step_info w.
Proof.
  unfold select_registry. destruct (_registry (reader w)); [reflexivity|].
  simpl. destruct (s_readerRegistry (globals w)); reflexivity.
Qed.

Lemma assign_readStep_info s (w : World) :
  step_info (assign_readStep s w) = (readStepWrites w ++ [s], s).
Proof. reflexivity. Qed.

Lemma step_info_writes (w w' : World) :
  step_info w' = step_info w -> readStepWrites w' = readStepWrites w.
Proof. unfold step_info. congruence. Qed.

Lemma ReadStage_steps_info rootPrimPtr (w : World) :
  step_info (ReadStage_steps rootPrimPtr w) =
  (readStepWrites w ++ [READ_TRAVERSE; READ_PROCESS_CONNECTIONS;
                        READ_DANGLING_CONNECTIONS; READ_FINISHED],
   READ_FINISHED).
Proof.
  unfold ReadStage_steps.
  assert (H0 : readStepWrites (snd (start_dispatcher w)) = readStepWrites w).
  { unfold start_dispatcher. destruct (_ =? _)%nat; reflexivity. }
  destruct (start_dispatcher w) as [threadCount_ w0]. cbn [snd] in H0.
  set (w1 := assign_readStep READ_TRAVERSE w0).
  pose proof (run_reader_threads_step (seq 0 threadCount_) threadCount_ rootPrimPtr w1) as H1.
  destruct (run_reader_threads _ _ _ w1) as [td1 w2]. cbn [snd] in H1.
  pose proof (merge_threads_step td1 w2) as H2.
  destruct (merge_threads td1 w2) as [td2 w3]. cbn [snd] in H2.
  set (w4 := assign_readStep READ_PROCESS_CONNECTIONS (on_reader (set_dispatcher None) w3)).
  pose proof (run_connection_threads_step td2 w4) as H4.
  destruct (run_connection_threads td2 w4) as [td3 w5]. cbn [snd] in H4.
  destruct (collect_dangling td3) as [dangling td4].
  set (w6 := assign_readStep READ_DANGLING_CONNECTIONS w5).
  match goal with
  | |- step_info (assign_readStep _ (on_reader _ ?w7)) = _ =>
      assert (H7 : readStepWrites w7 = readStepWrites w6)
  end.
  { destruct dangling as [|c rest]; [reflexivity|].
    cbn [snd merge_nodes]. unfold on_reader. cbn [readStepWrites].
    apply (step_info_writes w6).
    apply (dangling_loop_step (c :: rest)
             {| world := w6; tctx := default NewThreadContext (head td4) |}). }
  rewrite assign_readStep_info. f_equal.
  unfold on_reader. cbn [readStepWrites]. rewrite H7.
  subst w6. cbn [assign_readStep readStepWrites].
  rewrite (step_info_writes _ _ H4). subst w4. cbn [assign_readStep readStepWrites on_reader].
  rewrite (step_info_writes _ _ H2), (step_info_writes _ _ H1).
  subst w1. cbn [assign_readStep readStepWrites]. rewrite H0.
  rewrite <- !app_assoc. reflexivity.
Qed.

(** The values ReadStage assigns to the read step: none when it returns
    early, the four steps in order otherwise. *)
Lemma ReadStage_assignments stage path (w : World) :
  (step_info (ReadStage stage path w) = step_info w) \/
  (step_info (ReadStage stage path w) =
     (readStepWrites w ++ [READ_TRAVERSE; READ_PROCESS_CONNECTIONS;
                           READ_DANGLING_CONNECTIONS; READ_FINISHED],
      READ_FINISHED)).
Proof.
  unfold ReadStage. destruct stage as [stg|]; [|left; reflexivity].
  match goal with
  | |- context [select_registry ?w0] =>
      assert (Hw : step_info (select_registry w0) = step_info w);
      [ rewrite select_registry_step; destruct (_debug _); reflexivity
      | generalize dependent (select_registry w0); intros w1 Hw ]
  end.
  assert (Hsteps : forall root,
             step_info (ReadStage_steps root (read_camera_shutter stg w1)) =
             (readStepWrites w ++ [READ_TRAVERSE; READ_PROCESS_CONNECTIONS;
                                   READ_DANGLING_CONNECTIONS; READ_FINISHED],
              READ_FINISHED)).
  { intros root. rewrite ReadStage_steps_info.
    rewrite (step_info_writes _ _ (read_camera_shutter_step stg w1)).
    rewrite (step_info_writes _ _ Hw). reflexivity. }
  destruct (String.eqb path ""); [right; apply Hsteps|].
  destruct (GetPrimAtPath stg path) as [root|]; [|left; exact Hw].
  destruct (negb _); [left; exact Hw | right; apply Hsteps].
Qed.

End ReadersKeepStep.

(** The order of the read steps. *)
Definition ReadStep_lt (a b : ReadStep) : Prop :=
  (ReadStep_value a < ReadStep_value b)%Z.

(** C4. With primitive readers that cannot set the read step, the values a
    run of ReadStage assigns to it, in the order it assigns them, rise
    strictly from READ_NOT_STARTED on: every assignment is to a later step
    than the one before, and the read step ends as the last one assigned. *)
Theorem ReadStage_readStep_only_advances (stage : option UsdStage) (path : string)
    (w : World) :
  readers_keep_readStep ->
  exists assigned,
    readStepWrites (ReadStage stage path w) = readStepWrites w ++ assigned /\
    StronglySorted ReadStep_lt (READ_NOT_STARTED :: assigned) /\
    _readStep (reader (ReadStage stage path w)) =
      List.last assigned (_readStep (reader w)).
Proof.
  intros Hreaders.
  destruct (ReadStage_assignments Hreaders stage path w) as [Hsame|Hrun];
    unfold step_info in *.
  - exists []. inversion Hsame as [[Hw Hs]]. rewrite Hw, Hs, app_nil_r.
    repeat split. repeat constructor.
  - exists [READ_TRAVERSE; READ_PROCESS_CONNECTIONS; READ_DANGLING_CONNECTIONS;
            READ_FINISHED].
    inversion Hrun as [[Hw Hs]]. rewrite Hw, Hs.
    repeat split.
    repeat (constructor; [|repeat (constructor; try (unfold ReadStep_lt; simpl; lia))]).
    constructor.
Qed.

(** ** Matrices under motion blur *)

Lemma GetXformCache_world frame_ (st : TState) :
  world (snd (GetXformCache frame_ st)) = world st.
Proof.
  unfold GetXformCache.
  destruct (negb _ || _); [destruct (tc_xformCache (tctx st))|];
    try reflexivity; destruct (existsb _ _); reflexivity.
Qed.

Lemma getMatrix_world prim frame_ isXformable (st : TState) :
  world (snd (getMatrix prim frame_ isXformable st)) = world st.
Proof.
  unfold getMatrix. pose proof (GetXformCache_world frame_ st) as Hc.
  destruct (GetXformCache frame_ st) as [c st1]. exact Hc.
Qed.

Lemma AiArraySetMtx_nkeys array i m :
  AiArrayGetNumKeys (AiArraySetMtx array i m) = AiArrayGetNumKeys array.
Proof. unfold AiArraySetMtx. destruct (adata array); reflexivity. Qed.

Lemma ReadMatrix_keys_result prim isXformable timeStep indices :
  forall timeVal array (st : TState),
    let r := ReadMatrix_keys prim isXformable timeStep indices timeVal array st in
    AiArrayGetNumKeys (fst r) = AiArrayGetNumKeys array /\ world (snd r) = world st.
Proof.
  induction indices as [|i rest IH]; intros timeVal array st; simpl; [split; reflexivity|].
  pose proof (getMatrix_world prim timeVal isXformable st) as Hm.
  destruct (getMatrix prim timeVal isXformable st) as [m st1]. cbn [snd] in Hm.
  destruct (IH (to_float (timeVal + timeStep)) (AiArraySetMtx array i m) st1) as [Hk Hw].
  split; [rewrite Hk; apply AiArraySetMtx_nkeys | congruence].
Qed.

Lemma ReadMatrix_array_world prim time isXformable (st : TState) :
  world (snd (ReadMatrix_array prim time isXformable st)) = world st.
Proof.
  unfold ReadMatrix_array. destruct (motionBlur time && _).
  - apply ReadMatrix_keys_result.
  - pose proof (getMatrix_world prim (frame time) isXformable st) as Hm.
    destruct (getMatrix prim (frame time) isXformable st) as [m st1]. exact Hm.
Qed.

(** With motion blur, the array of a prim whose transform varies in time has
    the samples of the open interval and the two bounds as keys, counted
    modulo 256. *)
Lemma ReadMatrix_array_animated prim time isXformable (st : TState) :
  motionBlur time = true -> p_timeVarying prim = true ->
  AiArrayGetNumKeys (fst (ReadMatrix_array prim time isXformable st)) =
  (length (GetTimeSamplesInInterval prim (TimeSettings_start time) (TimeSettings_end time)) + 2)
    mod 256.
Proof.
  intros Hmb Htv. unfold ReadMatrix_array. rewrite Hmb, Htv. cbn [andb negb].
  match goal with
  | |- AiArrayGetNumKeys (fst (ReadMatrix_keys ?p ?x ?ts ?ix ?tv ?arr ?s)) = _ =>
      destruct (ReadMatrix_keys_result p x ts ix tv arr s) as [Hk _]
  end.
  rewrite Hk. reflexivity.
Qed.

(** The samples of the interval are the samples strictly between its
    bounds. *)
Lemma GetTimeSamplesInInterval_spec prim min max t :
  In t (GetTimeSamplesInInterval prim min max) <->
  In t (p_timeSamples prim) /\ (min < t)%Q /\ (t < max)%Q.
Proof.
  unfold GetTimeSamplesInInterval. rewrite filter_In, andb_true_iff, !negb_true_iff.
  rewrite <- !not_true_iff_false, !Qle_bool_iff.
  split; intros (Hin & H1 & H2); (split; [exact Hin|]).
  - split; apply Qnot_le_lt; assumption.
  - split; apply Qlt_not_le; assumption.
Qed.

(** What [ReadMatrix] does with the array it has read or copied. *)
Lemma ReadMatrix_sets node time matrices (st st1 : TState) :
  is_Some (node_data (arnold (world st)) node) ->
  world st1 = world st ->
  let st2 := t_arnold (AiNodeSetArray node "matrix" matrices) st1 in
  let st3 :=
    if (1 <? AiArrayGetNumKeys matrices)%nat
    then t_arnold (AiNodeSetFlt node "motion_end" (motionEnd time))
           (t_arnold (AiNodeSetFlt node "motion_start" (motionStart time)) st2)
    else st2 in
  param_of (arnold (world st3)) node "matrix" = Some (ParamArray matrices) /\
  (1 < AiArrayGetNumKeys matrices ->
   param_of (arnold (world st3)) node "motion_start" = Some (ParamFlt (motionStart time)) /\
   param_of (arnold (world st3)) node "motion_end" = Some (ParamFlt (motionEnd time))).
Proof.
  intros [d Hd] Hw st2 st3. subst st3 st2.
  assert (H1 : is_Some (node_data (AiNodeSetArray node "matrix" matrices
                                     (arnold (world st))) node))
    by (apply node_data_set; eauto).
  assert (H2 : is_Some (node_data
                          (AiNodeSetFlt node "motion_start" (motionStart time)
                             (AiNodeSetArray node "matrix" matrices
                                (arnold (world st)))) node))
    by (apply node_data_set; exact H1).
  destruct H1 as [d1 Hd1]. destruct H2 as [d2 Hd2].
  destruct (Nat.ltb_spec 1 (AiArrayGetNumKeys matrices)) as [Hlt|Hge];
    cbn [t_arnold on_world on_arnold world arnold]; rewrite Hw.
  - split; [|intros _; split].
    + unfold AiNodeSetFlt. rewrite !param_of_set_other by discriminate.
      eapply param_of_set, Hd.
    + unfold AiNodeSetFlt at 1. rewrite param_of_set_other by discriminate.
      eapply param_of_set, Hd1.
    + eapply param_of_set, Hd2.
  - split; [eapply param_of_set, Hd | lia].
Qed.

(** C8, as the code has it. ReadMatrix sets motion_start and motion_end, to
    motionStart and motionEnd as they are, whenever the matrix array it sets
    has more than one key.  With motion blur on, the array of a prim whose
    transform varies in time has as many keys as the transform has time
    samples strictly inside the interval of the time settings, from
    [time.start()] to [time.end()], plus two, as long as that number is
    below 256; the two attributes are then set.  The interval is the one the
    accessors of the time settings give, the shutter interval moved to the
    current frame, and not the interval from motionStart to motionEnd.  The
    context holds no matrix, or the one ReadPrimitive computed for the
    prim. *)
Theorem ReadMatrix_motion_keys (prim : UsdPrim) (node : AtNode) (time : TimeSettings)
    (context_ : UsdArnoldReaderContext) (isXformable : bool) (st : TState) :
  is_Some (node_data (arnold (world st)) node) ->
  let a' := arnold (world (ReadMatrix prim node time context_ isXformable st)) in
  (exists matrices,
      param_of a' node "matrix" = Some (ParamArray matrices) /\
      (1 < AiArrayGetNumKeys matrices ->
       param_of a' node "motion_start" = Some (ParamFlt (motionStart time)) /\
       param_of a' node "motion_end" = Some (ParamFlt (motionEnd time)))) /\
  (motionBlur time = true ->
   p_timeVarying prim = true ->
   (forall m, c_matrix context_ = Some m ->
              exists x st0, m = fst (ReadMatrix_array prim time x st0)) ->
   let inside :=
     GetTimeSamplesInInterval prim (TimeSettings_start time) (TimeSettings_end time) in
   length inside + 2 < 256 ->
   (forall t, In t inside <->
              In t (p_timeSamples prim) /\
              (TimeSettings_start time < t)%Q /\ (t < TimeSettings_end time)%Q) /\
   (exists matrices,
       param_of a' node "matrix" = Some (ParamArray matrices) /\
       AiArrayGetNumKeys matrices = length inside + 2) /\
   param_of a' node "motion_start" = Some (ParamFlt (motionStart time)) /\
   param_of a' node "motion_end" = Some (ParamFlt (motionEnd time))).
Proof.
  intros Hnode a'.
  assert (Hset : exists matrices,
             (param_of a' node "matrix" = Some (ParamArray matrices) /\
              (1 < AiArrayGetNumKeys matrices ->
               param_of a' node "motion_start" = Some (ParamFlt (motionStart time)) /\
               param_of a' node "motion_end" = Some (ParamFlt (motionEnd time)))) /\
             (motionBlur time = true -> p_timeVarying prim = true ->
              (forall m, c_matrix context_ = Some m ->
                         exists x st0, m = fst (ReadMatrix_array prim time x st0)) ->
              AiArrayGetNumKeys matrices =
              (length (GetTimeSamplesInInterval prim (TimeSettings_start time)
                         (TimeSettings_end time)) + 2) mod 256)).
  { subst a'. unfold ReadMatrix.
    destruct (c_matrix context_) as [m|] eqn:Hc.
    - exists m. split; [apply (ReadMatrix_sets node time m st st Hnode eq_refl)|].
      intros Hmb Htv Hctx. destruct (Hctx m eq_refl) as (x & st0 & ->).
      apply ReadMatrix_array_animated; assumption.
    - pose proof (ReadMatrix_array_world prim time isXformable st) as Hw.
      pose proof (ReadMatrix_array_animated prim time isXformable st) as Hk.
      destruct (ReadMatrix_array prim time isXformable st) as [m st1].
      cbn [fst snd] in *.
      exists m. split; [apply (ReadMatrix_sets node time m st st1 Hnode Hw)|].
      intros Hmb Htv _. apply Hk; assumption. }
  destruct Hset as (matrices & [Hmatrix Hmotion] & Hkeys).
  split; [exists matrices; split; assumption|].
  intros Hmb Htv Hctx inside Hsmall.
  specialize (Hkeys Hmb Htv Hctx). fold inside in Hkeys.
  rewrite Nat.mod_small in Hkeys by exact Hsmall.
  split; [intros t; apply GetTimeSamplesInInterval_spec|].
  split; [exists matrices; split; assumption|].
  apply Hmotion. lia.
Qed.

(** ** The dangling pass over an array connection *)

(** C1, as the code has it. An array connection lists the names a, b and c.
    In the dangling step, with no node for a but a prim whose forced export
    creates it, a node for b, and neither node nor prim for c, the pass
    exports a and gives the connection up at c: ProcessConnection returns
    false and sets nothing on the source attribute, so that the state is the
    one the export of a leaves.  No array, not even one of a and b, is set. *)
Theorem dangling_array_missing_name_gives_up (connection : Connection) (st : TState)
    (a b c : string) (prim_a : UsdPrim) (node_a node_b : AtNode) :
  type connection = CONNECTION_ARRAY ->
  _readStep (t_reader st) = READ_DANGLING_CONNECTIONS ->
  getline_tokens (target connection) "" = [a; b; c] ->
  LookupNode (target connection) true (world st) = None ->
  stage_prim st (target connection) = None ->
  LookupNode a true (world st) = None ->
  stage_prim st a = Some prim_a ->
  let st_a := force_export prim_a st in
  LookupNode a true (world st_a) = Some node_a ->
  LookupNode b true (world st_a) = Some node_b ->
  LookupNode c true (world st_a) = None ->
  stage_prim st_a c = None ->
  ProcessConnection connection st = (false, st_a) /\
  dangling_loop [connection] st = st_a.
Proof.
  intros Hty Hstep Htokens Hwhole Hwprim Ha Hpa st_a Hna Hnb Hnc Hpc.
  assert (Hpc' : ProcessConnection connection st = (false, st_a)).
  { unfold ProcessConnection.
    rewrite Hty, bool_decide_eq_true_2 by reflexivity.
    rewrite Htokens, Hstep. cbn [ProcessConnection_array].
    rewrite Ha, bool_decide_eq_true_2 by reflexivity.
    rewrite Hpa. fold st_a. rewrite Hna, Hnb, Hnc.
    rewrite Hpc. reflexivity. }
  split; [exact Hpc'|].
  cbn [dangling_loop]. rewrite Hwhole, Hwprim, Hpc'. reflexivity.
Qed.

End Properties.

(** * The properties on the scenes above *)

(** The two readers of the scenes do not touch the read step. *)
Lemma plainEnv_readers_keep_readStep : readers_keep_readStep (H := plainEnv).
Proof. intros registry objType primReader Hget. discriminate Hget. Qed.

Lemma sceneEnv_readers_keep_readStep (stage : UsdStage) :
  readers_keep_readStep (H := sceneEnv stage).
Proof.
  intros registry objType primReader Hget prim context_ st.
  cbn [GetPrimReader sceneEnv] in Hget.
  destruct (String.eqb objType "Shader").
  - inversion Hget; subst. unfold shaderReader. cbn [Read].
    pose proof (CreateArnoldNode_step (H := plainEnv) "standard_surface" (p_path prim) st) as Hc.
    destruct (CreateArnoldNode (H := plainEnv) "standard_surface" (p_path prim) st) as [node st1].
    exact Hc.
  - destruct (String.eqb objType "Mesh"); [|discriminate Hget].
    inversion Hget; subst. unfold meshReader. cbn [Read].
    pose proof (CreateArnoldNode_step (H := plainEnv) "polymesh" (p_path prim) st) as Hc.
    destruct (CreateArnoldNode (H := plainEnv) "polymesh" (p_path prim) st) as [node st1].
    cbn [snd] in Hc.
    assert (Hm : t_step_info (ReadMatrix (H := plainEnv) prim node (_time (t_reader st1))
                                context_ (p_isXformable prim) st1) = t_step_info st)
      by (rewrite ReadMatrix_step; exact Hc).
    destruct (GetAttribute prim "shaders") as [[shaders|q]|]; try exact Hm.
    rewrite (AddConnection_step (H := plainEnv) plainEnv_readers_keep_readStep). exact Hm.
Qed.

Lemma Read_with_nodes_is_noop_witness :
  _nodes (reader arrayWorld) = [0; 1; 2] /\
  Read_file (H := sceneEnv arrayStage) "scene.usda" None "" arrayWorld = arrayWorld /\
  Read_cache (H := sceneEnv arrayStage) 7 "" arrayWorld = arrayWorld.
Proof.
  split; [vm_compute; reflexivity|].
  apply (Read_with_nodes_is_noop (H := sceneEnv arrayStage) arrayWorld).
  vm_compute. discriminate.
Defined.

Lemma AddConnection_dropped_in_other_steps_witness :
  _readStep (t_reader arrayStrictState) = READ_PROCESS_CONNECTIONS /\
  AddConnection (H := sceneEnv arrayStage) 0 "shader" "/b" CONNECTION_PTR "" arrayStrictState
  = arrayStrictState.
Proof.
  split; [reflexivity|].
  apply (AddConnection_dropped_in_other_steps (H := sceneEnv arrayStage));
    vm_compute; discriminate.
Defined.

Lemma Link_binds_component_or_whole_witness :
  ProcessConnection (H := sceneEnv arrayStage) linkConnection linkState =
  (true, t_arnold (AiNodeLinkOutput 2 "r" 1 "base_color") linkState).
Proof.
  refine (proj1 (proj1 (Link_binds_component_or_whole (H := sceneEnv arrayStage)
                          linkConnection linkState 2 _ _) "r"%char _)).
  - reflexivity.
  - vm_compute. reflexivity.
  - repeat split; try reflexivity; [simpl; lia | set_solver].
Defined.

Lemma strict_array_connection_all_or_nothing_witness :
  ~ all_resolve ["/a"; "/b"; "/c"] (world arrayStrictState) /\
  ProcessConnection (H := sceneEnv arrayStage) arrayConnection arrayStrictState
  = (false, arrayStrictState) /\
  arrayConnection ∈
    tc_connections (tctx (ProcessConnections (H := sceneEnv arrayStage) arrayStrictState)).
Proof.
  assert (Hmiss : ~ all_resolve ["/a"; "/b"; "/c"]
                    (world arrayStrictState)).
  { intros Hall. inversion Hall as [|? ? [n Hn] _]. vm_compute in Hn. discriminate Hn. }
  split; [exact Hmiss|].
  destruct (strict_array_connection_all_or_nothing (H := sceneEnv arrayStage)
              arrayConnection arrayStrictState eq_refl eq_refl) as [_ Hdefer].
  destruct (Hdefer Hmiss) as [Hpc Hkeep].
  split; [exact Hpc|]. apply Hkeep. vm_compute. left.
Defined.

Lemma ReadStage_readStep_only_advances_witness :
  exists assigned,
    readStepWrites arrayWorld = [] ++ assigned /\
    StronglySorted ReadStep_lt (READ_NOT_STARTED :: assigned) /\
    _readStep (reader arrayWorld) = List.last assigned READ_NOT_STARTED.
Proof.
  exact (ReadStage_readStep_only_advances (H := sceneEnv arrayStage)
           (Some arrayStage) "" (startWorld (H := sceneEnv arrayStage))
           (sceneEnv_readers_keep_readStep arrayStage)).
Defined.

Lemma ReadMatrix_motion_keys_witness :
  let a' := arnold (world (ReadMatrix (H := plainEnv) spinningPrim 0 shutterTime
                             NewReaderContext true spinningState)) in
  motionStart shutterTime = (-13421773 # 134217728)%Q /\
  motionEnd shutterTime = (13421773 # 134217728)%Q /\
  GetTimeSamplesInInterval spinningPrim (TimeSettings_start (Env := plainEnv) shutterTime)
                           (TimeSettings_end (Env := plainEnv) shutterTime)
    = map to_double [-5 # 100; 0; 5 # 100; 1 # 10]%Q /\
  (exists matrices,
      param_of a' 0 "matrix" = Some (ParamArray matrices) /\
      AiArrayGetNumKeys matrices = 6) /\
  param_of a' 0 "motion_start" = Some (ParamFlt (-13421773 # 134217728)) /\
  param_of a' 0 "motion_end" = Some (ParamFlt (13421773 # 134217728)).
Proof.
  assert (Hnode : is_Some (node_data (arnold (world spinningState)) 0))
    by (vm_compute; eauto).
  assert (Hctx : forall m, c_matrix NewReaderContext = Some m ->
                   exists x st0, m = fst (ReadMatrix_array (H := plainEnv) spinningPrim
                                            shutterTime x st0))
    by (intros m Hm; discriminate Hm).
  assert (Hsmall : length (GetTimeSamplesInInterval spinningPrim
                             (TimeSettings_start (Env := plainEnv) shutterTime)
                             (TimeSettings_end (Env := plainEnv) shutterTime)) + 2 < 256)
    by (vm_compute; lia).
  destruct (ReadMatrix_motion_keys (H := plainEnv) spinningPrim 0 shutterTime
              NewReaderContext true spinningState Hnode)
    as (_ & Hscenario).
  destruct (Hscenario eq_refl eq_refl Hctx Hsmall)
    as (_ & Hkeys & Hstart & Hend).
  split; [vm_compute; reflexivity|].
  split; [vm_compute; reflexivity|].
  split; [vm_compute; reflexivity|].
  split; [exact Hkeys | split; [exact Hstart | exact Hend]].
Defined.

(** C8, as the claim has it, at frame 1.  Motion blur is on, the shutter
    interval is from -0.1 to 0.1, the transform of the prim varies in time
    and four of its time samples are strictly inside the shutter interval:
    the claim gives the array six keys.  ReadMatrix takes the samples of the
    interval around the frame, from 0.9 to 1.1, finds none and gives the
    array two keys.  motion_start and motion_end are set to the bounds of
    the shutter. *)
Lemma shutter_interval_is_around_the_frame :
  let a' := arnold (world (ReadMatrix (H := plainEnv) spinningPrim 0 laterTime
                             NewReaderContext true laterState)) in
  let claimed :=
    length (GetTimeSamplesInInterval spinningPrim (motionStart laterTime)
                                     (motionEnd laterTime)) + 2 in
  motionBlur laterTime = true /\
  motionStart laterTime = (-13421773 # 134217728)%Q /\
  motionEnd laterTime = (13421773 # 134217728)%Q /\
  p_timeVarying spinningPrim = true /\
  claimed = 6 /\
  TimeSettings_start (Env := plainEnv) laterTime = (7549747 # 8388608)%Q /\
  TimeSettings_end (Env := plainEnv) laterTime = (9227469 # 8388608)%Q /\
  GetTimeSamplesInInterval spinningPrim (TimeSettings_start (Env := plainEnv) laterTime)
                           (TimeSettings_end (Env := plainEnv) laterTime) = [] /\
  (exists matrices,
      param_of a' 0 "matrix" = Some (ParamArray matrices) /\
      AiArrayGetNumKeys matrices = 2) /\
  ~ (exists matrices,
        param_of a' 0 "matrix" = Some (ParamArray matrices) /\
        AiArrayGetNumKeys matrices = claimed) /\
  param_of a' 0 "motion_start" = Some (ParamFlt (-13421773 # 134217728)) /\
  param_of a' 0 "motion_end" = Some (ParamFlt (13421773 # 134217728)).
Proof.
  vm_compute.
  repeat (split; [reflexivity|]).
  split; [eexists; split; reflexivity|].
  split; [|split; reflexivity].
  intros (matrices & Hm & Hk). injection Hm as <-. discriminate Hk.
Defined.

(** The number of keys above 255.  The 254 samples of the prim and the two
    bounds make 256 keys; the array is allocated with this number modulo
    256, none: no matrix is kept and ReadMatrix sets neither motion_start
    nor motion_end. *)
Lemma crowded_interval_has_no_key :
  let array := fst (ReadMatrix_array (H := plainEnv) crowdedPrim shutterTime true
                                     spinningState) in
  let a' := arnold (world (ReadMatrix (H := plainEnv) crowdedPrim 0 shutterTime
                             NewReaderContext true spinningState)) in
  length (GetTimeSamplesInInterval crowdedPrim
            (TimeSettings_start (Env := plainEnv) shutterTime)
            (TimeSettings_end (Env := plainEnv) shutterTime)) = 254 /\
  AiArrayGetNumKeys array = 0 /\
  adata array = DataMatrix [] /\
  param_of a' 0 "matrix" = Some (ParamArray array) /\
  param_of a' 0 "motion_start" = None /\
  param_of a' 0 "motion_end" = None.
Proof.
  vm_compute. repeat split.
Qed.

Lemma thread_context_locks_iff_dispatcher_witness :
  let w := SetThreadCount 0 (startWorld (H := plainEnv)) in
  let st := traversal_context w in
  _threadCount (reader w) = 0 /\
  is_Some (tc_createNodeLock (tctx st)) /\
  is_Some (tc_addConnectionLock (tctx st)) /\
  is_Some (tc_addNodeNameLock (tctx st)).
Proof.
  intros w st.
  destruct (thread_context_locks_iff_dispatcher (H := plainEnv) w eq_refl)
    as (Hc & Ha & Hn & _).
  split; [reflexivity|].
  split; [apply Hc; reflexivity | split; [apply Ha; reflexivity | apply Hn; reflexivity]].
Defined.

(** With two threads no thread context has a lock, and the three calls log
    no critical section. *)
Lemma two_threads_take_no_context_lock :
  let w := SetThreadCount 2 (startWorld (H := plainEnv)) in
  let st := traversal_context w in
  _threadCount (reader w) = 2 /\
  tc_createNodeLock (tctx st) = None /\
  tc_addConnectionLock (tctx st) = None /\
  tc_addNodeNameLock (tctx st) = None /\
  a_log (arnold (world (snd (CreateArnoldNode (H := plainEnv) "polymesh" "/mesh" st))))
    = a_log (arnold (world st)) /\
  a_log (arnold (world (AddConnection (H := plainEnv) 0 "shader" "/b" CONNECTION_PTR "" st)))
    = a_log (arnold (world st)) /\
  a_log (arnold (world (AddNodeName "/mesh" 0 st))) = a_log (arnold (world st)) /\
  ~ locks_engaged_unless_single w.
Proof.
  intros w st. repeat split.
  intros ((_ & Hlock) & _).
  assert (Hs : is_Some (tc_createNodeLock (tctx (traversal_context w))))
    by (apply Hlock; vm_compute; discriminate).
  destruct Hs as [cs Hcs]. vm_compute in Hcs. discriminate Hcs.
Defined.

Lemma dangling_array_missing_name_gives_up_witness :
  ProcessConnection (H := sceneEnv arrayStage) arrayConnection arrayDanglingState =
    (false, force_export (H := sceneEnv arrayStage)
              (mkPrim "/a" "Shader" (Some "invisible") [] []) arrayDanglingState) /\
  dangling_loop (H := sceneEnv arrayStage) [arrayConnection] arrayDanglingState =
    force_export (H := sceneEnv arrayStage)
      (mkPrim "/a" "Shader" (Some "invisible") [] []) arrayDanglingState.
Proof.
  apply (dangling_array_missing_name_gives_up (H := sceneEnv arrayStage)
           arrayConnection arrayDanglingState "/a" "/b" "/c"
           (mkPrim "/a" "Shader" (Some "invisible") [] []) 2 1);
    vm_compute; reflexivity.
Defined.

(** C1, as the claim has it, on the three shaders.  Before the dangling
    step [/b] has node 1 and [/a] has none; the pass creates node 2 for
    [/a], finds no [/c], and leaves the [shader] attribute of the mesh
    unset: it is not the array of the nodes of [/a] and [/b].  The same holds
    at the end of a whole read of the stage. *)
Lemma dangling_array_sets_no_partial_array :
  let st := arrayDanglingState in
  let st' := dangling_loop (H := sceneEnv arrayStage) [arrayConnection] st in
  LookupNode "/b" true (world st) = Some 1 /\
  LookupNode "/a" true (world st) = None /\
  LookupNode "/a" true (world st') = Some 2 /\
  LookupNode "/b" true (world st') = Some 1 /\
  LookupNode "/c" true (world st') = None /\
  param_of (arnold (world st')) 0 "shader" = None /\
  param_of (arnold (world st')) 0 "shader"
    ≠ Some (ParamArray (AiArrayConvert_NODE [2; 1])) /\
  param_of (arnold arrayWorld) 0 "shader" = None.
Proof.
  vm_compute. repeat split; discriminate.
Defined.

(** ** The primvars stack when a prim is pruned *)

Lemma sceneEnv_readers_keep_stack (stage : UsdStage) :
  readers_keep_stack (H := sceneEnv stage).
Proof.
  intros registry objType primReader Hget prim context_ st Hstep.
  cbn [GetPrimReader sceneEnv] in Hget.
  destruct (String.eqb objType "Shader").
  - inversion Hget; subst. unfold shaderReader. cbn [Read].
    pose proof (CreateArnoldNode_stack (H := plainEnv) "standard_surface" (p_path prim) st) as Hc.
    destruct (CreateArnoldNode (H := plainEnv) "standard_surface" (p_path prim) st) as [node st1].
    exact Hc.
  - destruct (String.eqb objType "Mesh"); [|discriminate Hget].
    inversion Hget; subst. unfold meshReader. cbn [Read].
    pose proof (CreateArnoldNode_stack (H := plainEnv) "polymesh" (p_path prim) st) as Hc.
    destruct (CreateArnoldNode (H := plainEnv) "polymesh" (p_path prim) st) as [node st1].
    cbn [snd] in Hc.
    assert (Hm : stack_info (ReadMatrix (H := plainEnv) prim node (_time (t_reader st1))
                               context_ (p_isXformable prim) st1) = stack_info st)
      by (rewrite ReadMatrix_stack; exact Hc).
    destruct (GetAttribute prim "shaders") as [[shaders|q]|]; try exact Hm.
    rewrite (AddConnection_traverse_stack (H := plainEnv)); [exact Hm|].
    unfold stack_info in Hm.
    match type of Hm with
    | (_, _readStep (t_reader ?s), _) = _ =>
        assert (Hr : _readStep (t_reader s) = _readStep (t_reader st)) by congruence
    end.
    rewrite Hr. exact Hstep.
Qed.

(** With every prim visible the traversal prunes nothing, and ends with the
    first entry of the stack alone. *)
Example visible_traversal_restores_stack :
  tc_primvarsStack (tctx (traverse_stage visibleStage)) = [[]].
Proof.
  unfold traverse_stage.
  apply (unpruned_traversal_restores_stack (H := sceneEnv visibleStage)
           (sceneEnv_readers_keep_stack visibleStage) wholeStage
           (traversal_start visibleStage)).
  - vm_compute. reflexivity.
  - unfold unpruned. vm_compute. repeat constructor.
Qed.

(** C3, on a stage where [/root] has an invisible child that authors
    [displayColor], and then a visible child that authors nothing and so
    inherits nothing.  After three turns of the loop the iterator is at the
    pre-visit of the sibling, with [/root] alone entered and not left: the
    stack has three entries, and its top is the entry pushed for the
    invisible child.  The sibling is read with [displayColor] as its
    inherited primvars, and the traversal ends with two entries on the stack.
    With the child visible, the stack has two entries when the sibling is
    reached, the sibling is read with no primvars, and the stack ends with
    its first entry alone. *)
Theorem pruned_prim_entry_stays_on_stack :
  let hidden := ("displayColor", "red") in
  let sibling := mkPrim "/root/sibling" "Shader" None [] [] in
  FindPrimvarsWithInheritance prunedStage sibling = [] /\
  stops (fst (fst (traverse_turns prunedStage 3)))
    = [("/root/sibling", false); ("/root/sibling", true); ("/root", true); ("/", true)] /\
  tc_primvarsStack (tctx (snd (traverse_turns prunedStage 3))) = [[]; []; [hidden]] /\
  AiNodeGetName 1 (arnold (world (traverse_stage prunedStage))) = "/root/sibling" /\
  param_of (arnold (world (traverse_stage prunedStage))) 1 "primvars"
    = Some (ParamArray (AiArray_STRING ["displayColor"])) /\
  tc_primvarsStack (tctx (traverse_stage prunedStage)) = [[]; []] /\
  stops (fst (fst (traverse_turns visibleStage 4)))
    = [("/root/sibling", false); ("/root/sibling", true); ("/root", true); ("/", true)] /\
  tc_primvarsStack (tctx (snd (traverse_turns visibleStage 4))) = [[]; []] /\
  AiNodeGetName 2 (arnold (world (traverse_stage visibleStage))) = "/root/sibling" /\
  param_of (arnold (world (traverse_stage visibleStage))) 2 "primvars"
    = Some (ParamArray (AiArray_STRING [])) /\
  tc_primvarsStack (tctx (traverse_stage visibleStage)) = [[]].
Proof. vm_compute. repeat split. Qed.

(** * Further properties of the reader *)

(** ** Handles of the node store *)

(** Every live node has a handle below the next free one: a new node never
    takes the handle of a live one. *)
Definition fresh_handles (a : Arnold) : Prop :=
  Forall (fun e => fst e < a_nextNode a) (a_nodes a).

Lemma find_app_first {A} (f : A -> bool) (l1 l2 : list A) :
  find f (l1 ++ l2) =
  match find f l1 with
  | Some x => Some x
  | None => find f l2
  end.
Proof.
  induction l1 as [|x l1 IH]; cbn; [reflexivity|].
  destruct (f x); [reflexivity | exact IH].
Qed.

Lemma fresh_handles_next a : fresh_handles a -> node_data a (a_nextNode a) = None.
Proof.
  intros Hf. apply node_data_None. eapply Forall_impl; [exact Hf|].
  intros e He. simpl in He. lia.
Qed.

Lemma fresh_handles_AiNode u type_ name parent a :
  fresh_handles a -> fresh_handles (snd (AiNode u type_ name parent a)).
Proof.
  intros Hf. unfold fresh_handles, AiNode in *. cbn [snd a_nodes a_nextNode].
  apply Forall_app. split.
  - eapply Forall_impl; [exact Hf|]. intros e He. simpl in He. lia.
  - repeat constructor.
Qed.

Lemma fresh_handles_update_node f n a :
  fresh_handles a -> fresh_handles (update_node f n a).
Proof.
  unfold fresh_handles, update_node. cbn [a_nodes a_nextNode arnold_with_nodes].
  intros Hf. induction Hf as [|e l He _ IH]; cbn [map]; constructor; [|exact IH].
  destruct (fst e =? n)%nat; exact He.
Qed.

Lemma fresh_handles_emit e a : fresh_handles a -> fresh_handles (arnold_emit e a).
Proof. intros Hf. exact Hf. Qed.

Lemma node_data_AiNode_new u type_ name parent a :
  fresh_handles a ->
  node_data (snd (AiNode u type_ name parent a)) (a_nextNode a) =
  Some {| n_universe := u; n_type := type_; n_name := name; n_parent := parent;
          n_params := ∅; n_links := ∅ |}.
Proof.
  intros Hf. pose proof (fresh_handles_next a Hf) as Hn.
  unfold node_data, AiNode in *. cbn [snd a_nodes].
  rewrite find_app_first.
  destruct (find _ (a_nodes a)) as [e|]; [discriminate Hn|].
  cbn. rewrite Nat.eqb_refl. reflexivity.
Qed.

Lemma node_data_AiNode_old u type_ name parent a m :
  m ≠ a_nextNode a ->
  node_data (snd (AiNode u type_ name parent a)) m = node_data a m.
Proof.
  intros Hm. unfold node_data, AiNode. cbn [snd a_nodes].
  rewrite find_app_first.
  destruct (find _ (a_nodes a)) as [e|]; [reflexivity|].
  cbn. destruct (Nat.eqb_spec (a_nextNode a) m); [congruence | reflexivity].
Qed.

(** What a lookup reads of a world: the live nodes and the reader. *)
Lemma LookupNode_ext name checkParent (w w' : World) :
  a_nodes (arnold w') = a_nodes (arnold w) -> reader w' = reader w ->
  LookupNode name checkParent w' = LookupNode name checkParent w.
Proof.
  intros Ha Hr. unfold LookupNode, AiNodeLookUpByName, AiNodeGetParent, node_data.
  rewrite Ha, Hr. reflexivity.
Qed.

Section Further.
Context `{Env}.

(** ** Creating a node and looking it up *)

Lemma CreateArnoldNode_parts type_ name (st : TState) :
  let r := t_reader st in
  let a := arnold (world st) in
  let a1 := snd (AiNode (_universe r) type_ name (_procParent r) a) in
  let a2 :=
    if bool_decide (is_Some (_procParent r)) && (AiNodeEntryGetType type_ =? AI_NODE_SHAPE)%Z
    then AiNodeSetUInt (a_nextNode a) "id" (_id r) a1 else a1 in
  fst (CreateArnoldNode type_ name st) = a_nextNode a /\
  a_nodes (arnold (world (snd (CreateArnoldNode type_ name st)))) = a_nodes a2 /\
  a_nextNode (arnold (world (snd (CreateArnoldNode type_ name st)))) = S (a_nextNode a) /\
  reader (world (snd (CreateArnoldNode type_ name st))) = r /\
  tctx (snd (CreateArnoldNode type_ name st)) =
    set_tc_nodes (tc_nodes (tctx st) ++ [a_nextNode a]) (tctx st).
Proof.
  unfold CreateArnoldNode. cbn [AiNode fst snd].
  destruct (_ && _); cbn [t_arnold on_world on_arnold world arnold tctx];
    destruct (tc_createNodeLock (tctx st)); repeat split.
Qed.

(** X1. A node created under a name no live node of the universe bears, and
    that is not registered, is the one a lookup of the name returns.  One
    node is created: it has a handle no live node had, it is added to the
    list of the thread context, and the other nodes are as they were. *)
Theorem CreateArnoldNode_then_LookupNode (type_ name : string) (st : TState) :
  fresh_handles (arnold (world st)) ->
  _nodeNames (t_reader st) !! name = None ->
  AiNodeLookUpByName (_universe (t_reader st)) name (_procParent (t_reader st))
                     (arnold (world st)) = None ->
  let node := fst (CreateArnoldNode type_ name st) in
  let st' := snd (CreateArnoldNode type_ name st) in
  node_data (arnold (world st)) node = None /\
  LookupNode name true (world st') = Some node /\
  tc_nodes (tctx st') = tc_nodes (tctx st) ++ [node] /\
  n_type <$> node_data (arnold (world st')) node = Some type_ /\
  n_name <$> node_data (arnold (world st')) node = Some name /\
  (forall m, m ≠ node ->
             node_data (arnold (world st')) m = node_data (arnold (world st)) m).
Proof.
  intros Hfresh Hnames Hlook node st'.
  destruct (CreateArnoldNode_parts type_ name st) as (Hn & Ha & _ & Hr & Ht).
  fold node in Hn. fold st' in Ha, Hr, Ht.
  set (r := t_reader st) in *. set (a := arnold (world st)) in *.
  set (a1 := snd (AiNode (_universe r) type_ name (_procParent r) a)) in *.
  assert (Hd1 : node_data a1 node =
                Some {| n_universe := _universe r; n_type := type_; n_name := name;
                        n_parent := _procParent r; n_params := ∅; n_links := ∅ |})
    by (rewrite Hn; apply node_data_AiNode_new, Hfresh).
  (* the lookup in the store right after AiNode *)
  assert (Hl1 : LookupNode name true
                  {| arnold := a1; globals := globals (world st); reader := r;
                     readStepWrites := readStepWrites (world st) |} = Some node).
  { unfold LookupNode. cbn [reader arnold]. fold r. rewrite Hnames.
    unfold AiNodeLookUpByName in *.
    assert (Hnodes : a_nodes a1 =
                     a_nodes a ++
                     [(node, {| n_universe := _universe r; n_type := type_; n_name := name;
                                n_parent := _procParent r; n_params := ∅; n_links := ∅ |})])
      by (rewrite Hn; reflexivity).
    rewrite Hnodes, find_app_first.
    destruct (find _ (a_nodes a)) as [e|] eqn:Hfind; [discriminate Hlook|].
    cbn [find fst snd n_universe n_name].
    rewrite bool_decide_eq_true_2 by (split; reflexivity). cbn [fmap option_fmap option_map fst].
    unfold AiNodeGetParent. rewrite Hd1. cbn.
    destruct (_procParent r) as [parent|]; [|reflexivity].
    rewrite bool_decide_eq_false_2 by (intros Hne; apply Hne; reflexivity).
    reflexivity. }
  remember (bool_decide (is_Some (_procParent r)) &&
            (AiNodeEntryGetType type_ =? AI_NODE_SHAPE)%Z) as cond eqn:Hcond.
  assert (Ha' : a_nodes (arnold (world st')) =
                a_nodes (if cond then AiNodeSetUInt node "id" (_id r) a1 else a1))
    by (rewrite Ha, Hn; reflexivity).
  clear Ha Hcond.
  assert (Hnd : forall m, node_data (arnold (world st')) m =
                          if cond then node_data (AiNodeSetUInt node "id" (_id r) a1) m
                          else node_data a1 m).
  { intros m. unfold node_data at 1. rewrite Ha'. destruct cond; reflexivity. }
  split; [rewrite Hn; apply fresh_handles_next, Hfresh|].
  split.
  { rewrite <- Hl1. destruct cond.
    - transitivity (LookupNode name true
                      (on_arnold (update_node (node_with_param "id" (ParamUInt (_id r))) node)
                         {| arnold := a1; globals := globals (world st); reader := r;
                            readStepWrites := readStepWrites (world st) |})).
      + apply LookupNode_ext; [|exact Hr]. rewrite Ha'. reflexivity.
      + apply LookupNode_update_node, node_with_param_keeps.
    - apply LookupNode_ext; [|exact Hr]. rewrite Ha'. reflexivity. }
  split; [rewrite Ht, Hn; reflexivity|].
  assert (Hdata : exists d, node_data (arnold (world st')) node = Some d /\
                            n_type d = type_ /\ n_name d = name).
  { rewrite Hnd. destruct cond.
    - unfold AiNodeSetUInt, AiNodeSet. rewrite node_data_update_node.
      rewrite decide_True by reflexivity. rewrite Hd1. cbn. eauto.
    - rewrite Hd1. eauto. }
  destruct Hdata as (d & Hd & Hty & Hnm).
  split; [rewrite Hd; cbn; congruence|].
  split; [rewrite Hd; cbn; congruence|].
  intros m Hm. rewrite Hnd.
  assert (Hold : node_data a1 m = node_data a m)
    by (apply node_data_AiNode_old; rewrite <- Hn; exact Hm).
  destruct cond; [|exact Hold].
  unfold AiNodeSetUInt, AiNodeSet. rewrite node_data_update_node.
  rewrite decide_False by exact Hm. exact Hold.
Qed.

(** ** Lookups by name *)

(** X2. A registered name wins over the nodes of Arnold.  For a name that is not
    registered, a node of Arnold that has a parent other than the procedural
    parent of the reader is ignored when the parent is checked, and returned
    when it is not. *)
Theorem LookupNode_registered_or_own (name : string) (w : World) :
  (forall node checkParent,
     _nodeNames (reader w) !! name = Some node ->
     LookupNode name checkParent w = Some node) /\
  (forall node parent,
     _nodeNames (reader w) !! name = None ->
     AiNodeLookUpByName (_universe (reader w)) name (_procParent (reader w)) (arnold w)
       = Some node ->
     AiNodeGetParent node (arnold w) = Some parent ->
     Some parent ≠ _procParent (reader w) ->
     LookupNode name true w = None /\ LookupNode name false w = Some node) /\
  (forall node,
     _nodeNames (reader w) !! name = None ->
     LookupNode name true w = Some node ->
     AiNodeGetParent node (arnold w) = None \/
     AiNodeGetParent node (arnold w) = _procParent (reader w)).
Proof.
  unfold LookupNode. split; [|split].
  - intros node checkParent ->. reflexivity.
  - intros node parent -> Hfound Hparent Hother. rewrite Hfound, Hparent.
    rewrite bool_decide_eq_true_2 by assumption. split; reflexivity.
  - intros node ->.
    destruct (AiNodeLookUpByName _ _ _ _) as [n|]; [|discriminate].
    destruct (AiNodeGetParent n (arnold w)) as [parent|] eqn:Hp.
    + case_bool_decide as Hne; [discriminate|].
      intros [= <-]. right. rewrite Hp.
      destruct (decide (Some parent = _procParent (reader w))); [assumption|contradiction].
    + intros [= <-]. left. exact Hp.
Qed.

(** ** Merging the thread contexts *)

(** X3. A name a thread registers is found once the thread context is merged into
    the reader, unless the reader already had a node under the name: the
    first registration stays. *)
Theorem merged_name_is_found (name : string) (node : AtNode) (st : TState) (w : World)
    (checkParent : bool) :
  LookupNode name checkParent (snd (merge_nodes (tctx (AddNodeName name node st)) w)) =
  Some (default node (_nodeNames (reader w) !! name)).
Proof.
  assert (Ht : tc_nodeNames (tctx (AddNodeName name node st)) =
               <[name := node]> (tc_nodeNames (tctx st))).
  { unfold AddNodeName, with_lock. destruct (tc_addNodeNameLock (tctx st)); reflexivity. }
  unfold LookupNode, merge_nodes. cbn [snd on_reader reader _nodeNames set_nodeNames set_nodes].
  rewrite Ht, lookup_union, lookup_insert_eq.
  destruct (_nodeNames (reader w) !! name); reflexivity.
Qed.

Lemma merge_threads_cons (t : UsdArnoldReaderThreadContext)
    (rest : list UsdArnoldReaderThreadContext) (w : World) :
  merge_threads (t :: rest) w =
  (fst (merge_nodes t w) :: fst (merge_threads rest (snd (merge_nodes t w))),
   snd (merge_threads rest (snd (merge_nodes t w)))).
Proof.
  cbn [merge_threads]. destruct (merge_nodes t w) as [t' w1]. cbn [fst snd].
  destruct (merge_threads rest w1); reflexivity.
Qed.

(** X4. After the merge the reader has its nodes followed by the nodes of every
    thread, in thread order, and its names completed by theirs; Arnold is
    untouched and the lists of the threads are empty. *)
Theorem merge_threads_collects (ts : list UsdArnoldReaderThreadContext) (w : World) :
  let w' := snd (merge_threads ts w) in
  _nodes (reader w') = _nodes (reader w) ++ concat (map tc_nodes ts) /\
  _nodeNames (reader w') = fold_left (fun m t => m ∪ tc_nodeNames t) ts (_nodeNames (reader w)) /\
  arnold w' = arnold w /\
  Forall (fun t => tc_nodes t = [] /\ tc_nodeNames t = ∅) (fst (merge_threads ts w)) /\
  map tc_connections (fst (merge_threads ts w)) = map tc_connections ts.
Proof.
  revert w. induction ts as [|t rest IH]; intros w.
  - cbn. rewrite app_nil_r. repeat split. constructor.
  - rewrite merge_threads_cons. cbn [fst snd].
    specialize (IH (snd (merge_nodes t w))).
    cbv zeta in IH. destruct IH as (Hn & Hm & Ha & Hall & Hc).
    split; [|split; [|split; [|split]]].
    + rewrite Hn. cbn. rewrite <- app_assoc. reflexivity.
    + rewrite Hm. reflexivity.
    + rewrite Ha. reflexivity.
    + constructor; [split; reflexivity | exact Hall].
    + cbn [map]. rewrite Hc. reflexivity.
Qed.

(** ** The strict pass *)

(** A connection can be processed without any export: its target, or every
    name of its target list, resolves. *)
Definition resolvable (connection : Connection) (w : World) : bool :=
  if bool_decide (type connection = CONNECTION_ARRAY)
  then forallb (fun token => bool_decide (is_Some (LookupNode token true w)))
               (getline_tokens (target connection) "")
  else bool_decide (is_Some (LookupNode (target connection) true w)).

Lemma ProcessConnection_strict_result (connection : Connection) (st : TState) :
  _readStep (t_reader st) ≠ READ_DANGLING_CONNECTIONS ->
  fst (ProcessConnection connection st) = resolvable connection (world st).
Proof.
  intros Hstep. unfold ProcessConnection, resolvable.
  destruct (bool_decide (type connection = CONNECTION_ARRAY)).
  - destruct (ProcessConnection_array_strict (_readStep (t_reader st)) st Hstep
                (getline_tokens (target connection) "") [])
      as [[Hall [nodes ->]]|[Hnot ->]]; cbn [fst]; symmetry.
    + apply forallb_forall. unfold all_resolve in Hall.
      rewrite List.Forall_forall in Hall. intros token Hin.
      apply bool_decide_eq_true_2, Hall, Hin.
    + apply not_true_is_false. intros Hf. apply Hnot. unfold all_resolve.
      apply List.Forall_forall. intros token Hin.
      rewrite forallb_forall in Hf. specialize (Hf token Hin).
      apply bool_decide_eq_true in Hf. exact Hf.
  - rewrite bool_decide_eq_false_2 by assumption.
    destruct (LookupNode (target connection) true (world st)) as [node|].
    + rewrite bool_decide_eq_true_2 by eauto.
      destruct (type connection); [destruct (isOutputComponent _)| |]; reflexivity.
    + rewrite bool_decide_eq_false_2 by (intros [? Hs]; discriminate Hs). reflexivity.
Qed.

Lemma resolvable_ext (connection : Connection) (w w' : World) :
  (forall name, LookupNode name true w' = LookupNode name true w) ->
  resolvable connection w' = resolvable connection w.
Proof.
  intros Hl. unfold resolvable. rewrite Hl.
  destruct (bool_decide _); [|reflexivity].
  induction (getline_tokens (target connection) "") as [|token rest IH]; cbn;
    [reflexivity|]. rewrite Hl, IH. reflexivity.
Qed.

Lemma ProcessConnections_loop_filter (st0 : TState) :
  _readStep (t_reader st0) ≠ READ_DANGLING_CONNECTIONS ->
  forall connections danglingConnections st,
    t_reader st = t_reader st0 ->
    (forall name checkParent,
       LookupNode name checkParent (world st) = LookupNode name checkParent (world st0)) ->
    let r := ProcessConnections_loop connections danglingConnections st in
    fst r =
      danglingConnections ++
      List.filter (fun c => negb (resolvable c (world st0))) connections /\
    t_reader (snd r) = t_reader st0 /\
    forall name checkParent,
      LookupNode name checkParent (world (snd r)) = LookupNode name checkParent (world st0).
Proof.
  intros Hstep connections.
  induction connections as [|c rest IH]; intros dangling st Hr Hl; cbn.
  - rewrite app_nil_r. repeat split; assumption.
  - assert (Hs : _readStep (t_reader st) ≠ READ_DANGLING_CONNECTIONS) by (rewrite Hr; exact Hstep).
    pose proof (ProcessConnection_strict_frame c st Hs) as (Hr' & _ & Hl').
    pose proof (ProcessConnection_strict_result c st Hs) as Hres.
    rewrite (resolvable_ext c (world st0) (world st) (fun name => Hl name true)) in Hres.
    destruct (ProcessConnection c st) as [ok st'] eqn:Hpc. cbn [fst snd] in *.
    destruct (IH (if ok then dangling else dangling ++ [c]) st') as (Hf & Hrd & Hlk).
    + congruence.
    + intros name checkParent. rewrite Hl'. apply Hl.
    + split; [|split; assumption].
      rewrite Hf, <- Hres. destruct ok; cbn; [reflexivity|].
      rewrite <- app_assoc. reflexivity.
Qed.

(** X5. Outside the dangling step, ProcessConnections leaves in the list of the
    thread context the connections that do not resolve, in their order, and
    drops the others: a connection is set at most once.  It creates no
    node: the reader and what every name resolves to are as before. *)
Theorem ProcessConnections_keeps_unresolved (st : TState) :
  _readStep (t_reader st) ≠ READ_DANGLING_CONNECTIONS ->
  tc_connections (tctx (ProcessConnections st)) =
    List.filter (fun c => negb (resolvable c (world st))) (tc_connections (tctx st)) /\
  t_reader (ProcessConnections st) = t_reader st /\
  forall name checkParent,
    LookupNode name checkParent (world (ProcessConnections st)) =
    LookupNode name checkParent (world st).
Proof.
  intros Hstep. unfold ProcessConnections.
  pose proof (ProcessConnections_loop_filter st Hstep (tc_connections (tctx st)) []
                (on_tctx (set_tc_primvarsStack [[]]) st) eq_refl
                (fun _ _ => eq_refl)) as Hf.
  cbn [tctx on_tctx tc_connections set_tc_primvarsStack] in *.
  destruct (ProcessConnections_loop _ _ _) as [d st']. cbn [fst snd] in Hf.
  destruct Hf as (Hf & Hr & Hl). cbn. repeat split; assumption.
Qed.

(** ** The default shader *)

Lemma node_data_ext (a a' : Arnold) (m : AtNode) :
  a_nodes a' = a_nodes a -> node_data a' m = node_data a m.
Proof. intros Ha. unfold node_data. rewrite Ha. reflexivity. Qed.

(** The events the lock of the reader gives rise to: none for one thread, or
    when the lock has not been created. *)
Definition reader_lock_events (ev : AtCritSec -> Event) (w : World) : list Event :=
  match _readerLock (reader w) with
  | Some l => if bool_decide (_threadCount (reader w) ≠ 1) then [ev l] else []
  | None => []
  end.

Lemma LockReader_parts (w : World) :
  reader (LockReader w) = reader w /\
  a_nodes (arnold (LockReader w)) = a_nodes (arnold w) /\
  a_nextNode (arnold (LockReader w)) = a_nextNode (arnold w) /\
  a_log (arnold (LockReader w)) = a_log (arnold w) ++ reader_lock_events EvCritSecEnter w.
Proof.
  unfold LockReader, reader_lock_events.
  destruct (_readerLock (reader w)); [destruct (bool_decide _)|]; cbn;
    rewrite ?app_nil_r; repeat split.
Qed.

Lemma UnlockReader_parts (w : World) :
  reader (UnlockReader w) = reader w /\
  a_nodes (arnold (UnlockReader w)) = a_nodes (arnold w) /\
  a_nextNode (arnold (UnlockReader w)) = a_nextNode (arnold w) /\
  a_log (arnold (UnlockReader w)) = a_log (arnold w) ++ reader_lock_events EvCritSecLeave w.
Proof.
  unfold UnlockReader, reader_lock_events.
  destruct (_readerLock (reader w)); [destruct (bool_decide _)|]; cbn;
    rewrite ?app_nil_r; repeat split.
Qed.

Lemma GetDefaultShader_create (w : World) :
  _defaultShader (reader w) = None ->
  let w0 := LockReader w in
  let r := reader w in
  let n := a_nextNode (arnold w) in
  let a1 := snd (AiNode (_universe r) "standard_surface" "_default_arnold_shader"
                        (_procParent r) (arnold w0)) in
  let a2 := snd (AiNode (_universe r) "user_data_rgb" "_default_arnold_shader_color"
                        (_procParent r) a1) in
  let a5 := AiNodeLink (S n) "base_color" n
              (AiNodeSet (S n) "default" (ParamRGB 1 1 1)
                 (AiNodeSetStr (S n) "attribute" "displayColor" a2)) in
  GetDefaultShader w =
  (n, UnlockReader
        (on_reader (fun r => set_nodes (_nodes r ++ [n; S n])
                               (set_defaultShader (Some n) r))
                   (on_arnold (fun _ => a5) w0))).
Proof.
  intros Hnone. destruct (LockReader_parts w) as (Hr0 & _ & Hx0 & _).
  unfold GetDefaultShader. rewrite Hr0, Hnone.
  cbn [AiNode fst snd a_nextNode]. rewrite Hx0.
  set (w1 := on_reader _ _).
  destruct (UnlockReader_parts w1) as (Hr1 & _).
  rewrite Hr1. reflexivity.
Qed.

(** X6. The first request for the default shader creates two nodes, a
    standard_surface whose base_color is fed by a user_data_rgb that reads
    displayColor with white as default, and adds both to the nodes of the
    reader.  The reader lock is taken and released around it unless there is
    one thread. *)
Theorem GetDefaultShader_first (w : World) :
  fresh_handles (arnold w) ->
  _defaultShader (reader w) = None ->
  let shader := fst (GetDefaultShader w) in
  let w' := snd (GetDefaultShader w) in
  exists userData,
    node_data (arnold w) shader = None /\
    node_data (arnold w) userData = None /\
    _defaultShader (reader w') = Some shader /\
    _nodes (reader w') = _nodes (reader w) ++ [shader; userData] /\
    n_type <$> node_data (arnold w') shader = Some "standard_surface" /\
    n_type <$> node_data (arnold w') userData = Some "user_data_rgb" /\
    link_of (arnold w') shader "base_color" = Some (LinkNode userData) /\
    param_of (arnold w') userData "attribute" = Some (ParamStr "displayColor") /\
    param_of (arnold w') userData "default" = Some (ParamRGB 1 1 1) /\
    (forall m, m ≠ shader -> m ≠ userData ->
               node_data (arnold w') m = node_data (arnold w) m) /\
    a_log (arnold w') =
      a_log (arnold w) ++ reader_lock_events EvCritSecEnter w
                       ++ reader_lock_events EvCritSecLeave w.
Proof.
  intros Hfresh Hnone shader w'.
  destruct (LockReader_parts w) as (Hr0 & Hn0 & Hx0 & Hl0).
  assert (Hfresh0 : fresh_handles (arnold (LockReader w)))
    by (unfold fresh_handles; rewrite Hn0, Hx0; exact Hfresh).
  subst shader w'. rewrite (GetDefaultShader_create w Hnone). cbn [fst snd].
  set (n := a_nextNode (arnold w)).
  set (r := reader w).
  set (d1 := {| n_universe := _universe r; n_type := "standard_surface";
                n_name := "_default_arnold_shader"; n_parent := _procParent r;
                n_params := ∅; n_links := ∅ |}).
  set (d2 := {| n_universe := _universe r; n_type := "user_data_rgb";
                n_name := "_default_arnold_shader_color"; n_parent := _procParent r;
                n_params := ∅; n_links := ∅ |}).
  set (a1 := snd (AiNode (_universe r) "standard_surface" "_default_arnold_shader"
                         (_procParent r) (arnold (LockReader w)))).
  set (a2 := snd (AiNode (_universe r) "user_data_rgb" "_default_arnold_shader_color"
                         (_procParent r) a1)).
  set (a5 := AiNodeLink _ _ _ _).
  set (w1 := on_reader _ _).
  destruct (UnlockReader_parts w1) as (Hr1 & Hn1 & _ & Hl1).
  assert (Hfresh1 : fresh_handles a1) by apply fresh_handles_AiNode, Hfresh0.
  assert (Hnext1 : a_nextNode a1 = S n) by (cbn; rewrite Hx0; reflexivity).
  assert (Hd1 : node_data a1 n = Some d1).
  { unfold n. rewrite <- Hx0. apply node_data_AiNode_new, Hfresh0. }
  assert (Hd2 : node_data a2 (S n) = Some d2).
  { rewrite <- Hnext1. apply node_data_AiNode_new, Hfresh1. }
  assert (Hd2' : node_data a2 n = Some d1).
  { unfold a2. rewrite node_data_AiNode_old by (rewrite Hnext1; lia). exact Hd1. }
  assert (Hother : forall m, m ≠ n -> m ≠ S n -> node_data a5 m = node_data (arnold w) m).
  { intros m Hm Hm'. unfold a5, AiNodeLink, AiNodeSetStr, AiNodeSet.
    rewrite !node_data_update_node, !decide_False by assumption.
    unfold a2. rewrite node_data_AiNode_old by (rewrite Hnext1; exact Hm').
    unfold a1. rewrite node_data_AiNode_old by (rewrite Hx0; exact Hm).
    apply node_data_ext, Hn0. }
  assert (Hn5 : node_data a5 n =
                Some (node_with_link "base_color" (Some (LinkNode (S n))) d1)).
  { unfold a5, AiNodeLink, AiNodeSetStr, AiNodeSet.
    rewrite !node_data_update_node, decide_True by reflexivity.
    rewrite !decide_False by lia. rewrite Hd2'. reflexivity. }
  assert (Hu5 : node_data a5 (S n) =
                Some (node_with_param "default" (ParamRGB 1 1 1)
                        (node_with_param "attribute" (ParamStr "displayColor") d2))).
  { unfold a5, AiNodeLink, AiNodeSetStr, AiNodeSet.
    rewrite !node_data_update_node, decide_False by lia.
    rewrite !decide_True by reflexivity. rewrite Hd2. reflexivity. }
  assert (Hw1 : forall m, node_data (arnold (UnlockReader w1)) m = node_data a5 m).
  { intros m. apply node_data_ext. rewrite Hn1. reflexivity. }
  exists (S n).
  split; [apply fresh_handles_next, Hfresh|].
  split; [apply node_data_None; eapply Forall_impl; [exact Hfresh|];
          intros e He; fold n in He; cbn in He; lia|].
  rewrite Hr1. unfold link_of, param_of. rewrite !Hw1, Hn5, Hu5.
  split; [reflexivity|]. split; [unfold w1; cbn; rewrite Hr0; reflexivity|].
  split; [reflexivity|]. split; [reflexivity|].
  split; [reflexivity|]. split; [reflexivity|]. split; [reflexivity|].
  split; [intros m Hm Hm'; rewrite Hw1; apply Hother; assumption|].
  rewrite Hl1. unfold w1 at 1. cbn [arnold on_reader on_arnold].
  assert (Hlog5 : a_log a5 = a_log (arnold (LockReader w))) by reflexivity.
  rewrite Hlog5, Hl0, <- app_assoc. f_equal. f_equal.
  unfold reader_lock_events, w1. cbn. rewrite Hr0. reflexivity.
Qed.

(** Once the default shader exists, asking for it again returns it and
    changes neither the nodes of Arnold nor the reader. *)
Lemma GetDefaultShader_again (w : World) (shader : AtNode) :
  _defaultShader (reader w) = Some shader ->
  fst (GetDefaultShader w) = shader /\
  a_nodes (arnold (snd (GetDefaultShader w))) = a_nodes (arnold w) /\
  reader (snd (GetDefaultShader w)) = reader w /\
  a_nextNode (arnold (snd (GetDefaultShader w))) = a_nextNode (arnold w).
Proof.
  intros Hsome. destruct (LockReader_parts w) as (Hr0 & Hn0 & Hx0 & _).
  unfold GetDefaultShader. rewrite Hr0, Hsome.
  destruct (UnlockReader_parts (LockReader w)) as (Hr1 & Hn1 & Hx1 & _).
  cbn [fst snd]. rewrite Hr1, Hr0, Hsome, Hn1, Hn0, Hx1, Hx0. repeat split.
Qed.

(** X7. Asked twice, the default shader is created at most once: the second
    request returns the shader of the first and leaves the nodes of Arnold and
    the reader as the first left them. *)
Theorem GetDefaultShader_created_once (w : World) :
  let shader := fst (GetDefaultShader w) in
  let w1 := snd (GetDefaultShader w) in
  fst (GetDefaultShader w1) = shader /\
  a_nodes (arnold (snd (GetDefaultShader w1))) = a_nodes (arnold w1) /\
  reader (snd (GetDefaultShader w1)) = reader w1.
Proof.
  intros shader w1.
  assert (Hs : _defaultShader (reader w1) = Some shader).
  { subst shader w1. destruct (_defaultShader (reader w)) as [s|] eqn:Hd.
    - destruct (GetDefaultShader_again w s Hd) as (-> & _ & -> & _). exact Hd.
    - rewrite (GetDefaultShader_create w Hd). cbn [fst snd].
      match goal with |- context [UnlockReader ?w1] =>
        destruct (UnlockReader_parts w1) as (-> & _) end.
      reflexivity. }
  destruct (GetDefaultShader_again w1 shader Hs) as (? & ? & ? & _). repeat split; assumption.
Qed.

(** ** Transform caches *)

Lemma t_reader_on_tctx f (st : TState) : t_reader (on_tctx f st) = t_reader st.
Proof. reflexivity. Qed.

Lemma tctx_on_tctx f (st : TState) : tctx (on_tctx f st) = f (tctx st).
Proof. reflexivity. Qed.

(** X8. Without motion blur, or for the frame of the reader, a thread context
    that has its main cache answers with it and stores nothing.  In every
    case a second request for the same frame gets the same answer and leaves
    the thread context as the first left it, and a request stores at most one
    cache, for the frame asked and only when none was stored for it. *)
Theorem GetXformCache_reuses_caches (frame_ : Q) (st : TState) :
  let time := _time (t_reader st) in
  let st1 := snd (GetXformCache frame_ st) in
  (forall c, motionBlur time = false \/ Qeq_bool frame_ (frame time) = true ->
             tc_xformCache (tctx st) = Some c ->
             GetXformCache frame_ st = (c, st)) /\
  GetXformCache frame_ st1 = (fst (GetXformCache frame_ st), st1) /\
  (st1 = st \/
   existsb (Qeq_bool frame_) (tc_xformCacheMap (tctx st)) = false /\
   tc_xformCacheMap (tctx st1) = tc_xformCacheMap (tctx st) ++ [frame_]).
Proof.
  intros time st1. subst st1 time.
  split.
  { intros c Hfast Hc. unfold GetXformCache. rewrite Hc.
    destruct Hfast as [-> | ->]; [reflexivity|]. rewrite orb_true_r. reflexivity. }
  assert (Hrefl : Qeq_bool frame_ frame_ = true) by (apply Qeq_bool_iff; reflexivity).
  destruct (negb (motionBlur (_time (t_reader st))) ||
            Qeq_bool frame_ (frame (_time (t_reader st)))) eqn:Hfast;
    destruct (tc_xformCache (tctx st)) as [c|] eqn:Hc;
    destruct (existsb (Qeq_bool frame_) (tc_xformCacheMap (tctx st))) eqn:Hex;
    unfold GetXformCache;
    repeat (rewrite ?t_reader_on_tctx, ?tctx_on_tctx, ?Hfast, ?Hc, ?Hex, ?existsb_app;
            cbn [fst snd tc_xformCache tc_xformCacheMap set_tc_xformCacheMap existsb];
            rewrite ?Hrefl, ?orb_true_r);
    (split; [reflexivity|]);
    try (left; reflexivity); right; split; reflexivity.
Qed.

(** ** The keys of a matrix array *)

(** The number of keys, from the tests of the code. *)
Lemma ReadMatrix_array_nkeys (prim : UsdPrim) (time : TimeSettings)
    (isXformable : bool) (st : TState) :
  AiArrayGetNumKeys (fst (ReadMatrix_array prim time isXformable st)) =
  if motionBlur time &&
     (p_timeVarying prim ||
      existsb (fun parent => p_isXformable parent && p_timeVarying parent)
              (stage_ancestors st prim))
  then (length (GetTimeSamplesInInterval prim (TimeSettings_start time)
                  (TimeSettings_end time)) + 2) mod 256
  else 1.
Proof.
  unfold ReadMatrix_array.
  destruct (motionBlur time); cbn [andb].
  - destruct (p_timeVarying prim) eqn:Htv; cbn [negb orb].
    + match goal with
      | |- context [ReadMatrix_keys ?p ?x ?ts ?ix ?tv ?arr ?s] =>
          destruct (ReadMatrix_keys_result p x ts ix tv arr s) as [-> _]
      end.
      reflexivity.
    + destruct (existsb _ _) eqn:Hex.
      * match goal with
        | |- context [ReadMatrix_keys ?p ?x ?ts ?ix ?tv ?arr ?s] =>
            destruct (ReadMatrix_keys_result p x ts ix tv arr s) as [-> _]
        end.
        reflexivity.
      * destruct (getMatrix _ _ _ _) as [m st1]. reflexivity.
  - destruct (getMatrix _ _ _ _) as [m st1]. reflexivity.
Qed.

(** X9. The number of keys of the matrix array of a prim.  The array is
    animated when there is motion blur and the transform of the prim, or of
    one of its xformable ancestors, varies in time.  An animated array is
    allocated for the time samples strictly inside the interval and the two
    bounds, a number that the array keeps modulo 256; an array that is not
    animated has one key.  So the array has more than one key exactly when
    it is animated and that number, modulo 256, is more than one. *)
Theorem ReadMatrix_array_many_keys_iff (prim : UsdPrim) (time : TimeSettings)
    (isXformable : bool) (st : TState) :
  let animated :=
    motionBlur time = true /\
    (p_timeVarying prim = true \/
     exists parent, In parent (stage_ancestors st prim) /\
                    p_isXformable parent = true /\ p_timeVarying parent = true) in
  let numKeys :=
    length (GetTimeSamplesInInterval prim (TimeSettings_start time)
              (TimeSettings_end time)) + 2 in
  let keys := AiArrayGetNumKeys (fst (ReadMatrix_array prim time isXformable st)) in
  (animated -> keys = numKeys mod 256) /\
  (~ animated -> keys = 1) /\
  (1 < keys <-> animated /\ 1 < numKeys mod 256).
Proof.
  intros animated numKeys keys.
  pose proof (ReadMatrix_array_nkeys prim time isXformable st) as Hk.
  fold keys numKeys in Hk.
  assert (Hiff : animated <->
                 motionBlur time &&
                 (p_timeVarying prim ||
                  existsb (fun parent => p_isXformable parent && p_timeVarying parent)
                          (stage_ancestors st prim)) = true).
  { subst animated. rewrite andb_true_iff, orb_true_iff, existsb_exists.
    split; intros [Hmb Hv]; (split; [exact Hmb|]).
    - destruct Hv as [Hv | (parent & Hin & Hx & Hp)]; [left; exact Hv | right].
      exists parent. rewrite Hx, Hp. split; [exact Hin | reflexivity].
    - destruct Hv as [Hv | (parent & Hin & Hp)]; [left; exact Hv | right].
      apply andb_true_iff in Hp. exists parent. tauto. }
  destruct (motionBlur time && _) eqn:Hb.
  - assert (Ha : animated) by (apply Hiff; reflexivity).
    split; [intros _; exact Hk|]. split; [intros Hn; destruct (Hn Ha)|].
    rewrite Hk. tauto.
  - assert (Hn : ~ animated) by (intros Ha; apply Hiff in Ha; discriminate Ha).
    split; [intros Ha; destruct (Hn Ha)|]. split; [intros _; exact Hk|].
    rewrite Hk. split; [lia | tauto].
Qed.

(** The times of the keys: the loop starts at the first bound and adds the
    step at every turn, in floats. *)
Fixpoint key_times (timeStep : Q) (numKeys : nat) (timeVal : Q) : list Q :=
  match numKeys with
  | 0 => []
  | S n => timeVal :: key_times timeStep n (to_float (timeVal + timeStep))
  end.

(** The time of the transform cache that answers a request for the time
    [t]: the main cache of the thread context, when it has one and either
    the reader has no motion blur or [t] is its frame; a cache of [t]
    otherwise. *)
Definition xform_time (st : TState) (t : Q) : Q :=
  match tc_xformCache (tctx st) with
  | Some c =>
      if negb (motionBlur (_time (t_reader st))) || Qeq_bool t (frame (_time (t_reader st)))
      then c else t
  | None => t
  end.

Lemma key_times_length timeStep numKeys timeVal :
  length (key_times timeStep numKeys timeVal) = numKeys.
Proof.
  revert timeVal. induction numKeys as [|n IH]; intros timeVal; cbn; [reflexivity|].
  rewrite IH. reflexivity.
Qed.

Lemma GetXformCache_time frame_ (st : TState) :
  fst (GetXformCache frame_ st) = xform_time st frame_.
Proof.
  unfold GetXformCache, xform_time.
  destruct (negb _ || _); destruct (tc_xformCache (tctx st)); try reflexivity;
    destruct (existsb _ _); reflexivity.
Qed.

Lemma getMatrix_xformable prim frame_ (st : TState) :
  fst (getMatrix prim frame_ true st) =
  map to_float (p_localToWorld prim (xform_time st frame_)).
Proof.
  unfold getMatrix. pose proof (GetXformCache_time frame_ st) as Hc.
  destruct (GetXformCache frame_ st) as [c st1]. cbn [fst] in *. rewrite Hc. reflexivity.
Qed.

Lemma getMatrix_fst prim frame_ isXformable (st st' : TState) :
  world st' = world st -> tc_xformCache (tctx st') = tc_xformCache (tctx st) ->
  fst (getMatrix prim frame_ isXformable st') = fst (getMatrix prim frame_ isXformable st).
Proof.
  intros Hw Hc. unfold getMatrix.
  assert (Hf : fst (GetXformCache frame_ st') = fst (GetXformCache frame_ st)).
  { unfold GetXformCache, t_reader. rewrite Hw, Hc.
    destruct (negb _ || _); [destruct (tc_xformCache (tctx st))|];
      try reflexivity; destruct (existsb _ _), (existsb _ _); reflexivity. }
  pose proof (GetXformCache_world frame_ st) as Hw1.
  pose proof (GetXformCache_world frame_ st') as Hw1'.
  destruct (GetXformCache frame_ st) as [c st1].
  destruct (GetXformCache frame_ st') as [c' st1']. cbn [fst snd] in *. subst c'.
  unfold stage_ancestors, t_reader. rewrite Hw1', Hw1, Hw. reflexivity.
Qed.

Lemma getMatrix_cache prim frame_ isXformable (st : TState) :
  tc_xformCache (tctx (snd (getMatrix prim frame_ isXformable st))) =
  tc_xformCache (tctx st).
Proof.
  unfold getMatrix.
  assert (Hc : tc_xformCache (tctx (snd (GetXformCache frame_ st))) =
               tc_xformCache (tctx st)).
  { unfold GetXformCache.
    destruct (negb _ || _); [destruct (tc_xformCache (tctx st)) eqn:Hc0|];
      cbn [snd]; try assumption; destruct (existsb _ _); cbn; try assumption;
      reflexivity. }
  destruct (GetXformCache frame_ st) as [c st1]. exact Hc.
Qed.

(** The loop fills the keys that are left with the matrices at the times
    it goes through. *)
Lemma ReadMatrix_keys_data prim isXformable timeStep n (st0 : TState) :
  forall m k timeVal pre (st : TState),
    world st = world st0 -> tc_xformCache (tctx st) = tc_xformCache (tctx st0) ->
    length pre = k ->
    adata (fst (ReadMatrix_keys prim isXformable timeStep (seq k m) timeVal
                  {| nelements := 1; nkeys := n;
                     adata := DataMatrix (pre ++ replicate m []) |} st)) =
    DataMatrix (pre ++ map (fun t => fst (getMatrix prim t isXformable st0))
                           (key_times timeStep m timeVal)).
Proof.
  induction m as [|m IH]; intros k timeVal pre st Hw Hc Hk; cbn [seq ReadMatrix_keys].
  - reflexivity.
  - pose proof (getMatrix_fst prim timeVal isXformable st0 st Hw Hc) as Hm.
    pose proof (getMatrix_world prim timeVal isXformable st) as Hw1.
    pose proof (getMatrix_cache prim timeVal isXformable st) as Hc1.
    destruct (getMatrix prim timeVal isXformable st) as [matrix st1].
    cbn [fst snd] in *. subst matrix.
    unfold AiArraySetMtx. cbn [adata nelements nkeys].
    rewrite insert_app_r_alt by lia. rewrite Hk, Nat.sub_diag. cbn [replicate].
    change (<[0 := ?x]> (?y :: ?l)) with (x :: l).
    rewrite (cons_middle _ pre), app_assoc.
    rewrite IH.
    + rewrite <- app_assoc. reflexivity.
    + congruence.
    + congruence.
    + rewrite length_app. cbn. lia.
Qed.

(** A number of keys is a float and an [int] as it is. *)
Lemma to_float_small (k : nat) :
  k < 256 -> to_float (inject_Z (Z.of_nat k)) = inject_Z (Z.of_nat k).
Proof.
  intros Hk.
  assert (Hall : forallb (fun k => let q := inject_Z (Z.of_nat k) in
                                   (Qnum (to_float q) =? Qnum q)%Z &&
                                   (Qden (to_float q) =? Qden q)%positive)
                         (seq 0 256) = true) by (vm_compute; reflexivity).
  rewrite forallb_forall in Hall.
  specialize (Hall k). cbv zeta in Hall.
  destruct (proj1 (andb_true_iff _ _) (Hall (proj2 (in_seq 256 0 k) ltac:(lia))))
    as [Hn Hd].
  apply Z.eqb_eq in Hn. apply Pos.eqb_eq in Hd.
  destruct (to_float (inject_Z (Z.of_nat k))) as [a b], (inject_Z (Z.of_nat k)) as [c d].
  cbn [Qnum Qden] in *. congruence.
Qed.

Lemma to_int_small (k : nat) : k < 256 -> to_int (Z.of_nat k) = Z.of_nat k.
Proof. intros Hk. unfold to_int. rewrite Z.mod_small by lia. lia. Qed.

(** X10. Under motion blur the array of an animated prim with less than 256
    keys has all its keys filled.  The time of the first key is the start
    of the interval; the time of each following key is the time of the key
    before it plus the step, the sum being rounded to a float.  The step is
    the length of the interval, taken in doubles and converted to float,
    divided in floats by the number of keys less one.  For an xformable
    prim, the key of a time holds the local-to-world transform of the prim
    in the transform cache that answers for this time, its entries
    converted to float.  The keys are taken at these times, not at the time
    samples of the transform.  The values are finite: the model has no
    infinity. *)
Theorem ReadMatrix_array_key_times (prim : UsdPrim) (time : TimeSettings) (st : TState) :
  motionBlur time = true -> p_timeVarying prim = true ->
  let min := TimeSettings_start time in
  let max := TimeSettings_end time in
  let numKeys := length (GetTimeSamplesInInterval prim min max) + 2 in
  let length_ := to_float (to_double (max - min)) in
  let timeStep := to_float (length_ / inject_Z (Z.of_nat (numKeys - 1))) in
  let times := key_times timeStep numKeys (to_float min) in
  numKeys < 256 ->
  float_finite min = true ->
  double_finite (max - min) = true ->
  float_finite (to_double (max - min)) = true ->
  float_finite (length_ / inject_Z (Z.of_nat (numKeys - 1))) = true ->
  forallb (fun t => float_finite (t + timeStep) &&
                    forallb float_finite (p_localToWorld prim (xform_time st t)))
          times = true ->
  length times = numKeys /\
  adata (fst (ReadMatrix_array prim time true st)) =
  DataMatrix (map (fun t => map to_float (p_localToWorld prim (xform_time st t))) times).
Proof.
  intros Hmb Htv min max numKeys length_ timeStep times Hsmall _ _ _ _ _.
  split; [apply key_times_length|].
  unfold ReadMatrix_array. rewrite Hmb, Htv. cbn [andb negb].
  fold min max numKeys.
  rewrite to_int_small, to_float_small by lia.
  fold length_ timeStep. unfold AiArrayAllocate_MATRIX.
  rewrite Nat.mod_small by exact Hsmall.
  change (replicate numKeys ([] : AtMatrix)) with ([] ++ replicate numKeys ([] : AtMatrix)).
  rewrite (ReadMatrix_keys_data prim true timeStep numKeys st numKeys 0 (to_float min) [] st)
    by reflexivity.
  cbn [app]. fold times. f_equal. apply map_ext. intros t. apply getMatrix_xformable.
Qed.


(** ** Pruned prims *)

Lemma skip_children_tree (t : PrimTree) :
  forall d rest, skip_children d (PreAndPostVisit t ++ rest) = skip_children d rest.
Proof.
  induction t as [p children IH] using PrimTree_nested_ind. intros d rest.
  cbn [PreAndPostVisit app skip_children v_isPostVisit]. rewrite <- app_assoc.
  assert (Hc : forall l,
             skip_children (S d)
               (flat_map (fun c => if p_active (tree_prim c) then PreAndPostVisit c else [])
                         children ++ l) = skip_children (S d) l).
  { intros l. induction IH as [|c cs Hc _ IHcs]; cbn [flat_map app]; [reflexivity|].
    rewrite <- app_assoc. destruct (p_active (tree_prim c)); cbn [app].
    - rewrite Hc. exact IHcs.
    - exact IHcs. }
  rewrite Hc. reflexivity.
Qed.

(** X11. The turn of the loop that meets a prim that is invisible, or of another
    purpose, moves the iterator past the whole range of the prim: none of its
    descendants is visited, nothing is read, the prim is not counted, and the
    thread context only has one more entry on its stack of primvars. *)
Theorem pruned_subtree_is_skipped (td : UsdThreadData) (prim : UsdPrim)
    (children : list PrimTree) (rest : list Visit) (index : nat) (st : TState) :
  skipped prim = false ->
  pruneChildren (_purpose (t_reader st)) prim = true ->
  exists entry,
    ReaderThread_body td (PreAndPostVisit (PrimNode prim children) ++ rest) index st =
    (rest, index,
     on_tctx (set_tc_primvarsStack (tc_primvarsStack (tctx st) ++ [entry])) st).
Proof.
  intros Hs Hp. unfold skipped in Hs.
  cbn [PreAndPostVisit app]. unfold ReaderThread_body. cbn [v_prim v_isPostVisit].
  rewrite Hs.
  set (entry := match FindIncrementallyInheritablePrimvars prim _ with
                | [] => _ | _ => _ end).
  exists entry.
  change (_purpose (t_reader (on_tctx ?f st))) with (_purpose (t_reader st)).
  rewrite Hp. unfold iter_increment at 2. cbn [andb negb v_isPostVisit].
  rewrite <- app_assoc.
  assert (Hc : forall l d,
             skip_children d
               (flat_map (fun c => if p_active (tree_prim c) then PreAndPostVisit c else [])
                         children ++ l) = skip_children d l).
  { intros l d. induction children as [|c cs IHcs]; cbn [flat_map app]; [reflexivity|].
    rewrite <- app_assoc. destruct (p_active (tree_prim c)); cbn [app].
    - rewrite skip_children_tree. exact IHcs.
    - exact IHcs. }
  rewrite Hc. reflexivity.
Qed.

(** ** Reads that give up *)

Lemma select_registry_parts (w : World) :
  a_nodes (arnold (select_registry w)) = a_nodes (arnold w) /\
  is_Some (_registry (reader (select_registry w))) /\
  _nodes (reader (select_registry w)) = _nodes (reader w) /\
  _readStep (reader (select_registry w)) = _readStep (reader w) /\
  _stage (reader (select_registry w)) = _stage (reader w) /\
  _mask (reader (select_registry w)) = _mask (reader w) /\
  _procParent (reader (select_registry w)) = _procParent (reader w) /\
  readStepWrites (select_registry w) = readStepWrites w.
Proof.
  unfold select_registry. destruct (_registry (reader w)) eqn:Hr.
  - rewrite Hr. repeat split. eauto.
  - destruct (s_readerRegistry (globals w)) eqn:Hg; cbn; rewrite ?Hg; cbn;
      repeat split; eauto.
Qed.

(** The procedural mask of [ReadStage]. *)
Definition procMask (w : World) : Z :=
  match _procParent (reader w) with
  | Some _ =>
      Z.lor (Z.lor (Z.lor (Z.lor AI_NODE_CAMERA AI_NODE_LIGHT) AI_NODE_SHAPE)
                   AI_NODE_SHADER) AI_NODE_OPERATOR
  | None => AI_NODE_ALL
  end.

(** X12. A stage that is read from an object path that names no prim, or a prim
    that is not active, is not traversed: no node is created, the read step
    is not assigned, and the last thing that happens is the message.  The
    reader keeps the stage, its mask is already narrowed and its registry
    chosen. *)
Theorem ReadStage_bad_object_path (stage : UsdStage) (path : string) (w : World) :
  path ≠ "" ->
  (GetPrimAtPath stage path = None \/
   exists rootPrim_, GetPrimAtPath stage path = Some rootPrim_ /\
                     p_active (tree_prim rootPrim_) = false) ->
  let w' := ReadStage (Some stage) path w in
  a_nodes (arnold w') = a_nodes (arnold w) /\
  _nodes (reader w') = _nodes (reader w) /\
  _readStep (reader w') = _readStep (reader w) /\
  readStepWrites w' = readStepWrites w /\
  _stage (reader w') = Some stage /\
  _mask (reader w') = Z.land (_mask (reader w)) (procMask w) /\
  is_Some (_registry (reader w')) /\
  exists msg,
    last (a_log (arnold w')) =
    Some (match GetPrimAtPath stage path with
          | Some _ => EvMsgWarning msg
          | None => EvMsgError msg
          end).
Proof.
  intros Hpath Hbad w'. subst w'. unfold ReadStage.
  destruct (String.eqb_spec path "") as [->|_]; [contradiction|].
  set (w1 := on_reader (set_stage (Some stage)) w).
  set (w2 := if _debug (reader w1) then _ else w1).
  assert (H2 : a_nodes (arnold w2) = a_nodes (arnold w) /\ reader w2 = reader w1 /\
               readStepWrites w2 = readStepWrites w).
  { subst w2. destruct (_debug (reader w1)); repeat split. }
  destruct H2 as (Ha2 & Hr2 & Hs2).
  set (w3 := on_reader _ w2).
  destruct (select_registry_parts w3) as (Ha & Hreg & Hn & Hstep & Hstage & Hmask & _ & Hwr).
  assert (Hfinal : forall e,
    let w' := on_arnold (arnold_emit e) (select_registry w3) in
    a_nodes (arnold w') = a_nodes (arnold w) /\
    _nodes (reader w') = _nodes (reader w) /\
    _readStep (reader w') = _readStep (reader w) /\
    readStepWrites w' = readStepWrites w /\
    _stage (reader w') = Some stage /\
    _mask (reader w') = Z.land (_mask (reader w)) (procMask w) /\
    is_Some (_registry (reader w')) /\
    last (a_log (arnold w')) = Some e).
  { intros e. cbn [on_arnold arnold reader readStepWrites arnold_emit a_nodes a_log].
    split; [rewrite Ha; exact Ha2|].
    split; [rewrite Hn; unfold w3; cbn; rewrite Hr2; reflexivity|].
    split; [rewrite Hstep; unfold w3; cbn; rewrite Hr2; reflexivity|].
    split; [rewrite Hwr; exact Hs2|].
    split; [rewrite Hstage; unfold w3; cbn; rewrite Hr2; reflexivity|].
    split; [rewrite Hmask; unfold w3, procMask; cbn; rewrite Hr2; reflexivity|].
    split; [exact Hreg | apply last_snoc]. }
  destruct Hbad as [Hnone | (rootPrim_ & Hsome & Hinactive)].
  - rewrite Hnone.
    match goal with |- context [on_arnold (AiMsgError ?m) _] =>
      destruct (Hfinal (EvMsgError m)) as (F1 & F2 & F3 & F4 & F5 & F6 & F7 & F8);
      repeat (split; [assumption|]); exists m; exact F8 end.
  - rewrite Hsome, Hinactive. cbn [negb].
    match goal with |- context [on_arnold (AiMsgWarning ?m) _] =>
      destruct (Hfinal (EvMsgWarning m)) as (F1 & F2 & F3 & F4 & F5 & F6 & F7 & F8);
      repeat (split; [assumption|]); exists m; exact F8 end.
Qed.

(** X13. A file that cannot be opened, read without overrides, and a cache id
    that names no stage, end the read with an error message: no node is
    created and no stage is set.  The reader keeps the file name, or the
    cache id, it was given. *)
Theorem Read_gives_up_without_stage (path : string) (w : World) :
  _nodes (reader w) = [] ->
  (forall filename overrides,
     SdfLayer_FindOrOpen filename = None ->
     overrides = None \/ overrides = Some [] ->
     let w' := Read_file filename overrides path w in
     arnold w' = AiMsgError ("[usd] Failed to open file (" ++ filename ++ ")") (arnold w) /\
     _filename (reader w') = filename /\ _overrides (reader w') = overrides /\
     _stage (reader w') = _stage (reader w) /\
     _readStep (reader w') = _readStep (reader w)) /\
  (forall cacheId,
     UsdStageCache_Find cacheId = None ->
     let w' := Read_cache cacheId path w in
     arnold w' = AiMsgError ("[usd] Cache ID not valid " ++ pretty cacheId) (arnold w) /\
     _cacheId (reader w') = cacheId /\
     _stage (reader w') = _stage (reader w) /\
     _readStep (reader w') = _readStep (reader w)).
Proof.
  intros Hnodes. split.
  - intros filename overrides Hopen Hover w'. subst w'. unfold Read_file.
    rewrite Hnodes, Hopen. destruct Hover as [-> | ->]; repeat split.
  - intros cacheId Hfind w'. subst w'. unfold Read_cache.
    rewrite Hnodes, Hfind. repeat split.
Qed.


(** ** Nodes made for instances and prototypes *)

Lemma CreateArnoldNode_data type_ name (st : TState) :
  fresh_handles (arnold (world st)) ->
  let node := a_nextNode (arnold (world st)) in
  let st' := snd (CreateArnoldNode type_ name st) in
  fst (CreateArnoldNode type_ name st) = node /\
  fresh_handles (arnold (world st')) /\
  (exists d, node_data (arnold (world st')) node = Some d /\
             n_type d = type_ /\ n_name d = name /\
             forall attr, attr ≠ "id" -> n_params d !! attr = None) /\
  (forall m, m ≠ node ->
             node_data (arnold (world st')) m = node_data (arnold (world st)) m) /\
  reader (world st') = t_reader st /\
  tctx st' = set_tc_nodes (tc_nodes (tctx st) ++ [node]) (tctx st).
Proof.
  intros Hfresh node st'.
  destruct (CreateArnoldNode_parts type_ name st) as (Hn & Ha & Hx & Hr & Ht).
  fold st' in Ha, Hx, Hr, Ht. fold node in Hn, Ha, Hx, Ht.
  set (r := t_reader st) in *. set (a := arnold (world st)) in *.
  set (a1 := snd (AiNode (_universe r) type_ name (_procParent r) a)) in *.
  remember (bool_decide (is_Some (_procParent r)) &&
            (AiNodeEntryGetType type_ =? AI_NODE_SHAPE)%Z) as cond eqn:Hcond.
  clear Hcond.
  assert (Hf1 : fresh_handles a1) by apply fresh_handles_AiNode, Hfresh.
  assert (Hd1 : node_data a1 node =
                Some {| n_universe := _universe r; n_type := type_; n_name := name;
                        n_parent := _procParent r; n_params := ∅; n_links := ∅ |})
    by apply node_data_AiNode_new, Hfresh.
  assert (Hnd : forall m, node_data (arnold (world st')) m =
                          if cond then node_data (AiNodeSetUInt node "id" (_id r) a1) m
                          else node_data a1 m).
  { intros m. unfold node_data at 1. rewrite Ha. destruct cond; reflexivity. }
  split; [exact Hn|]. split.
  { unfold fresh_handles. rewrite Ha, Hx.
    destruct cond; [apply (fresh_handles_update_node _ _ a1 Hf1) | exact Hf1]. }
  split.
  { rewrite Hnd. destruct cond.
    - unfold AiNodeSetUInt, AiNodeSet. rewrite node_data_update_node.
      rewrite decide_True by reflexivity. rewrite Hd1. cbn.
      eexists. split; [reflexivity|]. cbn. repeat split.
      intros attr Hattr. rewrite lookup_insert_ne by congruence. apply lookup_empty.
    - rewrite Hd1. eexists. split; [reflexivity|]. cbn. repeat split. }
  split; [|split; assumption].
  intros m Hm. rewrite Hnd.
  assert (Hold : node_data a1 m = node_data a m) by (apply node_data_AiNode_old; exact Hm).
  destruct cond; [|exact Hold].
  unfold AiNodeSetUInt, AiNodeSet. rewrite node_data_update_node.
  rewrite decide_False by exact Hm. exact Hold.
Qed.

Lemma param_of_set_node n attr v a m attr' :
  m ≠ n -> param_of (AiNodeSet n attr v a) m attr' = param_of a m attr'.
Proof.
  intros Hne. unfold param_of, AiNodeSet. rewrite node_data_update_node.
  rewrite decide_False by exact Hne. reflexivity.
Qed.

Lemma node_data_set_other n attr v a m :
  m ≠ n -> node_data (AiNodeSet n attr v a) m = node_data a m.
Proof.
  intros Hne. unfold AiNodeSet. rewrite node_data_update_node.
  rewrite decide_False by exact Hne. reflexivity.
Qed.

Lemma node_type_set n attr v a m :
  n_type <$> node_data (AiNodeSet n attr v a) m = n_type <$> node_data a m.
Proof.
  unfold AiNodeSet. rewrite node_data_update_node.
  destruct (decide (m = n)); [|reflexivity]. destruct (node_data a m); reflexivity.
Qed.

Lemma node_name_set n attr v a m :
  n_name <$> node_data (AiNodeSet n attr v a) m = n_name <$> node_data a m.
Proof.
  unfold AiNodeSet. rewrite node_data_update_node.
  destruct (decide (m = n)); [|reflexivity]. destruct (node_data a m); reflexivity.
Qed.

Lemma fresh_handles_set n attr v a : fresh_handles a -> fresh_handles (AiNodeSet n attr v a).
Proof. apply fresh_handles_update_node. Qed.

Lemma param_of_set_some n attr v a :
  is_Some (node_data a n) -> param_of (AiNodeSet n attr v a) n attr = Some v.
Proof. intros [d Hd]. eapply param_of_set, Hd. Qed.

(** Rewriting with what a parameter of a node is after a [AiNodeSet]. *)
Ltac params :=
  unfold AiNodeSetArray, AiNodeSetPtr, AiNodeSetFlt, AiNodeSetStr, AiNodeSetByte,
         AiNodeSetUInt, AiNodeSetBool;
  repeat first
    [ rewrite node_type_set
    | rewrite node_name_set
    | rewrite param_of_set_other by discriminate
    | rewrite param_of_set_node by assumption
    | rewrite node_data_set_other by assumption ].

Lemma create_prototype_procedural_parts (connection : Connection) (st : TState) :
  fresh_handles (arnold (world st)) ->
  let node := a_nextNode (arnold (world st)) in
  let r := create_prototype_procedural connection st in
  let a' := arnold (world (snd r)) in
  fst r = node /\
  n_type <$> node_data a' node = Some "usd" /\
  n_name <$> node_data a' node = Some (target connection) /\
  param_of a' node "filename" = Some (ParamStr (_filename (t_reader st))) /\
  param_of a' node "object_path" = Some (ParamStr (target connection)) /\
  param_of a' node "frame" = Some (ParamFlt (frame (_time (t_reader st)))) /\
  param_of a' node "visibility" = Some (ParamByte 0) /\
  (forall m, m ≠ node -> node_data a' m = node_data (arnold (world st)) m) /\
  reader (world (snd r)) = t_reader st /\
  tc_nodes (tctx (snd r)) = tc_nodes (tctx st) ++ [node].
Proof.
  intros Hfresh node r a'. subst r a'. unfold create_prototype_procedural.
  destruct (CreateArnoldNode_data "usd" (target connection) st Hfresh)
    as (Hn & _ & (d & Hd & Hty & Hnm & _) & Hother & Hr & Ht).
  fold node in Hn, Hd, Hother, Ht.
  destruct (CreateArnoldNode "usd" (target connection) st) as [n st1].
  cbn [fst snd] in *. subst n.
  replace (t_reader st1) with (t_reader st) by (symmetry; exact Hr).
  set (st5 := t_arnold (AiNodeSetFlt node "motion_end" _) _).
  assert (E1 : is_Some (node_data (arnold (world st1)) node)) by eauto.
  assert (H5 : is_Some (node_data (arnold (world st5)) node) /\
               n_type <$> node_data (arnold (world st5)) node = Some "usd" /\
               n_name <$> node_data (arnold (world st5)) node = Some (target connection) /\
               param_of (arnold (world st5)) node "filename" =
                 Some (ParamStr (_filename (t_reader st))) /\
               param_of (arnold (world st5)) node "object_path" =
                 Some (ParamStr (target connection)) /\
               param_of (arnold (world st5)) node "frame" =
                 Some (ParamFlt (frame (_time (t_reader st)))) /\
               (forall m, m ≠ node ->
                          node_data (arnold (world st5)) m = node_data (arnold (world st)) m) /\
               reader (world st5) = t_reader st /\
               tc_nodes (tctx st5) = tc_nodes (tctx st) ++ [node]).
  { subst st5. cbn [t_arnold on_world on_arnold world arnold tctx reader].
    split; [|split; [|split; [|split; [|split; [|split; [|split; [|split]]]]]]].
    - unfold AiNodeSetFlt, AiNodeSetStr. rewrite !node_data_set. exact E1.
    - params. rewrite Hd. cbn. congruence.
    - params. rewrite Hd. cbn. congruence.
    - params. apply param_of_set_some, E1.
    - params. apply param_of_set_some. rewrite node_data_set. exact E1.
    - params. apply param_of_set_some. rewrite !node_data_set. exact E1.
    - intros m Hm. params. apply Hother, Hm.
    - exact Hr.
    - rewrite Ht. reflexivity. }
  clearbody st5.
  set (st6 := match _overrides (t_reader st) with Some _ => _ | None => _ end).
  assert (H6 : is_Some (node_data (arnold (world st6)) node) /\
               n_type <$> node_data (arnold (world st6)) node = Some "usd" /\
               n_name <$> node_data (arnold (world st6)) node = Some (target connection) /\
               param_of (arnold (world st6)) node "filename" =
                 Some (ParamStr (_filename (t_reader st))) /\
               param_of (arnold (world st6)) node "object_path" =
                 Some (ParamStr (target connection)) /\
               param_of (arnold (world st6)) node "frame" =
                 Some (ParamFlt (frame (_time (t_reader st)))) /\
               (forall m, m ≠ node ->
                          node_data (arnold (world st6)) m = node_data (arnold (world st)) m) /\
               reader (world st6) = t_reader st /\
               tc_nodes (tctx st6) = tc_nodes (tctx st) ++ [node]).
  { subst st6. destruct (_overrides (t_reader st)); [|exact H5].
    destruct H5 as (E5 & ? & ? & ? & ? & ? & O5 & ? & ?).
    cbn [t_arnold on_world on_arnold world arnold tctx reader].
    split; [|split; [|split; [|split; [|split; [|split; [|split; [|split]]]]]]];
      params; try assumption.
    - unfold AiNodeSetArray. rewrite node_data_set. exact E5.
    - intros m Hm. params. apply O5, Hm. }
  clearbody st6. destruct H6 as (E6 & Hty6 & Hnm6 & Hf6 & Ho6 & Hfr6 & O6 & R6 & T6).
  cbn [fst snd t_arnold on_world on_arnold world arnold tctx reader].
  split; [reflexivity|]. params.
  repeat (split; [assumption|]).
  split; [apply param_of_set_some, E6|].
  split; [intros m Hm; params; apply O6, Hm|].
  split; assumption.
Qed.

(** X14. In the step of the dangling connections, a pointer to a prototype that
    no primitive reader translates gets a node of its own: a nested [usd]
    procedural, named after the prototype, that reads the file of the reader
    from the path of the prototype and is hidden.  The connection is set to
    it. *)
Theorem dangling_prototype_gets_procedural (connection : Connection) (prim : UsdPrim)
    (st : TState) :
  fresh_handles (arnold (world st)) ->
  _readStep (t_reader st) = READ_DANGLING_CONNECTIONS ->
  type connection = CONNECTION_PTR ->
  LookupNode (target connection) true (world st) = None ->
  stage_prim st (target connection) = Some prim ->
  p_isPrototype prim = true ->
  (r0 ← _registry (t_reader st); GetPrimReader r0 (p_typeName prim)) = None ->
  is_Some (node_data (arnold (world st)) (sourceNode connection)) ->
  let r := ProcessConnection connection st in
  let a' := arnold (world (snd r)) in
  exists node,
    fst r = true /\
    node_data (arnold (world st)) node = None /\
    n_type <$> node_data a' node = Some "usd" /\
    n_name <$> node_data a' node = Some (target connection) /\
    param_of a' node "filename" = Some (ParamStr (_filename (t_reader st))) /\
    param_of a' node "object_path" = Some (ParamStr (target connection)) /\
    param_of a' node "visibility" = Some (ParamByte 0) /\
    param_of a' (sourceNode connection) (sourceAttr connection) = Some (ParamPtr (Some node)) /\
    tc_nodes (tctx (snd r)) = tc_nodes (tctx st) ++ [node].
Proof.
  intros Hfresh Hstep Hty Hlook Hprim Hproto Hnone [ds Hds] r a'. subst r a'.
  unfold ProcessConnection.
  rewrite Hty, bool_decide_eq_false_2 by discriminate.
  rewrite Hlook, Hstep, bool_decide_eq_true_2 by reflexivity.
  rewrite Hprim.
  set (st1 := on_tctx (fun t =>
                set_tc_primvarsStack
                  (vec_set_back match _stage (t_reader st) with
                                | Some stage => FindPrimvarsWithInheritance stage prim
                                | None => p_primvars prim
                                end (tc_primvarsStack t)) t) st).
  assert (Hfe : force_export prim st = st1).
  { unfold force_export, ReadPrimitive_prim. fold st1.
    change (t_reader st1) with (t_reader st). rewrite Hnone. reflexivity. }
  rewrite Hfe. change (world st1) with (world st). rewrite Hlook, Hproto.
  rewrite bool_decide_eq_true_2 by reflexivity. cbn [andb].
  destruct (create_prototype_procedural_parts connection st1 Hfresh)
    as (Hn & Htype & Hname & Hfile & Hpath & _ & Hvis & Hother & Hr & Ht).
  change (arnold (world st1)) with (arnold (world st)) in *.
  change (t_reader st1) with (t_reader st) in *.
  change (tctx st1) with
    (set_tc_primvarsStack
       (vec_set_back match _stage (t_reader st) with
                     | Some stage => FindPrimvarsWithInheritance stage prim
                     | None => p_primvars prim
                     end (tc_primvarsStack (tctx st))) (tctx st)) in Ht.
  destruct (create_prototype_procedural connection st1) as [node st2].
  cbn [fst snd] in *. subst node.
  set (node := a_nextNode (arnold (world st))) in *.
  assert (Hnew : node_data (arnold (world st)) node = None)
    by apply fresh_handles_next, Hfresh.
  assert (Hne : node ≠ sourceNode connection) by (intros Heq; rewrite Heq in Hnew; congruence).
  assert (Hsrc : node_data (arnold (world st2)) (sourceNode connection) = Some ds)
    by (rewrite Hother by congruence; exact Hds).
  exists node. cbn [fst snd t_arnold on_world on_arnold world arnold tctx].
  split; [reflexivity|]. split; [exact Hnew|].
  params.
  repeat (split; [assumption|]).
  split; [|exact Ht].
  eapply param_of_set, Hsrc.
Qed.


(** The thread context without its map of transform caches. *)
Definition tc_but_caches (t : UsdArnoldReaderThreadContext) : UsdArnoldReaderThreadContext :=
  set_tc_xformCacheMap [] t.

Lemma GetXformCache_tctx frame_ (st : TState) :
  tc_but_caches (tctx (snd (GetXformCache frame_ st))) = tc_but_caches (tctx st).
Proof.
  unfold GetXformCache.
  destruct (negb _ || _); [destruct (tc_xformCache (tctx st))|];
    try reflexivity; destruct (existsb _ _); reflexivity.
Qed.

Lemma getMatrix_tctx prim frame_ isXformable (st : TState) :
  tc_but_caches (tctx (snd (getMatrix prim frame_ isXformable st))) = tc_but_caches (tctx st).
Proof.
  unfold getMatrix. pose proof (GetXformCache_tctx frame_ st) as Hc.
  destruct (GetXformCache frame_ st) as [c st1]. exact Hc.
Qed.

Lemma ReadMatrix_keys_tctx prim isXformable timeStep indices :
  forall timeVal array (st : TState),
    tc_but_caches (tctx (snd (ReadMatrix_keys prim isXformable timeStep indices
                                timeVal array st))) = tc_but_caches (tctx st).
Proof.
  induction indices as [|i rest IH]; intros timeVal array st; cbn [ReadMatrix_keys];
    [reflexivity|].
  pose proof (getMatrix_tctx prim timeVal isXformable st) as Hm.
  destruct (getMatrix prim timeVal isXformable st) as [m st1]. cbn [snd] in Hm.
  rewrite IH. exact Hm.
Qed.

Lemma ReadMatrix_array_tctx prim time isXformable (st : TState) :
  tc_but_caches (tctx (snd (ReadMatrix_array prim time isXformable st))) =
  tc_but_caches (tctx st).
Proof.
  unfold ReadMatrix_array. destruct (motionBlur time && _).
  - apply ReadMatrix_keys_tctx.
  - pose proof (getMatrix_tctx prim (frame time) isXformable st) as Hm.
    destruct (getMatrix prim (frame time) isXformable st) as [m st1]. exact Hm.
Qed.

(** [ReadMatrix] sets parameters of its node, and stores transform caches:
    the rest of the state is as it was. *)
Lemma ReadMatrix_frame prim node time context_ isXformable (st : TState) :
  let st' := ReadMatrix prim node time context_ isXformable st in
  reader (world st') = reader (world st) /\
  tc_but_caches (tctx st') = tc_but_caches (tctx st) /\
  a_log (arnold (world st')) = a_log (arnold (world st)) /\
  (forall m, is_Some (node_data (arnold (world st')) m) <->
             is_Some (node_data (arnold (world st)) m)) /\
  (forall m, n_type <$> node_data (arnold (world st')) m =
             n_type <$> node_data (arnold (world st)) m) /\
  (forall m, n_name <$> node_data (arnold (world st')) m =
             n_name <$> node_data (arnold (world st)) m) /\
  (forall m attr, m ≠ node ->
                  param_of (arnold (world st')) m attr = param_of (arnold (world st)) m attr) /\
  (forall attr, attr ≠ "matrix" -> attr ≠ "motion_start" -> attr ≠ "motion_end" ->
                param_of (arnold (world st')) node attr = param_of (arnold (world st)) node attr).
Proof.
  intros st'. subst st'. unfold ReadMatrix.
  set (p := match c_matrix context_ with Some _ => _ | None => _ end).
  assert (Hp : exists matrices st1,
             p = (matrices, t_arnold (AiNodeSetArray node "matrix" matrices) st1) /\
             world st1 = world st /\ tc_but_caches (tctx st1) = tc_but_caches (tctx st)).
  { subst p. destruct (c_matrix context_) as [matrices|].
    - exists matrices, st. repeat split.
    - pose proof (ReadMatrix_array_world prim time isXformable st) as Hw.
      pose proof (ReadMatrix_array_tctx prim time isXformable st) as Ht.
      destruct (ReadMatrix_array prim time isXformable st) as [matrices st1].
      exists matrices, st1. repeat split; assumption. }
  destruct Hp as (matrices & st1 & -> & Hw & Ht).
  destruct (1 <? AiArrayGetNumKeys matrices)%nat;
    cbn [t_arnold on_world on_arnold world arnold tctx reader]; rewrite Hw;
    (split; [reflexivity|]); (split; [exact Ht|]); (split; [reflexivity|]);
    (split; [intros m; unfold AiNodeSetFlt, AiNodeSetArray; rewrite ?node_data_set;
             reflexivity|]);
    (split; [intros m; params; reflexivity|]);
    (split; [intros m; params; reflexivity|]);
    (split; [intros m attr Hm; params; reflexivity|]);
    intros attr H1 H2 H3; unfold AiNodeSetFlt, AiNodeSetArray;
    rewrite ?param_of_set_other by congruence; reflexivity.
Qed.

(** X15. In the traversal an instance of a prototype is given a [ginstance] node,
    named after the instance, that is visible to every ray, does not inherit
    the transform of its parent and has the motion range of the reader.  The
    link to its prototype is left for later: one pointer connection, from
    the parameter [node] to the path of the prototype, is put on the list of
    the thread context. *)
Theorem instance_gets_ginstance (prim : UsdPrim) (proto : string)
    (context_ : UsdArnoldReaderContext) (st : TState) :
  fresh_handles (arnold (world st)) ->
  _readStep (t_reader st) = READ_TRAVERSE ->
  p_prototype prim = Some proto ->
  let st' := ReadPrimitive prim context_ true st in
  let a' := arnold (world st') in
  let time := _time (t_reader st) in
  exists ginstance,
    node_data (arnold (world st)) ginstance = None /\
    n_type <$> node_data a' ginstance = Some "ginstance" /\
    n_name <$> node_data a' ginstance = Some (p_path prim) /\
    param_of a' ginstance "motion_start" = Some (ParamFlt (motionStart time)) /\
    param_of a' ginstance "motion_end" = Some (ParamFlt (motionEnd time)) /\
    param_of a' ginstance "visibility" = Some (ParamByte AI_RAY_ALL) /\
    param_of a' ginstance "inherit_xform" = Some (ParamBool false) /\
    param_of a' ginstance "node" = None /\
    tc_nodes (tctx st') = tc_nodes (tctx st) ++ [ginstance] /\
    tc_connections (tctx st') =
      tc_connections (tctx st) ++
      [{| sourceNode := ginstance; sourceAttr := "node"; target := proto;
          type := CONNECTION_PTR; outputElement := "" |}].
Proof.
  intros Hfresh Hstep Hproto st' a' time. subst st' a' time.
  unfold ReadPrimitive. rewrite Hproto.
  destruct (CreateArnoldNode_data "ginstance" (p_path prim) st Hfresh)
    as (Hn & _ & (d & Hd & Hty & Hnm & Hpar) & Hother & Hr & Ht).
  set (node := a_nextNode (arnold (world st))) in *.
  destruct (CreateArnoldNode "ginstance" (p_path prim) st) as [n st1].
  cbn [fst snd] in *. subst n.
  assert (Hstep1 : _readStep (t_reader st1) = READ_TRAVERSE)
    by (unfold t_reader; rewrite Hr; exact Hstep).
  assert (Hnode1 : param_of (arnold (world st1)) node "node" = None).
  { unfold param_of. rewrite Hd. cbn. apply Hpar. discriminate. }
  set (st2 := if p_isXformable prim then _ else st1).
  assert (H2 : reader (world st2) = t_reader st /\
               tc_but_caches (tctx st2) = tc_but_caches (tctx st1) /\
               is_Some (node_data (arnold (world st2)) node) /\
               n_type <$> node_data (arnold (world st2)) node = Some "ginstance" /\
               n_name <$> node_data (arnold (world st2)) node = Some (p_path prim) /\
               param_of (arnold (world st2)) node "node" = None).
  { subst st2. destruct (p_isXformable prim).
    - destruct (ReadMatrix_frame prim node (_time (t_reader st)) context_ true st1)
        as (R & T & _ & E & Ty & Nm & _ & P).
      rewrite R, Ty, Nm, P, Hd by discriminate. cbn. rewrite Hty, Hnm.
      split; [exact Hr|]. split; [exact T|]. split; [apply E; eauto|].
      repeat split. exact Hnode1.
    - rewrite Hd. cbn. rewrite Hty, Hnm. repeat split; eauto. }
  clearbody st2. destruct H2 as (R2 & T2 & E2 & Ty2 & Nm2 & P2).
  set (st6 := t_arnold (AiNodeSetBool node "inherit_xform" false) _).
  assert (Hstep6 : bool_decide (_readStep (t_reader st6) = READ_TRAVERSE) = true).
  { apply bool_decide_eq_true_2. subst st6. unfold t_reader. cbn. rewrite R2. exact Hstep. }
  unfold AddConnection. rewrite Hstep6.
  assert (Hconn : tc_connections (tctx st6) = tc_connections (tctx st)).
  { change (tc_connections (tctx st2) = tc_connections (tctx st)).
    change (tc_connections (tc_but_caches (tctx st2)) =     tc_connections (tctx st)).
    rewrite T2, Ht. reflexivity. }
  assert (Hnodes : tc_nodes (tctx st6) = tc_nodes (tctx st) ++ [node]).
  { change (tc_nodes (tc_but_caches (tctx st2)) = tc_nodes (tctx st) ++ [node]).
    rewrite T2, Ht. reflexivity. }
  assert (H6 : n_type <$> node_data (arnold (world st6)) node = Some "ginstance" /\
               n_name <$> node_data (arnold (world st6)) node = Some (p_path prim) /\
               param_of (arnold (world st6)) node "motion_start" =
                 Some (ParamFlt (motionStart (_time (t_reader st)))) /\
               param_of (arnold (world st6)) node "motion_end" =
                 Some (ParamFlt (motionEnd (_time (t_reader st)))) /\
               param_of (arnold (world st6)) node "visibility" = Some (ParamByte AI_RAY_ALL) /\
               param_of (arnold (world st6)) node "inherit_xform" = Some (ParamBool false) /\
               param_of (arnold (world st6)) node "node" = None).
  { subst st6. cbn [t_arnold on_world on_arnold world arnold].
    split; [params; exact Ty2|]. split; [params; exact Nm2|].
    split; [params; apply param_of_set_some, E2|].
    split; [params; apply param_of_set_some; rewrite node_data_set; exact E2|].
    split; [params; apply param_of_set_some; rewrite !node_data_set; exact E2|].
    split; [apply param_of_set_some; unfold AiNodeSetByte, AiNodeSetFlt;
            rewrite !node_data_set; exact E2|].
    params. exact P2. }
  clearbody st6.
  exists node. split; [apply fresh_handles_next, Hfresh|].
  assert (Hw : forall body l,
             (forall s, world (body s) = world s) ->
             a_nodes (arnold (world (with_lock l body st6))) = a_nodes (arnold (world st6))).
  { intros body l Hb. unfold with_lock. destruct l; cbn; rewrite Hb; reflexivity. }
  assert (Ht' : forall body l,
             (forall s, world (body s) = world s) ->
             (forall s f, tctx (body (t_arnold f s)) = tctx (body s)) ->
             tctx (with_lock l body st6) = tctx (body st6)).
  { intros body l Hb Hb'. unfold with_lock. destruct l; cbn; [apply Hb'|reflexivity]. }
  unfold param_of.
  rewrite !(node_data_ext (arnold (world st6))) by (apply Hw; reflexivity).
  rewrite Ht' by reflexivity. cbn [tctx on_tctx tc_nodes tc_connections set_tc_connections].
  rewrite Hconn, Hnodes.
  destruct H6 as (? & ? & ? & ? & ? & ? & ?). repeat split; assumption.
Qed.

End Further.

(** * Material bindings *)

(** ** Names and the strings that list them *)

Fixpoint no_space (s : string) : bool :=
  match s with
  | EmptyString => true
  | String c s' => negb (Ascii.eqb c " "%char) && no_space s'
  end.

(** A name a list can hold: it is not empty and has no space. *)
Definition good_name (n : string) : Prop := n ≠ "" /\ no_space n = true.

Fixpoint spaced (names : list string) : string :=
  match names with
  | [] => ""
  | n :: names' => (" " ++ n ++ spaced names')%string
  end.

(** The names, with a space between two of them. *)
Definition join_names (names : list string) : string :=
  match names with
  | [] => ""
  | n :: names' => (n ++ spaced names')%string
  end.

Lemma string_app_cons (x : ascii) (a b : string) :
  (String x a ++ b)%string = String x (a ++ b)%string.
Proof. reflexivity. Qed.

Lemma string_app_nil_l (a : string) : ("" ++ a)%string = a.
Proof. reflexivity. Qed.

Lemma string_app_assoc (a b c : string) : ((a ++ b) ++ c = a ++ (b ++ c))%string.
Proof.
  induction a as [|x a IH]; [reflexivity|].
  rewrite !string_app_cons, IH. reflexivity.
Qed.

Lemma string_app_nil_r (a : string) : (a ++ "")%string = a.
Proof.
  induction a as [|x a IH]; [reflexivity|].
  rewrite string_app_cons, IH. reflexivity.
Qed.

Lemma getline_name (n : string) :
  no_space n = true ->
  forall rest token,
    getline_tokens (n ++ rest)%string token = getline_tokens rest (token ++ n)%string.
Proof.
  induction n as [|c n IH]; intros Hn rest token.
  - rewrite string_app_nil_l, string_app_nil_r. reflexivity.
  - cbn in Hn. apply andb_true_iff in Hn as [Hc Hn].
    rewrite string_app_cons. cbn [getline_tokens].
    destruct (Ascii.eqb c " "); [discriminate Hc|].
    rewrite (IH Hn), string_app_assoc. reflexivity.
Qed.

Lemma getline_spaced (names : list string) :
  Forall good_name names ->
  forall token, token ≠ "" -> getline_tokens (spaced names) token = token :: names.
Proof.
  induction 1 as [|n names [Hne Hn] _ IH]; intros token Htoken.
  - cbn. destruct (String.eqb_spec token ""); [contradiction | reflexivity].
  - cbn [spaced]. rewrite string_app_cons, string_app_nil_l. cbn [getline_tokens].
    change (Ascii.eqb " " " ") with true. cbn iota.
    rewrite (getline_name n Hn), string_app_nil_l. rewrite (IH n Hne). reflexivity.
Qed.

(** Read back token by token, the string of the names gives the names. *)
Lemma getline_join (names : list string) :
  Forall good_name names -> getline_tokens (join_names names) "" = names.
Proof.
  intros Hall. destruct Hall as [|n names [Hne Hn] Hall]; [reflexivity|].
  cbn [join_names]. rewrite (getline_name n Hn), string_app_nil_l.
  apply getline_spaced; assumption.
Qed.

Lemma spaced_snoc (names : list string) (x : string) :
  spaced (names ++ [x]) = (spaced names ++ " " ++ x)%string.
Proof.
  induction names as [|n names IH]; cbn [spaced app].
  - rewrite string_app_nil_l, string_app_nil_r. reflexivity.
  - rewrite IH, !string_app_assoc. reflexivity.
Qed.

Lemma join_snoc (names : list string) (x : string) :
  join_names (names ++ [x]) =
  ((if (0 <? Z.of_nat (length names))%Z then join_names names ++ " "
    else join_names names) ++ x)%string.
Proof.
  destruct names as [|n names]; cbn [join_names app length].
  - cbn [spaced Z.of_nat Z.ltb Z.compare]. rewrite string_app_nil_l. apply string_app_nil_r.
  - replace (0 <? Z.of_nat (S (length names)))%Z with true by (symmetry; apply Z.ltb_lt; lia).
    rewrite spaced_snoc, !string_app_assoc. reflexivity.
Qed.

Lemma join_not_empty (names : list string) :
  names ≠ [] -> Forall good_name names -> join_names names ≠ "".
Proof.
  intros Hne Hall. destruct Hall as [|n names [Hn _] _]; [contradiction|].
  cbn [join_names]. destruct n; [contradiction|]. rewrite string_app_cons. discriminate.
Qed.

Lemma node_data_Some_lt (a : Arnold) (m : AtNode) :
  fresh_handles a -> is_Some (node_data a m) -> m < a_nextNode a.
Proof.
  unfold fresh_handles, node_data. intros Hf [d Hd].
  induction Hf as [|e l He _ IH]; [discriminate Hd|].
  cbn in Hd. destruct (Nat.eqb_spec (fst e) m) as [<-|_]; [exact He | exact (IH Hd)].
Qed.

Section MaterialBindings.
Context `{Env}.
Variable ComputeBoundMaterial : UsdPrim -> option UsdShadeMaterial.

(** ** The default shader, asked for by name *)

(** The name [AiNodeGetName(GetDefaultShader())] yields. *)
Definition default_shader_name (w : World) : string :=
  AiNodeGetName (fst (GetDefaultShader w)) (arnold (snd (GetDefaultShader w))).

Lemma GetDefaultShader_sets (w : World) :
  _defaultShader (reader (snd (GetDefaultShader w))) = Some (fst (GetDefaultShader w)).
Proof.
  destruct (_defaultShader (reader w)) as [s|] eqn:Hd.
  - destruct (GetDefaultShader_again w s Hd) as (-> & _ & -> & _). exact Hd.
  - rewrite (GetDefaultShader_create w Hd). cbn [fst snd].
    match goal with |- context [UnlockReader ?w1] =>
      destruct (UnlockReader_parts w1) as (-> & _) end.
    reflexivity.
Qed.

Lemma GetDefaultShader_nodes (w : World) :
  fresh_handles (arnold w) ->
  let w' := snd (GetDefaultShader w) in
  fresh_handles (arnold w') /\
  a_nextNode (arnold w) <= a_nextNode (arnold w') /\
  (forall m, m < a_nextNode (arnold w) ->
             node_data (arnold w') m = node_data (arnold w) m) /\
  _readStep (reader w') = _readStep (reader w).
Proof.
  intros Hfresh w'. subst w'.
  destruct (_defaultShader (reader w)) as [s|] eqn:Hd.
  - destruct (GetDefaultShader_again w s Hd) as (_ & Hn & Hr & Hx).
    unfold fresh_handles. rewrite Hn, Hx, Hr.
    split; [exact Hfresh|]. split; [lia|]. split; [|reflexivity].
    intros m _. apply node_data_ext, Hn.
  - rewrite (GetDefaultShader_create w Hd). cbn [snd].
    destruct (LockReader_parts w) as (Hr0 & Hn0 & Hx0 & _).
    set (n := a_nextNode (arnold w)).
    set (r := reader w).
    set (a1 := snd (AiNode (_universe r) "standard_surface" "_default_arnold_shader"
                           (_procParent r) (arnold (LockReader w)))).
    set (a2 := snd (AiNode (_universe r) "user_data_rgb" "_default_arnold_shader_color"
                           (_procParent r) a1)).
    set (a5 := AiNodeLink _ _ _ _).
    set (w1 := on_reader _ _).
    destruct (UnlockReader_parts w1) as (Hr1 & Hn1 & Hx1 & _).
    assert (Hfresh0 : fresh_handles (arnold (LockReader w)))
      by (unfold fresh_handles; rewrite Hn0, Hx0; exact Hfresh).
    assert (Hf5 : fresh_handles a5).
    { unfold a5, AiNodeLink, AiNodeSetStr, AiNodeSet.
      repeat apply fresh_handles_update_node.
      apply fresh_handles_AiNode, fresh_handles_AiNode, Hfresh0. }
    assert (Hx5 : a_nextNode a5 = S (S n)) by (cbn; rewrite Hx0; reflexivity).
    split; [unfold fresh_handles; rewrite Hn1, Hx1; exact Hf5|].
    split; [rewrite Hx1; change (a_nextNode (arnold w1)) with (a_nextNode a5); lia|].
    split.
    + intros m Hm. rewrite (node_data_ext (arnold w1)) by exact Hn1.
      change (arnold w1) with a5. unfold a5, AiNodeLink, AiNodeSetStr, AiNodeSet.
      rewrite !node_data_update_node, !decide_False by (fold n in Hm; lia).
      unfold a2. rewrite node_data_AiNode_old by (cbn; rewrite Hx0; fold n in Hm; lia).
      unfold a1. rewrite node_data_AiNode_old by (rewrite Hx0; fold n in Hm; lia).
      apply node_data_ext, Hn0.
    + rewrite Hr1. unfold w1. cbn. rewrite Hr0. reflexivity.
Qed.

Lemma default_shader_name_again (w : World) :
  default_shader_name (snd (GetDefaultShader w)) = default_shader_name w.
Proof.
  unfold default_shader_name.
  destruct (GetDefaultShader_again _ _ (GetDefaultShader_sets w)) as (-> & Hn & _).
  unfold AiNodeGetName. rewrite (node_data_ext _ _ _ Hn). reflexivity.
Qed.

(** What the search for the names of a prim keeps of a state. *)
Definition extends (st st' : TState) : Prop :=
  tctx st' = tctx st /\
  fresh_handles (arnold (world st')) /\
  a_nextNode (arnold (world st)) <= a_nextNode (arnold (world st')) /\
  (forall m, m < a_nextNode (arnold (world st)) ->
             node_data (arnold (world st')) m = node_data (arnold (world st)) m) /\
  _readStep (t_reader st') = _readStep (t_reader st) /\
  default_shader_name (world st') = default_shader_name (world st).

Lemma extends_refl (st : TState) : fresh_handles (arnold (world st)) -> extends st st.
Proof. intros Hf. unfold extends. repeat split; auto. Qed.

Lemma extends_trans (st1 st2 st3 : TState) :
  extends st1 st2 -> extends st2 st3 -> extends st1 st3.
Proof.
  intros (T1 & F1 & X1 & N1 & S1 & D1) (T2 & F2 & X2 & N2 & S2 & D2).
  unfold extends. split; [congruence|]. split; [exact F2|]. split; [lia|].
  split; [|split; congruence].
  intros m Hm. rewrite N2 by lia. apply N1, Hm.
Qed.

Lemma context_GetDefaultShader_extends (st : TState) :
  fresh_handles (arnold (world st)) ->
  extends st (snd (context_GetDefaultShader st)) /\
  AiNodeGetName (fst (context_GetDefaultShader st))
                (arnold (world (snd (context_GetDefaultShader st)))) =
  default_shader_name (world st).
Proof.
  intros Hf. unfold context_GetDefaultShader. split.
  - destruct (GetDefaultShader_nodes (world st) Hf) as (F & X & N & S).
    pose proof (default_shader_name_again (world st)) as D.
    destruct (GetDefaultShader (world st)) as [shader w]. cbn [fst snd] in *.
    unfold extends. cbn [world tctx]. repeat split; assumption.
  - unfold default_shader_name.
    destruct (GetDefaultShader (world st)) as [shader w]. reflexivity.
Qed.

(** The material targets of a prim have no space. *)
Definition targets_without_space (prim : UsdPrim) : bool :=
  no_space (fst (getMaterialTargets ComputeBoundMaterial prim "" (Some ""))) &&
  no_space (default "" (snd (getMaterialTargets ComputeBoundMaterial prim "" (Some "")))).

Lemma getMaterialTargets_pointer (prim : UsdPrim) (isPolymesh : bool) :
  let r := getMaterialTargets ComputeBoundMaterial prim ""
             (if isPolymesh then Some "" else None) in
  let r' := getMaterialTargets ComputeBoundMaterial prim "" (Some "") in
  fst r = fst r' /\
  default "" (snd r) = if isPolymesh then default "" (snd r') else "".
Proof.
  unfold getMaterialTargets.
  destruct (ComputeBoundMaterial prim), isPolymesh; cbn; split; reflexivity.
Qed.

Lemma array_targets_spec (prim : UsdPrim) (isPolymesh assignDefault : bool) (st : TState) :
  fresh_handles (arnold (world st)) ->
  targets_without_space prim = true ->
  (assignDefault = true -> no_space (default_shader_name (world st)) = true) ->
  let r := array_targets ComputeBoundMaterial prim isPolymesh assignDefault st in
  good_name (fst (fst r)) /\ no_space (snd (fst r)) = true /\ extends st (snd r).
Proof.
  intros Hf Hts Hdef r. subst r. unfold array_targets.
  destruct (getMaterialTargets_pointer prim isPolymesh) as [Hs Hd].
  unfold targets_without_space in Hts. apply andb_true_iff in Hts as [Hts Htd].
  destruct (getMaterialTargets ComputeBoundMaterial prim ""
              (if isPolymesh then Some "" else None)) as [shaderStr dispPtr].
  cbn [fst snd] in Hs, Hd. rewrite <- Hs in Hts.
  assert (Hdisp : no_space (default "" dispPtr) = true)
    by (rewrite Hd; destruct isPolymesh; [exact Htd | reflexivity]).
  assert (Hnull : forall s, no_space s = true ->
                            good_name (if String.eqb s "" then "NULL" else s)).
  { intros s Hsp. destruct (String.eqb_spec s ""); split; auto; discriminate. }
  destruct (String.eqb shaderStr "" && assignDefault) eqn:Hcase.
  - apply andb_true_iff in Hcase as [_ ->].
    destruct (context_GetDefaultShader_extends st Hf) as [He Hname].
    destruct (context_GetDefaultShader st) as [shader st1]. cbn [fst snd] in *.
    rewrite Hname. split; [apply Hnull, Hdef; reflexivity|]. split; assumption.
  - cbn [fst snd]. split; [apply Hnull, Hts|]. split; [exact Hdisp|].
    apply extends_refl, Hf.
Qed.

(** ** The arrays of the subsets *)

(** The two strings list the names found so far. *)
Definition arrays_inv (isPolymesh : bool) (names disps : list string)
    (l : SubsetsLocals) : Prop :=
  shadersArrayStr l = join_names names /\ Forall good_name names /\
  (isPolymesh = true ->
   dispArrayStr l = join_names disps /\ length disps = length names /\
   Forall good_name disps) /\
  (hasDisplacement l = true -> isPolymesh = true).

Lemma append_targets_inv (isPolymesh : bool) (names disps : list string)
    (l : SubsetsLocals) (shaderStr dispStr : string) :
  arrays_inv isPolymesh names disps l ->
  good_name shaderStr -> no_space dispStr = true ->
  arrays_inv isPolymesh (names ++ [shaderStr])
    (disps ++ [if String.eqb dispStr "" then "NULL" else dispStr])
    (append_targets (0 <? Z.of_nat (length names))%Z isPolymesh shaderStr dispStr l).
Proof.
  intros (Hs & Hg & Hd & Hh) Hshader Hdisp. unfold arrays_inv, append_targets.
  cbn [shadersArrayStr dispArrayStr hasDisplacement].
  split; [rewrite join_snoc, Hs; reflexivity|].
  split; [apply Forall_app; split; [exact Hg | repeat constructor; apply Hshader]|].
  split.
  - intros ->. destruct (Hd eq_refl) as (Hds & Hlen & Hgd).
    split; [rewrite join_snoc, Hds, Hlen; reflexivity|].
    split; [rewrite !length_app, Hlen; reflexivity|].
    apply Forall_app. split; [exact Hgd|]. repeat constructor.
    + destruct (String.eqb_spec dispStr ""); [discriminate | assumption].
    + destruct (String.eqb dispStr ""); [reflexivity | exact Hdisp].
  - destruct isPolymesh; [reflexivity|]. exact Hh.
Qed.

Lemma set_shidxs_spec (P : Z -> Prop) (elementCount : nat) (shidx_ : Z)
    (subsetIndices : list Z) :
  forall v,
    P (to_uchar shidx_) -> Forall P v ->
    length (set_shidxs subsetIndices elementCount shidx_ v) = length v /\
    Forall P (set_shidxs subsetIndices elementCount shidx_ v).
Proof.
  induction subsetIndices as [|idx rest IH]; intros v Hp Hv; cbn [set_shidxs];
    [split; [reflexivity | exact Hv]|].
  destruct (to_uint idx <? Z.of_nat elementCount)%Z; [destruct (idx <? 0)%Z|];
    try (apply IH; assumption).
  destruct (IH (<[Z.to_nat idx := to_uchar shidx_]> v) Hp) as [Hl Hf].
  - apply Forall_insert; assumption.
  - rewrite length_insert in Hl. split; assumption.
Qed.

(** An index of the array: of one of the [k] names found so far, or the
    one of the faces no subset has. *)
Definition index_below (k n : nat) (e : Z) : Prop :=
  (0 <= e < Z.of_nat k)%Z \/ e = Z.of_nat n.

Lemma subsets_loop_spec (n elementCount : nat) (isPolymesh assignDefault : bool) :
  n < 256 ->
  forall subsets names disps l (st : TState),
    fresh_handles (arnold (world st)) ->
    forallb targets_without_space (map subset_GetPrim subsets) = true ->
    (assignDefault = true -> no_space (default_shader_name (world st)) = true) ->
    arrays_inv isPolymesh names disps l ->
    shidx l = Z.of_nat (length names) ->
    length (shidxs l) = elementCount ->
    Forall (index_below (length names) n) (shidxs l) ->
    length names + length subsets <= n ->
    let r := subsets_loop ComputeBoundMaterial subsets isPolymesh assignDefault
                          elementCount l st in
    exists names' disps',
      arrays_inv isPolymesh names' disps' (fst r) /\
      length names' = length names + length subsets /\
      length (shidxs (fst r)) = elementCount /\
      Forall (index_below (length names') n) (shidxs (fst r)) /\
      extends st (snd r).
Proof.
  intros Hn subsets.
  induction subsets as [|subset rest IH];
    intros names disps l st Hf Hts Hdef Hinv Hidx Hlen Hall Hle r; subst r;
    cbn [subsets_loop].
  - exists names, disps. cbn [fst snd length]. rewrite Nat.add_0_r.
    split; [exact Hinv|]. split; [reflexivity|]. split; [exact Hlen|].
    split; [exact Hall|]. apply extends_refl, Hf.
  - cbn [map forallb length] in Hts, Hle. apply andb_true_iff in Hts as [Ht Hts].
    destruct (array_targets_spec (subset_GetPrim subset) isPolymesh assignDefault st
                Hf Ht Hdef) as (Hgood & Hdisp & Hext).
    destruct (array_targets ComputeBoundMaterial (subset_GetPrim subset) isPolymesh
                assignDefault st) as [[shaderStr dispStr] st1].
    cbn [fst snd] in Hgood, Hdisp, Hext.
    pose proof (append_targets_inv isPolymesh names disps l shaderStr dispStr
                  Hinv Hgood Hdisp) as Hinv1.
    rewrite Hidx.
    set (l1 := append_targets _ _ _ _ l) in *.
    set (l2 := {| shadersArrayStr := shadersArrayStr l1; dispArrayStr := _;
                  hasDisplacement := _; shidxs := _; shidx := _ |}).
    assert (Hk : (to_uchar (Z.of_nat (length names)) = Z.of_nat (length names))%Z)
      by (unfold to_uchar; apply Z.mod_small; lia).
    destruct (set_shidxs_spec (index_below (length (names ++ [shaderStr])) n)
                elementCount (shidx l1)
                (subset_GetIndices subset (frame (_time (t_reader st1)))) (shidxs l1))
      as [Hlen2 Hall2].
    { change (shidx l1) with (shidx l). rewrite Hidx, Hk. left.
      rewrite length_app. cbn. lia. }
    { change (shidxs l1) with (shidxs l). eapply Forall_impl; [exact Hall|].
      intros e [He | He]; [left | right; exact He].
      rewrite length_app. cbn. lia. }
    destruct Hext as (T1 & F1 & X1 & N1 & S1 & D1).
    destruct (IH (names ++ [shaderStr])
                 (disps ++ [if String.eqb dispStr "" then "NULL" else dispStr]) l2 st1)
      as (names' & disps' & Hinv' & Hlen' & Hl' & Hall' & Hext').
    + exact F1.
    + exact Hts.
    + rewrite D1. exact Hdef.
    + exact Hinv1.
    + cbn [l2 shidx]. change (shidx l1) with (shidx l). rewrite Hidx, length_app. cbn. lia.
    + cbn [l2 shidxs]. rewrite Hlen2. exact Hlen.
    + exact Hall2.
    + rewrite length_app. cbn. lia.
    + exists names', disps'. split; [exact Hinv'|].
      split; [rewrite Hlen', length_app; cbn; lia|].
      split; [exact Hl'|]. split; [exact Hall'|].
      eapply extends_trans; [|exact Hext']. unfold extends. repeat split; assumption.
Qed.

Lemma AddConnection_traverse_parts source attr target_ type_ elem (st : TState) :
  _readStep (t_reader st) = READ_TRAVERSE ->
  let st' := AddConnection source attr target_ type_ elem st in
  tc_connections (tctx st') =
    tc_connections (tctx st) ++
    [{| sourceNode := source; sourceAttr := attr; target := target_;
        type := type_; outputElement := elem |}] /\
  reader (world st') = reader (world st) /\
  a_nodes (arnold (world st')) = a_nodes (arnold (world st)).
Proof.
  intros Hstep st'. subst st'. unfold AddConnection.
  rewrite bool_decide_eq_true_2 by assumption.
  unfold with_lock. destruct (tc_addConnectionLock (tctx st)); repeat split.
Qed.

(** X16. The shaders of the subsets of a shape are listed in one array
    connection, and [shidxs] gives every element the place of its shader in
    the list: the names the connection is split in when it is processed are
    as many as the subsets, plus one when some element is in no subset, and
    every index is the place of one of them.  When there is a connection for
    the displacements, it lists as many names.  The shape has fewer than 256
    subsets, so that their count fits a byte, and no more than 2^31 elements.
    No name has a space. *)
Theorem subset_shaders_are_indexed (prim : UsdPrim) (node : AtNode)
    (context_ : UsdArnoldReaderContext) (subsets : list UsdGeomSubset)
    (elementCount : nat) (assignDefault : bool) (st : TState) :
  fresh_handles (arnold (world st)) ->
  is_Some (node_data (arnold (world st)) node) ->
  _readStep (t_reader st) = READ_TRAVERSE ->
  subsets ≠ [] -> length subsets < 256 ->
  (Z.of_nat elementCount <= 2 ^ 31)%Z ->
  forallb targets_without_space (prim :: map subset_GetPrim subsets) = true ->
  (assignDefault = true -> no_space (default_shader_name (world st)) = true) ->
  let st' := ReadSubsetsMaterialBinding ComputeBoundMaterial prim node context_ subsets
                                        elementCount assignDefault st in
  exists shaders more idxs,
    tc_connections (tctx st') =
      tc_connections (tctx st) ++
      {| sourceNode := node; sourceAttr := "shader"; target := shaders;
         type := CONNECTION_ARRAY; outputElement := "" |} :: more /\
    param_of (arnold (world st')) node "shidxs" =
      Some (ParamArray {| nelements := elementCount; nkeys := 1;
                          adata := DataByte idxs |}) /\
    length idxs = elementCount /\
    length (getline_tokens shaders "") =
      length subsets +
      (if existsb (Z.eqb (Z.of_nat (length subsets))) idxs then 1 else 0) /\
    Forall (fun e => (0 <= e < Z.of_nat (length (getline_tokens shaders "")))%Z) idxs /\
    (more = [] \/
     exists disps,
       more = [{| sourceNode := node; sourceAttr := "disp_map"; target := disps;
                  type := CONNECTION_ARRAY; outputElement := "" |}] /\
       length (getline_tokens disps "") = length (getline_tokens shaders "")).
Proof.
  intros Hf Hnode Hstep Hne Hn _ Hts Hdef st'. subst st'.
  unfold ReadSubsetsMaterialBinding.
  set (isPolymesh := AiNodeIs node "polymesh" (arnold (world st))).
  set (n := length subsets) in *.
  assert (Hu : to_uchar (Z.of_nat n) = Z.of_nat n)
    by (unfold to_uchar; apply Z.mod_small; lia).
  rewrite Hu.
  cbn [forallb] in Hts. apply andb_true_iff in Hts as [Htp Hts].
  set (l0 := {| shadersArrayStr := ""; dispArrayStr := ""; hasDisplacement := false;
                shidxs := replicate elementCount (Z.of_nat n); shidx := 0 |}).
  destruct (subsets_loop_spec n elementCount isPolymesh assignDefault Hn subsets [] [] l0 st)
    as (names & disps & Hinv & Hlen & Hl & Hall & Hext); try assumption; try reflexivity.
  { unfold arrays_inv. cbn. repeat split; try constructor. discriminate. }
  { apply length_replicate. }
  { apply Forall_replicate. right. reflexivity. }
  destruct (subsets_loop ComputeBoundMaterial subsets isPolymesh assignDefault
              elementCount l0 st) as [l1 st1].
  cbn [fst snd length Nat.add] in Hinv, Hlen, Hl, Hall, Hext.
  fold n in Hlen.
  assert (Hn1 : 1 <= n) by (unfold n; destruct subsets; [contradiction | cbn; lia]).
  (* the names of the prim itself, when some element is in no subset *)
  set (needUnassignedShader := existsb (Z.eqb (Z.of_nat n)) (shidxs l1)).
  set (p := if needUnassignedShader then _ else (l1, st1)).
  assert (Hp : exists names2 disps2,
             arrays_inv isPolymesh names2 disps2 (fst p) /\
             length names2 = n + (if needUnassignedShader then 1 else 0) /\
             shidxs (fst p) = shidxs l1 /\
             Forall (fun e => (0 <= e < Z.of_nat (length names2))%Z) (shidxs l1) /\
             extends st (snd p)).
  { subst p. destruct needUnassignedShader eqn:Hneed.
    - destruct Hext as (T1 & F1 & X1 & N1 & S1 & D1).
      destruct (array_targets_spec prim isPolymesh assignDefault st1 F1 Htp)
        as (Hgood & Hdisp & Hext2); [rewrite D1; exact Hdef|].
      destruct (array_targets ComputeBoundMaterial prim isPolymesh assignDefault st1)
        as [[shaderStr dispStr] st2]. cbn [fst snd] in *.
      pose proof (append_targets_inv isPolymesh names disps l1 shaderStr dispStr
                    Hinv Hgood Hdisp) as Hinv2.
      replace (0 <? Z.of_nat (length names))%Z with true in Hinv2
        by (symmetry; apply Z.ltb_lt; lia).
      eexists _, _. split; [exact Hinv2|].
      split; [rewrite length_app; cbn; lia|].
      split; [reflexivity|]. split.
      + eapply Forall_impl; [exact Hall|]. intros e He. rewrite length_app. cbn.
        destruct He as [He | ->]; lia.
      + eapply extends_trans; [|exact Hext2]. unfold extends. repeat split; assumption.
    - exists names, disps. cbn [fst snd]. split; [exact Hinv|].
      split; [lia|]. split; [reflexivity|]. split; [|exact Hext].
      rewrite Forall_forall in Hall. apply Forall_forall. intros e He.
      destruct (Hall e He) as [Hlt | ->]; [lia|].
      exfalso. subst needUnassignedShader.
      assert (Ht : existsb (Z.eqb (Z.of_nat n)) (shidxs l1) = true).
      { apply existsb_exists. exists (Z.of_nat n). split; [|apply Z.eqb_refl].
        apply list_elem_of_In, He. }
      rewrite Ht in Hneed. discriminate. }
  clearbody p. destruct p as [l2 st2]. cbn [fst snd] in Hp.
  destruct Hp as (names2 & disps2 & (Hs2 & Hg2 & Hd2 & Hh2) & Hlen2 & Hidx2 & Hall2 & Hext2).
  destruct Hext2 as (T2 & F2 & X2 & N2 & S2 & D2).
  assert (Hnames2 : names2 ≠ []) by (intros ->; cbn in Hlen2; lia).
  assert (Hstr : String.eqb (shadersArrayStr l2) "" = false).
  { apply String.eqb_neq. rewrite Hs2. apply join_not_empty; assumption. }
  rewrite Hstr. cbn [negb].
  assert (Hstep2 : _readStep (t_reader st2) = READ_TRAVERSE) by congruence.
  destruct (AddConnection_traverse_parts node "shader" (shadersArrayStr l2)
              CONNECTION_ARRAY "" st2 Hstep2) as (C3 & R3 & A3).
  set (st3 := AddConnection node "shader" (shadersArrayStr l2) CONNECTION_ARRAY "" st2) in *.
  assert (Hstep3 : _readStep (t_reader st3) = READ_TRAVERSE)
    by (unfold t_reader; rewrite R3; exact Hstep2).
  assert (Htokens : getline_tokens (shadersArrayStr l2) "" = names2)
    by (rewrite Hs2; apply getline_join, Hg2).
  assert (Hlive : forall st4, a_nodes (arnold (world st4)) = a_nodes (arnold (world st3)) ->
                              is_Some (node_data (arnold (world st4)) node)).
  { intros st4 Ha4. rewrite (node_data_ext _ _ _ Ha4), (node_data_ext _ _ _ A3).
    rewrite N2 by (apply node_data_Some_lt; assumption). exact Hnode. }
  exists (shadersArrayStr l2).
  destruct (hasDisplacement l2) eqn:Hhas.
  - destruct (Hd2 (Hh2 eq_refl)) as (Hds & Hdl & Hdg).
    destruct (AddConnection_traverse_parts node "disp_map" (dispArrayStr l2)
                CONNECTION_ARRAY "" st3 Hstep3) as (C4 & R4 & A4).
    set (st4 := AddConnection node "disp_map" (dispArrayStr l2) CONNECTION_ARRAY "" st3) in *.
    eexists _, (shidxs l2).
    cbn [t_arnold on_world on_arnold world arnold tctx].
    split; [rewrite C4, C3, T2, <- app_assoc; reflexivity|].
    split; [apply param_of_set_some, Hlive, A4|].
    rewrite Htokens, Hidx2, Hlen2. fold needUnassignedShader.
    split; [exact Hl|]. split; [reflexivity|].
    split; [rewrite <- Hlen2; exact Hall2|].
    right. exists (dispArrayStr l2). split; [reflexivity|].
    rewrite Hds, getline_join by exact Hdg. rewrite Hdl. exact Hlen2.
  - exists [], (shidxs l2).
    cbn [t_arnold on_world on_arnold world arnold tctx].
    split; [rewrite C3, T2; reflexivity|].
    split; [apply param_of_set_some, Hlive; reflexivity|].
    rewrite Htokens, Hidx2, Hlen2. fold needUnassignedShader.
    split; [exact Hl|]. split; [reflexivity|].
    split; [rewrite <- Hlen2; exact Hall2|].
    left. reflexivity.
Qed.

(** ** The binding of a shape *)

(** X17. In the traversal, the material of a shape gives a pointer connection for
    its shader, and one for its displacement when the shape is a polymesh:
    the displacement of another shape is left out.  Without a shader the
    default one is created if need be and set at once, when it is asked
    for; otherwise the nodes of Arnold are as they were. *)
Theorem ReadMaterialBinding_connects (prim : UsdPrim) (node : AtNode)
    (context_ : UsdArnoldReaderContext) (assignDefault : bool) (st : TState) :
  fresh_handles (arnold (world st)) ->
  is_Some (node_data (arnold (world st)) node) ->
  _readStep (t_reader st) = READ_TRAVERSE ->
  let shaderStr := fst (getMaterialTargets ComputeBoundMaterial prim "" (Some "")) in
  let dispStr := default "" (snd (getMaterialTargets ComputeBoundMaterial prim "" (Some ""))) in
  let isPolymesh := AiNodeIs node "polymesh" (arnold (world st)) in
  let st' := ReadMaterialBinding ComputeBoundMaterial prim node context_ assignDefault st in
  tc_connections (tctx st') =
    tc_connections (tctx st) ++
    (if String.eqb shaderStr "" then []
     else [{| sourceNode := node; sourceAttr := "shader"; target := shaderStr;
              type := CONNECTION_PTR; outputElement := "" |}]) ++
    (if isPolymesh && negb (String.eqb dispStr "") then
       [{| sourceNode := node; sourceAttr := "disp_map"; target := dispStr;
           type := CONNECTION_PTR; outputElement := "" |}]
     else []) /\
  (if String.eqb shaderStr "" && assignDefault then
     param_of (arnold (world st')) node "shader" =
       Some (ParamPtr (Some (fst (GetDefaultShader (world st))))) /\
     _defaultShader (t_reader st') = Some (fst (GetDefaultShader (world st)))
   else a_nodes (arnold (world st')) = a_nodes (arnold (world st))).
Proof.
  intros Hf Hnode Hstep shaderStr dispStr isPolymesh st'.
  subst st'. unfold ReadMaterialBinding. fold isPolymesh.
  destruct (getMaterialTargets_pointer prim isPolymesh) as [Hs Hd].
  fold shaderStr in Hs. fold dispStr in Hd.
  destruct (getMaterialTargets ComputeBoundMaterial prim ""
              (if isPolymesh then Some "" else None)) as [s dispPtr].
  cbn [fst snd] in Hs, Hd. subst s.
  assert (Hdisp : isPolymesh && negb (String.eqb (default "" dispPtr) "") =
                  isPolymesh && negb (String.eqb dispStr "")).
  { rewrite Hd. destruct isPolymesh; reflexivity. }
  rewrite Hdisp.
  assert (Hdd : isPolymesh && negb (String.eqb dispStr "") = true ->
                default "" dispPtr = dispStr).
  { rewrite Hd. destruct isPolymesh; [reflexivity | discriminate]. }
  set (st1 := if negb (String.eqb shaderStr "") then _ else _).
  assert (H1 : tc_connections (tctx st1) =
               tc_connections (tctx st) ++
               (if String.eqb shaderStr "" then []
                else [{| sourceNode := node; sourceAttr := "shader"; target := shaderStr;
                         type := CONNECTION_PTR; outputElement := "" |}]) /\
               _readStep (t_reader st1) = READ_TRAVERSE /\
               (if String.eqb shaderStr "" && assignDefault then
                  param_of (arnold (world st1)) node "shader" =
                    Some (ParamPtr (Some (fst (GetDefaultShader (world st))))) /\
                  _defaultShader (t_reader st1) = Some (fst (GetDefaultShader (world st)))
                else a_nodes (arnold (world st1)) = a_nodes (arnold (world st)))).
  { subst st1. destruct (String.eqb shaderStr ""); cbn [negb andb].
    - destruct assignDefault.
      + unfold context_GetDefaultShader.
        destruct (GetDefaultShader_nodes (world st) Hf) as (F & X & N & S).
        pose proof (GetDefaultShader_sets (world st)) as D.
        destruct (GetDefaultShader (world st)) as [shader w]. cbn [fst snd] in *.
        cbn [t_arnold on_world on_arnold world arnold tctx]. rewrite app_nil_r.
        split; [reflexivity|].
        split; [change (_readStep (reader w) = READ_TRAVERSE); rewrite S; exact Hstep|].
        split; [|exact D].
        apply param_of_set_some. rewrite N by (apply node_data_Some_lt; assumption).
        exact Hnode.
      + rewrite app_nil_r. repeat split. exact Hstep.
    - destruct (AddConnection_traverse_parts node "shader" shaderStr CONNECTION_PTR "" st
                  Hstep) as (C & R & A).
      split; [exact C|]. split; [unfold t_reader; rewrite R; exact Hstep | exact A]. }
  clearbody st1. destruct H1 as (C1 & S1 & P1).
  destruct (isPolymesh && negb (String.eqb dispStr "")) eqn:Hcase.
  - rewrite (Hdd eq_refl).
    destruct (AddConnection_traverse_parts node "disp_map" dispStr CONNECTION_PTR "" st1 S1)
      as (C & R & A).
    split; [rewrite C, C1, <- app_assoc; reflexivity|].
    destruct (String.eqb shaderStr "" && assignDefault).
    + unfold param_of, t_reader. rewrite (node_data_ext _ _ _ A), R. exact P1.
    + rewrite A. exact P1.
  - rewrite app_nil_r. split; [exact C1 | exact P1].
Qed.

End MaterialBindings.

(** ** String arrays *)

(** X18. [ReadStringArray] sets the parameter to the strings of the attribute, as
    they are, whichever of the three string types they have.  An attribute
    that has no such value, or an empty array, resets the parameter.  One
    motion key is reported in every case, and the other parameters of the
    node are kept. *)
Theorem ReadStringArray_sets_or_resets (attr : UsdArrayValue) (node : AtNode)
    (attrName : string) (time : TimeSettings) (st : TState) :
  is_Some (node_data (arnold (world st)) node) ->
  let elems :=
    match attr with
    | ArrayOfString elems | ArrayOfToken elems | ArrayOfAssetPath elems => elems
    | NoStringArray => []
    end in
  let r := ReadStringArray attr node attrName time st in
  fst r = 1 /\
  param_of (arnold (world (snd r))) node attrName =
    match elems with
    | [] => None
    | _ => Some (ParamArray {| nelements := length elems; nkeys := 1;
                               adata := DataString elems |})
    end /\
  (forall other, other ≠ attrName ->
                 param_of (arnold (world (snd r))) node other =
                 param_of (arnold (world st)) node other) /\
  tctx (snd r) = tctx st.
Proof.
  intros [d Hd] elems r. subst r.
  assert (Hmap : forall l : list string,
             map (fun s => if String.eqb s "" then "" else s) l = l).
  { induction l as [|s l IH]; cbn [map]; [reflexivity|]. rewrite IH.
    destruct (String.eqb_spec s ""); congruence. }
  assert (Hreset : param_of (AiNodeResetParameter node attrName (arnold (world st)))
                            node attrName = None /\
                   forall other, other ≠ attrName ->
                     param_of (AiNodeResetParameter node attrName (arnold (world st)))
                              node other = param_of (arnold (world st)) node other).
  { unfold param_of, AiNodeResetParameter. rewrite node_data_update_node.
    rewrite decide_True by reflexivity. rewrite Hd. cbn.
    split; [apply lookup_delete_eq|]. intros other Ho. apply lookup_delete_ne. congruence. }
  assert (Hset : forall l,
             param_of (AiNodeSetArray node attrName (AiArray_STRING l) (arnold (world st)))
                      node attrName = Some (ParamArray (AiArray_STRING l)) /\
             forall other, other ≠ attrName ->
               param_of (AiNodeSetArray node attrName (AiArray_STRING l) (arnold (world st)))
                        node other = param_of (arnold (world st)) node other).
  { intros l. split; [eapply param_of_set, Hd|].
    intros other Ho. apply param_of_set_other. congruence. }
  unfold ReadStringArray.
  destruct attr as [l|l|l|]; cbn [fst snd]; subst elems;
    try (destruct l as [|s l]; cbn [t_arnold on_world on_arnold world arnold tctx];
         [destruct Hreset; repeat split; assumption|];
         rewrite Hmap; destruct (Hset (s :: l)); repeat split; assumption).
  cbn [t_arnold on_world on_arnold world arnold tctx].
  destruct Hreset; repeat split; assumption.
Qed.


(** * The workers of a traversal *)

Lemma mod_turn (c index k : nat) :
  0 < c -> k < c ->
  ((index + k) mod c = 0 <-> k = (c - index mod c) mod c).
Proof.
  intros Hc Hk.
  pose proof (Nat.mod_upper_bound index c ltac:(lia)) as Hr.
  rewrite <- (Nat.Div0.add_mod_idemp_l index k c).
  set (r := index mod c) in *.
  destruct (Nat.eq_dec r 0) as [->|Hr0].
  - rewrite Nat.add_0_l, Nat.sub_0_r, Nat.Div0.mod_same, (Nat.mod_small k c) by lia.
    reflexivity.
  - rewrite (Nat.mod_small (c - r) c) by lia.
    destruct (Nat.lt_ge_cases (r + k) c) as [Hlt|Hge].
    + rewrite Nat.mod_small by lia. lia.
    + replace (r + k) with ((r + k - c) + 1 * c) by lia.
      rewrite Nat.Div0.mod_add, Nat.mod_small by lia. lia.
Qed.

Section Workers.
Context `{Env}.
Hypothesis Hreaders : readers_keep_stack.

(** The step and the purpose of the reader: what the walk of a worker
    depends on, besides the range. *)
Definition walk_info (st : TState) : ReadStep * TfToken :=
  (_readStep (t_reader st), _purpose (t_reader st)).

Lemma stack_walk_info (st st' : TState) :
  stack_info st' = stack_info st -> walk_info st' = walk_info st.
Proof. unfold stack_info, walk_info. intros [= _ -> ->]. reflexivity. Qed.

Lemma body_walks_alike (td1 td2 : UsdThreadData) (iter : list Visit) (index : nat)
    (st1 st2 : TState) :
  (1 <? threadCount td1)%nat = (1 <? threadCount td2)%nat ->
  walk_info st1 = (READ_TRAVERSE, _purpose (t_reader st2)) ->
  walk_info st2 = (READ_TRAVERSE, _purpose (t_reader st2)) ->
  let r1 := ReaderThread_body td1 iter index st1 in
  let r2 := ReaderThread_body td2 iter index st2 in
  fst r1 = fst r2 /\
  walk_info (snd r1) = (READ_TRAVERSE, _purpose (t_reader st2)) /\
  walk_info (snd r2) = (READ_TRAVERSE, _purpose (t_reader st2)).
Proof.
  intros Hc H1 H2 r1 r2. subst r1 r2. unfold ReaderThread_body.
  destruct iter as [|v rest]; [repeat split; assumption|].
  destruct (String.eqb (p_typeName (v_prim v)) "" && negb (p_instanceable (v_prim v)));
    [repeat split; assumption|].
  destruct (v_isPostVisit v); [repeat split; assumption|].
  assert (Hp : _purpose (t_reader st1) = _purpose (t_reader st2))
    by (unfold walk_info in H1; congruence).
  change (_purpose (t_reader (on_tctx ?f st1))) with (_purpose (t_reader st1)).
  change (_purpose (t_reader (on_tctx ?f st2))) with (_purpose (t_reader st2)).
  rewrite Hp.
  destruct (pruneChildren (_purpose (t_reader st2)) (v_prim v));
    [repeat split; assumption|].
  rewrite Hc.
  assert (Hread : forall td st,
             walk_info st = (READ_TRAVERSE, _purpose (t_reader st2)) ->
             forall f,
               walk_info (ReadPrimitive (v_prim v) (context td)
                            (p_instanceable (v_prim v)) (on_tctx f st)) =
               (READ_TRAVERSE, _purpose (t_reader st2))).
  { intros td st Hw f. rewrite <- Hw.
    change (walk_info st) with (walk_info (on_tctx f st)).
    apply stack_walk_info, (ReadPrimitive_traverse_stack Hreaders).
    change (_readStep (t_reader st) = READ_TRAVERSE).
    unfold walk_info in Hw. congruence. }
  destruct (1 <? threadCount td2)%nat; cbn [andb].
  - destruct (negb (_ =? 0)%nat), (negb (_ =? 0)%nat); cbn [fst snd];
      repeat split; try assumption; apply Hread; assumption.
  - cbn [fst snd]. repeat split; apply Hread; assumption.
Qed.

Lemma turns_walk_alike (td1 td2 : UsdThreadData) (purpose_ : TfToken) :
  (1 <? threadCount td1)%nat = (1 <? threadCount td2)%nat ->
  forall n (iter : list Visit) (index : nat) (st1 st2 : TState),
    walk_info st1 = (READ_TRAVERSE, purpose_) ->
    walk_info st2 = (READ_TRAVERSE, purpose_) ->
    fst (ReaderThread_turns n td1 iter index st1) =
    fst (ReaderThread_turns n td2 iter index st2).
Proof.
  intros Hc. induction n as [|n IH]; intros iter index st1 st2 H1 H2.
  - destruct iter; reflexivity.
  - destruct iter as [|v rest]; [reflexivity|]. cbn [ReaderThread_turns].
    assert (Hp : purpose_ = _purpose (t_reader st2))
      by (unfold walk_info in H2; congruence).
    subst purpose_.
    destruct (body_walks_alike td1 td2 (v :: rest) index st1 st2 Hc H1 H2)
      as (Hf & W1 & W2).
    destruct (ReaderThread_body td1 (v :: rest) index st1) as [[iter1 index1] st1'].
    destruct (ReaderThread_body td2 (v :: rest) index st2) as [[iter2 index2] st2'].
    cbn [fst snd] in Hf, W1, W2. injection Hf as -> ->.
    apply (IH iter2 index2 st1' st2'); assumption.
Qed.

(** X19. The workers of a traversal with more than one thread walk the range
    alike: after any number of turns they are at the same stop and have
    counted as many prims, whatever they have read.  At the stop of a prim
    that is to be read, one worker reads it, the one the count tells, and the
    others only push the primvars of the prim on their stack. *)
Theorem workers_share_the_prims (c : nat) (rootPrimPtr : option PrimTree)
    (context_ : UsdArnoldReaderContext) :
  1 < c ->
  let worker k := {| threadId := k; threadCount := c; rootPrim := rootPrimPtr;
                     context := context_ |} in
  (forall n k1 k2 iter index (st1 st2 : TState),
     _readStep (t_reader st1) = READ_TRAVERSE ->
     _readStep (t_reader st2) = READ_TRAVERSE ->
     _purpose (t_reader st1) = _purpose (t_reader st2) ->
     fst (ReaderThread_turns n (worker k1) iter index st1) =
     fst (ReaderThread_turns n (worker k2) iter index st2)) /\
  (forall prim rest index (st : TState),
     skipped prim = false ->
     pruneChildren (_purpose (t_reader st)) prim = false ->
     exists st1,
       world st1 = world st /\
       forall k, k < c ->
         ReaderThread_body (worker k) (pre prim :: rest) index st =
         (rest, S index,
          if bool_decide (k = (c - index mod c) mod c)
          then ReadPrimitive prim context_ (p_instanceable prim) st1
          else st1)).
Proof.
  intros Hc worker. split.
  - intros n k1 k2 iter index st1 st2 S1 S2 P.
    apply (turns_walk_alike (worker k1) (worker k2) (_purpose (t_reader st2)));
      [reflexivity | unfold walk_info; congruence | unfold walk_info; congruence].
  - intros prim rest index st Hs Hp. unfold skipped in Hs.
    eexists. split; [|intros k Hk].
    2: { subst worker. unfold ReaderThread_body, pre.
         cbn [v_prim v_isPostVisit threadCount threadId context].
         rewrite Hs.
         change (_purpose (t_reader (on_tctx ?f st))) with (_purpose (t_reader st)).
         rewrite Hp.
         replace (1 <? c)%nat with true by (symmetry; apply Nat.ltb_lt; exact Hc).
         cbn [andb iter_increment v_isPostVisit].
         case_bool_decide as Hk0.
         - apply (mod_turn c index k ltac:(lia) Hk) in Hk0.
           rewrite Hk0. cbn [Nat.eqb negb]. reflexivity.
         - assert (Hne : (index + k) mod c ≠ 0)
             by (intros Hz; apply Hk0, (mod_turn c index k ltac:(lia) Hk), Hz).
           apply Nat.eqb_neq in Hne. rewrite Hne. cbn [negb]. reflexivity. }
    reflexivity.
Qed.

End Workers.

(** * The end of the range *)

Section Termination.
Context `{Env}.

(** X24. The loop of a traversal thread ends: every turn leaves fewer stops to
    visit, so as many turns as the range has stops bring the iterator to the
    end of the range, and the state then reached is the one [ReaderThread]
    returns, however many turns more are allowed. *)
Theorem ReaderThread_reaches_the_end (td : UsdThreadData) (st : TState) (more : nat) :
  let st0 := on_tctx (set_tc_primvarsStack [[]]) st in
  let range := ReaderThread_range td st0 in
  let r := ReaderThread_turns (length range + more) td range 0 st0 in
  fst (fst r) = [] /\ snd r = ReaderThread td st.
Proof.
  intros st0 range r. subst r. split.
  - apply ReaderThread_turns_end. lia.
  - unfold ReaderThread, ReaderThread_loop. fold st0. fold range.
    rewrite (ReaderThread_turns_enough td (length range + more) (length range)) by lia.
    reflexivity.
Qed.

End Termination.

(** * Settings of the reader *)

Section Settings.
Context `{Env}.

(** X20. The lock of the reader is created the first time the number of threads
    is set to another value than one, and is kept from then on.  It is taken
    for the number of threads set last: with one thread nothing is locked,
    even when the lock exists. *)
Theorem reader_lock_follows_thread_count (t : nat) (w : World) :
  let w' := SetThreadCount t w in
  _threadCount (reader w') = t /\
  (forall l, _readerLock (reader w) = Some l -> _readerLock (reader w') = Some l) /\
  (_readerLock (reader w) = None ->
   _readerLock (reader w') =
     if bool_decide (t = 1) then None else Some (a_nextCritSec (arnold w))) /\
  a_log (arnold (UnlockReader (LockReader w'))) =
    a_log (arnold w) ++
    match _readerLock (reader w') with
    | Some l => if bool_decide (t = 1) then [] else [EvCritSecEnter l; EvCritSecLeave l]
    | None => []
    end /\
  (t ≠ 1 -> is_Some (_readerLock (reader w'))).
Proof.
  intros w'. subst w'.
  assert (Hw : exists w1,
             SetThreadCount t w = w1 /\ _threadCount (reader w1) = t /\
             a_log (arnold w1) = a_log (arnold w) /\
             _readerLock (reader w1) =
               match _readerLock (reader w) with
               | Some l => Some l
               | None => if bool_decide (t = 1) then None
                         else Some (a_nextCritSec (arnold w))
               end).
  { unfold SetThreadCount. cbn [on_reader reader _readerLock set_threadCount].
    destruct (_readerLock (reader w)) as [l|] eqn:Hl.
    - eexists. split; [reflexivity|]. cbn. rewrite ?Hl. repeat split.
    - destruct (decide (t = 1)) as [->|Hne].
      + rewrite (bool_decide_eq_false_2 (1 ≠ 1)), (bool_decide_eq_true_2 (1 = 1))
          by (try reflexivity; intros Hf; apply Hf; reflexivity).
        eexists. split; [reflexivity|]. cbn. rewrite ?Hl. repeat split.
      + rewrite (bool_decide_eq_true_2 (t ≠ 1)), (bool_decide_eq_false_2 (t = 1))
          by assumption.
        eexists. split; [reflexivity|]. cbn. repeat split. }
  destruct Hw as (w1 & -> & Ht & Hlog & Hlock).
  split; [exact Ht|].
  split; [intros l Hl; rewrite Hlock, Hl; reflexivity|].
  split; [intros Hl; rewrite Hlock, Hl; reflexivity|].
  split.
  - destruct (LockReader_parts w1) as (Hr0 & _ & _ & Hl0).
    destruct (UnlockReader_parts (LockReader w1)) as (_ & _ & _ & Hl1).
    rewrite Hl1, Hl0, Hlog, <- app_assoc. f_equal.
    unfold reader_lock_events. rewrite Hr0, Ht.
    destruct (_readerLock (reader w1)) as [l|]; [|reflexivity].
    destruct (decide (t = 1)) as [->|Hne].
    + rewrite (bool_decide_eq_false_2 (1 ≠ 1)), (bool_decide_eq_true_2 (1 = 1))
        by (try reflexivity; intros Hf; apply Hf; reflexivity).
      reflexivity.
    + rewrite (bool_decide_eq_true_2 (t ≠ 1)), (bool_decide_eq_false_2 (t = 1)) by assumption.
      reflexivity.
  - intros Hne. rewrite Hlock. destruct (_readerLock (reader w)); [eauto|].
    rewrite (bool_decide_eq_false_2 (t = 1)) by assumption. eauto.
Qed.

(** X21. A reader with a procedural parent keeps the universe of its parent:
    [SetUniverse] changes neither the universe nor the nodes, and prints an
    error when it is given another universe.  Without a parent the nodes are
    cleared and the universe is set. *)
Theorem SetUniverse_keeps_parent_universe (universe : option AtUniverse) (w : World) :
  let w' := SetUniverse universe w in
  match _procParent (reader w) with
  | Some _ =>
      reader w' = reader w /\
      a_nodes (arnold w') = a_nodes (arnold w) /\
      (a_log (arnold w') = a_log (arnold w) <-> universe = _universe (reader w))
  | None =>
      _universe (reader w') = universe /\ _nodes (reader w') = [] /\
      _defaultShader (reader w') = None /\
      a_log (arnold w') = a_log (arnold w)
  end.
Proof.
  intros w'. subst w'. unfold SetUniverse.
  destruct (_procParent (reader w)) as [p|] eqn:Hp.
  - case_bool_decide as Hu; cbn.
    + repeat split; try reflexivity.
      * intros Hlog. exfalso. apply (f_equal length) in Hlog.
        rewrite length_app in Hlog. cbn in Hlog. lia.
      * intros ->. contradiction.
    + repeat split; try reflexivity. intros _.
      destruct (decide (universe = _universe (reader w))); [assumption | contradiction].
  - unfold ClearNodes. rewrite Hp. cbn. repeat split.
    induction (_nodes (reader w)) as [|n l IH] using rev_ind; [reflexivity|].
    rewrite fold_left_app. cbn. exact IH.
Qed.

End Settings.

(** * The registry and the matrix of a job *)

Section RegistryAndJobs.
Context `{Env}.

(** X22. A reader that was given a registry keeps it, and touches neither the
    global registry nor its mutex.  A reader without one takes the global
    registry, which is made the first time and kept from then on, and the
    choice is made under the global mutex. *)
Theorem global_registry_is_made_once (w : World) :
  let w' := select_registry w in
  match _registry (reader w) with
  | Some registry =>
      _registry (reader w') = Some registry /\ globals w' = globals w /\
      a_log (arnold w') = a_log (arnold w)
  | None =>
      _registry (reader w') = s_readerRegistry (globals w') /\
      s_readerRegistry (globals w') =
        Some (default NewReaderRegistry (s_readerRegistry (globals w))) /\
      a_log (arnold w') =
        a_log (arnold w) ++ [EvCritSecEnter (s_globalReaderMutex (globals w));
                             EvCritSecLeave (s_globalReaderMutex (globals w))]
  end.
Proof.
  intros w'. subst w'. unfold select_registry.
  destruct (_registry (reader w)) as [registry|] eqn:Hr.
  - rewrite Hr. repeat split.
  - destruct (s_readerRegistry (globals w)) as [g|] eqn:Hg; cbn; rewrite ?Hg; cbn;
      rewrite <- ?app_assoc; repeat split; assumption.
Qed.

(** X23. The matrix a job is given with its context is the one the reader of the
    prim would have read itself: [ReadMatrix] leaves the same node store
    with the context of the job as without any. *)
Theorem ReadMatrix_of_job_agrees (prim : UsdPrim) (node : AtNode) (time : TimeSettings)
    (isXformable : bool) (primvars : list UsdGeomPrimvar) (st : TState) :
  let matrix := fst (ReadMatrix_array prim time isXformable st) in
  let st1 := snd (ReadMatrix_array prim time isXformable st) in
  let jobContext := {| c_matrix := Some matrix; c_primvars := primvars |} in
  arnold (world (ReadMatrix prim node time jobContext isXformable st1)) =
  arnold (world (ReadMatrix prim node time NewReaderContext isXformable st)).
Proof.
  intros matrix st1 jobContext. subst matrix st1 jobContext. unfold ReadMatrix.
  cbn [c_matrix NewReaderContext].
  pose proof (ReadMatrix_array_world prim time isXformable st) as Hw.
  destruct (ReadMatrix_array prim time isXformable st) as [matrices st1].
  cbn [fst snd] in *. unfold AiArrayCopy.
  destruct (1 <? AiArrayGetNumKeys matrices)%nat;
    cbn [t_arnold on_world on_arnold world arnold]; reflexivity.
Qed.

End RegistryAndJobs.


(** * The further properties on scenes *)

(** A thread context on a fresh reader. *)
Definition freshState : TState :=
  {| world := startWorld (H := plainEnv); tctx := NewThreadContext |}.

(** A node another procedural made: its parent is node 7. *)
Definition foreignWorld : World :=
  on_arnold (fun a => snd (AiNode None "polymesh" "/mesh" (Some 7) a))
            (startWorld (H := plainEnv)).

(** A prim that slides along the first axis, by the time, and a thread
    context that has its main transform cache, at frame 0. *)
Definition slidingPrim : UsdPrim :=
  {| p_path := "/slider"; p_typeName := "Mesh"; p_active := true;
     p_instanceable := false; p_prototype := None; p_isPrototype := false;
     p_isImageable := true; p_isXformable := true; p_isCamera := false;
     p_visibility := None; p_purpose := None; p_computedVisibility := "inherited";
     p_primvars := [];
     p_timeVarying := true;
     p_timeSamples := map to_double [-2 # 10; -5 # 100; 0; 5 # 100; 1 # 10; 3 # 10]%Q;
     p_localToWorld := fun t => [1; 0; 0; 0;  0; 1; 0; 0;  0; 0; 1; 0;  t; 0; 0; 1]%Q;
     p_localTransformation := fun _ => None;
     p_attributes := [] |}.

Definition slidingState : TState := SetReader spinningState.

(** An instance and its prototype, which no primitive reader translates. *)
Definition prototypePrim : UsdPrim :=
  {| p_path := "/__Prototype_1"; p_typeName := "Xform"; p_active := true;
     p_instanceable := false; p_prototype := None; p_isPrototype := true;
     p_isImageable := true; p_isXformable := true; p_isCamera := false;
     p_visibility := None; p_purpose := None; p_computedVisibility := "inherited";
     p_primvars := []; p_timeVarying := false; p_timeSamples := [];
     p_localToWorld := fun _ => identity_matrix;
     p_localTransformation := fun _ => None;
     p_attributes := [] |}.

Definition instancePrim : UsdPrim :=
  {| p_path := "/inst"; p_typeName := "Xform"; p_active := true;
     p_instanceable := true; p_prototype := Some "/__Prototype_1"; p_isPrototype := false;
     p_isImageable := true; p_isXformable := true; p_isCamera := false;
     p_visibility := None; p_purpose := None; p_computedVisibility := "inherited";
     p_primvars := []; p_timeVarying := false; p_timeSamples := [];
     p_localToWorld := fun _ => identity_matrix;
     p_localTransformation := fun _ => None;
     p_attributes := [] |}.

Definition instanceStage : UsdStage :=
  {| s_pseudoRoot := PrimNode (mkPrim "/" "" None [] []) [PrimNode instancePrim []];
     s_prototypes := [PrimNode prototypePrim []] |}.

(** The instance has its node; the step of the dangling connections starts. *)
Definition instanceDanglingState : TState :=
  let env := sceneEnv instanceStage in
  let st := traversal_start instanceStage in
  let st := ReadPrimitive (H := env) instancePrim NewReaderContext true st in
  {| world := assign_readStep READ_DANGLING_CONNECTIONS (world st);
     tctx := set_tc_primvarsStack [[]] (tctx st) |}.

Definition instanceConnection : Connection :=
  {| sourceNode := 0; sourceAttr := "node"; target := "/__Prototype_1";
     type := CONNECTION_PTR; outputElement := "" |}.

(** A mesh of five faces with two subsets: the front has a red surface, the
    back a blue one in the arnold context and a displacement; the mesh itself
    has no material. *)
Definition sceneMaterials (prim : UsdPrim) : option UsdShadeMaterial :=
  if String.eqb (p_path prim) "/mesh/front" then
    Some {| ComputeSurfaceSource_arnold := None; ComputeSurfaceSource := Some "/mat/red";
            ComputeVolumeSource_arnold := None; ComputeVolumeSource := None;
            ComputeDisplacementSource_arnold := None;
            ComputeDisplacementSource := None |}
  else if String.eqb (p_path prim) "/mesh/back" then
    Some {| ComputeSurfaceSource_arnold := Some "/mat/blue";
            ComputeSurfaceSource := Some "/mat/grey";
            ComputeVolumeSource_arnold := None; ComputeVolumeSource := None;
            ComputeDisplacementSource_arnold := None;
            ComputeDisplacementSource := Some "/mat/bump" |}
  else None.

Definition meshPrim : UsdPrim := mkPrim "/mesh" "Mesh" None [] [].

Definition meshSubsets : list UsdGeomSubset :=
  [ {| subset_GetPrim := mkPrim "/mesh/front" "GeomSubset" None [] [];
       subset_GetIndices := fun _ => [0; 1]%Z |};
    {| subset_GetPrim := mkPrim "/mesh/back" "GeomSubset" None [] [];
       subset_GetIndices := fun _ => [3]%Z |} ].

(** The mesh has its node, in the traversal. *)
Definition meshState : TState :=
  snd (CreateArnoldNode (H := plainEnv) "polymesh" "/mesh"
         {| world := assign_readStep READ_TRAVERSE (startWorld (H := plainEnv));
            tctx := NewThreadContext |}).

Lemma CreateArnoldNode_then_LookupNode_witness :
  let r := CreateArnoldNode (H := plainEnv) "polymesh" "/mesh" freshState in
  LookupNode "/mesh" true (world (snd r)) = Some (fst r) /\
  tc_nodes (tctx (snd r)) = tc_nodes (tctx freshState) ++ [fst r].
Proof.
  destruct (CreateArnoldNode_then_LookupNode (H := plainEnv) "polymesh" "/mesh" freshState)
    as (_ & Hl & Ht & _).
  - constructor.
  - reflexivity.
  - reflexivity.
  - split; [exact Hl | exact Ht].
Defined.

Lemma LookupNode_registered_or_own_witness :
  LookupNode "/mesh" true foreignWorld = None /\
  LookupNode "/mesh" false foreignWorld = Some 0.
Proof.
  apply (proj1 (proj2 (LookupNode_registered_or_own "/mesh" foreignWorld)) 0 7).
  - reflexivity.
  - reflexivity.
  - reflexivity.
  - discriminate.
Defined.

Lemma ProcessConnections_keeps_unresolved_witness :
  tc_connections (tctx (ProcessConnections (H := sceneEnv arrayStage) arrayStrictState)) =
  List.filter (fun c => negb (resolvable c (world arrayStrictState)))
              (tc_connections (tctx arrayStrictState)).
Proof.
  apply (proj1 (ProcessConnections_keeps_unresolved (H := sceneEnv arrayStage)
                  arrayStrictState ltac:(vm_compute; discriminate))).
Defined.

Lemma GetDefaultShader_first_witness :
  let w := startWorld (H := plainEnv) in
  _nodes (reader (snd (GetDefaultShader w))) = [0; 1] /\
  link_of (arnold (snd (GetDefaultShader w))) 0 "base_color" = Some (LinkNode 1).
Proof.
  destruct (GetDefaultShader_first (startWorld (H := plainEnv)))
    as (userData & _ & _ & _ & Hn & _ & _ & Hl & _).
  - constructor.
  - reflexivity.
  - split; [vm_compute; reflexivity | vm_compute; reflexivity].
Defined.

Lemma GetXformCache_reuses_caches_witness :
  let st := new_thread_context (startWorld (H := plainEnv)) in
  GetXformCache 5 st = (0%Q, st).
Proof.
  apply (proj1 (GetXformCache_reuses_caches 5
                  (new_thread_context (startWorld (H := plainEnv)))) 0%Q).
  - left. reflexivity.
  - reflexivity.
Defined.

Lemma ReadMatrix_array_key_times_witness :
  tc_xformCache (tctx slidingState) = Some 0%Q /\
  adata (fst (ReadMatrix_array (H := plainEnv) slidingPrim shutterTime true slidingState)) =
  DataMatrix
    (map (fun t => [1; 0; 0; 0;  0; 1; 0; 0;  0; 0; 1; 0;  t; 0; 0; 1]%Q)
         [-13421773 # 134217728; -1006633 # 16777216; -2684355 # 134217728;
          1342177 # 67108864; 8053063 # 134217728; 3355443 # 33554432]%Q).
Proof.
  split; [reflexivity|].
  etransitivity.
  - refine (proj2 (ReadMatrix_array_key_times (H := plainEnv) slidingPrim shutterTime
                     slidingState eq_refl eq_refl _ _ _ _ _ _));
      vm_compute; first [reflexivity | lia].
  - vm_compute. reflexivity.
Defined.

Lemma pruned_subtree_is_skipped_witness :
  let hidden := mkPrim "/root/hidden" "Shader" (Some "invisible") [("displayColor", "red")] [] in
  let inner := PrimNode (mkPrim "/root/hidden/inner" "Shader" None [] []) [] in
  let root := mkPrim "/root" "Shader" None [] [] in
  exists entry,
    ReaderThread_body (H := sceneEnv prunedStage) wholeStage
      (PreAndPostVisit (PrimNode hidden [inner]) ++ [post root]) 0
      (traversal_start prunedStage) =
    ([post root], 0,
     on_tctx (set_tc_primvarsStack
                (tc_primvarsStack (tctx (traversal_start prunedStage)) ++ [entry]))
             (traversal_start prunedStage)).
Proof.
  apply (pruned_subtree_is_skipped (H := sceneEnv prunedStage)).
  - reflexivity.
  - vm_compute. reflexivity.
Defined.

Lemma ReadStage_bad_object_path_witness :
  let w := startWorld (H := sceneEnv arrayStage) in
  let w' := ReadStage (H := sceneEnv arrayStage) (Some arrayStage) "/nowhere" w in
  a_nodes (arnold w') = a_nodes (arnold w) /\
  _readStep (reader w') = READ_NOT_STARTED /\
  _stage (reader w') = Some arrayStage.
Proof.
  destruct (ReadStage_bad_object_path (H := sceneEnv arrayStage) arrayStage "/nowhere"
              (startWorld (H := sceneEnv arrayStage)))
    as (Ha & _ & Hs & _ & Hst & _).
  - discriminate.
  - left. vm_compute. reflexivity.
  - split; [exact Ha|]. split; [exact Hs | exact Hst].
Defined.

Lemma Read_gives_up_without_stage_witness :
  let w := startWorld (H := plainEnv) in
  _filename (reader (Read_file (H := plainEnv) "missing.usda" None "" w)) = "missing.usda" /\
  _cacheId (reader (Read_cache (H := plainEnv) 3 "" w)) = 3%Z.
Proof.
  destruct (Read_gives_up_without_stage (H := plainEnv) "" (startWorld (H := plainEnv)))
    as [Hfile Hcache].
  - reflexivity.
  - destruct (Hfile "missing.usda" None) as (_ & Hf & _); [reflexivity | left; reflexivity|].
    destruct (Hcache 3%Z) as (_ & Hc & _); [reflexivity|].
    split; [exact Hf | exact Hc].
Defined.

Lemma dangling_prototype_gets_procedural_witness :
  let r := ProcessConnection (H := sceneEnv instanceStage) instanceConnection
                             instanceDanglingState in
  exists node,
    fst r = true /\
    n_type <$> node_data (arnold (world (snd r))) node = Some "usd" /\
    param_of (arnold (world (snd r))) node "object_path" =
      Some (ParamStr "/__Prototype_1") /\
    param_of (arnold (world (snd r))) 0 "node" = Some (ParamPtr (Some node)).
Proof.
  destruct (dangling_prototype_gets_procedural (H := sceneEnv instanceStage)
              instanceConnection prototypePrim instanceDanglingState)
    as (node & Hok & _ & Hty & _ & _ & Hpath & _ & Hptr & _).
  - unfold fresh_handles. vm_compute. repeat constructor.
  - vm_compute. reflexivity.
  - reflexivity.
  - vm_compute. reflexivity.
  - vm_compute. reflexivity.
  - reflexivity.
  - vm_compute. reflexivity.
  - vm_compute. eauto.
  - exists node. repeat split; assumption.
Defined.

Lemma instance_gets_ginstance_witness :
  let st' := ReadPrimitive (H := sceneEnv instanceStage) instancePrim NewReaderContext true
                           (traversal_start instanceStage) in
  exists ginstance,
    n_type <$> node_data (arnold (world st')) ginstance = Some "ginstance" /\
    tc_connections (tctx st') =
      [{| sourceNode := ginstance; sourceAttr := "node"; target := "/__Prototype_1";
          type := CONNECTION_PTR; outputElement := "" |}].
Proof.
  destruct (instance_gets_ginstance (H := sceneEnv instanceStage) instancePrim
              "/__Prototype_1" NewReaderContext (traversal_start instanceStage))
    as (ginstance & _ & Hty & _ & _ & _ & _ & _ & _ & _ & Hc).
  - constructor.
  - reflexivity.
  - reflexivity.
  - exists ginstance. split; [exact Hty | exact Hc].
Defined.

Lemma subset_shaders_are_indexed_witness :
  let st' := ReadSubsetsMaterialBinding (H := plainEnv) sceneMaterials meshPrim 0
               NewReaderContext meshSubsets 5 true meshState in
  exists shaders more idxs,
    tc_connections (tctx st') =
      tc_connections (tctx meshState) ++
      {| sourceNode := 0; sourceAttr := "shader"; target := shaders;
         type := CONNECTION_ARRAY; outputElement := "" |} :: more /\
    length idxs = 5 /\
    Forall (fun e => (0 <= e < Z.of_nat (length (getline_tokens shaders "")))%Z) idxs.
Proof.
  destruct (subset_shaders_are_indexed (H := plainEnv) sceneMaterials meshPrim 0
              NewReaderContext meshSubsets 5 true meshState)
    as (shaders & more & idxs & Hc & _ & Hl & _ & Hall & _).
  - repeat constructor.
  - vm_compute. eauto.
  - reflexivity.
  - discriminate.
  - cbn. lia.
  - vm_compute. discriminate.
  - vm_compute. reflexivity.
  - intros _. vm_compute. reflexivity.
  - exists shaders, more, idxs. repeat split; assumption.
Defined.

Lemma ReadMaterialBinding_connects_witness :
  let back := mkPrim "/mesh/back" "GeomSubset" None [] [] in
  tc_connections
    (tctx (ReadMaterialBinding (H := plainEnv) sceneMaterials back 0 NewReaderContext
             true meshState)) =
  [{| sourceNode := 0; sourceAttr := "shader"; target := "/mat/blue";
      type := CONNECTION_PTR; outputElement := "" |};
   {| sourceNode := 0; sourceAttr := "disp_map"; target := "/mat/bump";
      type := CONNECTION_PTR; outputElement := "" |}].
Proof.
  destruct (ReadMaterialBinding_connects (H := plainEnv) sceneMaterials
              (mkPrim "/mesh/back" "GeomSubset" None [] []) 0 NewReaderContext true
              meshState) as [Hc _].
  - repeat constructor.
  - vm_compute. eauto.
  - reflexivity.
  - exact Hc.
Defined.

Lemma ReadStringArray_sets_or_resets_witness :
  let r := ReadStringArray (ArrayOfToken ["a"; ""; "b"]) 0 "names" shutterTime meshState in
  param_of (arnold (world (snd r))) 0 "names" =
    Some (ParamArray {| nelements := 3; nkeys := 1; adata := DataString ["a"; ""; "b"] |}) /\
  param_of
    (arnold (world (snd (ReadStringArray (ArrayOfString []) 0 "names" shutterTime (snd r)))))
    0 "names" = None.
Proof.
  destruct (ReadStringArray_sets_or_resets (ArrayOfToken ["a"; ""; "b"]) 0 "names"
              shutterTime meshState) as (_ & Hset & _).
  - vm_compute. eauto.
  - split; [exact Hset|].
    destruct (ReadStringArray_sets_or_resets (ArrayOfString []) 0 "names" shutterTime
                (snd (ReadStringArray (ArrayOfToken ["a"; ""; "b"]) 0 "names" shutterTime
                        meshState))) as (_ & Hreset & _).
    + vm_compute. eauto.
    + exact Hreset.
Defined.

Lemma workers_share_the_prims_witness :
  let env := sceneEnv arrayStage in
  let worker k := {| threadId := k; threadCount := 2; rootPrim := None;
                     context := NewReaderContext |} in
  let range := PreAndPostVisit (s_pseudoRoot arrayStage) in
  let st := on_tctx (set_tc_primvarsStack [[]]) (traversal_start arrayStage) in
  fst (ReaderThread_turns (H := env) 3 (worker 0) range 0 st) =
  fst (ReaderThread_turns (H := env) 3 (worker 1) range 0 st).
Proof.
  apply (proj1 (workers_share_the_prims (H := sceneEnv arrayStage)
                  (sceneEnv_readers_keep_stack arrayStage) 2 None NewReaderContext
                  ltac:(lia))); reflexivity.
Defined.
